(** * gravesham-bin-days: the daily handler, its schedule extractor and its
      notification gate, embedded from [src/handler.js].

    Layout of the development:
    - [Str]      JavaScript string helpers used by the handler (trim, split,
                 join); a string is a sequence of eight-bit characters;
    - [RegExp]   a backtracking matcher for the regular-expression literals of
                 the handler (leftmost match, greedy quantifiers, [\b]);
    - [LuxonApi] the operations of the luxon [DateTime] the handler calls,
                 as an interface, and [RefLuxon], an executable instance;
    - [parseDateToLocal], [extractCollections], the notification decision and
      [daily], in a state-and-exception monad over the DynamoDB table and a
      trace of the outbound effects;
    - the scripts the handler runs inside the page ([Page], [AddressInput],
      [Click]), the mail transport ([Mail]) and the joke ([DadJoke]);
    - the definitions the statements use: what a pattern matches, grouping by
      date, the worlds a run goes through, and concrete data;
    - the properties, and concrete runs. *)

From Stdlib Require Import String Ascii ZArith List Bool Lia DecimalString.
From Stdlib Require DecimalZ.
From stdpp Require Import gmap strings list fin_maps.

Open Scope string_scope.
Open Scope Z_scope.
Open Scope list_scope.

(** ** JavaScript strings *)

Module Str.

(** A JS string is truthy exactly when it is not empty. *)
Definition truthy (s : string) : bool :=
  match s with EmptyString => false | String _ _ => true end.

(** [a || b] on strings. *)
Definition or_else (a b : string) : string := if truthy a then a else b.

(** White space of [String.prototype.trim] and of [\s], on eight-bit
    characters: TAB, LF, VT, FF, CR, space and NBSP. *)
Definition is_space (c : ascii) : bool :=
  match N_of_ascii c with
  | 9%N | 10%N | 11%N | 12%N | 13%N | 32%N | 160%N => true
  | _ => false
  end.

Fixpoint trim_start (s : string) : string :=
  match s with
  | String c s' => if is_space c then trim_start s' else s
  | EmptyString => EmptyString
  end.

(** [trim_end] keeps a character when it is not a space or when something
    that survives follows it. *)
Fixpoint trim_end (s : string) : string :=
  match s with
  | EmptyString => EmptyString
  | String c s' =>
      match trim_end s' with
      | EmptyString => if is_space c then EmptyString else String c EmptyString
      | t => String c t
      end
  end.

Definition trim (s : string) : string := trim_end (trim_start s).

(** [Array.prototype.join]. *)
Definition join (sep : string) (l : list string) : string := String.concat sep l.

(** [s.split(/\n+/)]: the pieces between runs of line feeds.  A run never
    yields an empty piece in the middle; a leading or trailing run yields one
    empty piece at that end, and the empty string yields one empty piece. *)
Fixpoint split_lf_aux (cur : string) (after_lf : bool) (s : string) : list string :=
  match s with
  | EmptyString => [cur]
  | String c s' =>
      if Ascii.eqb c "010"%char
      then if after_lf then split_lf_aux cur true s'
           else cur :: split_lf_aux EmptyString true s'
      else split_lf_aux (cur +:+ String c EmptyString) false s'
  end.

Definition split_lf (s : string) : list string := split_lf_aux EmptyString false s.

(** [s.slice(0, n)]. *)
Definition slice0 (n : nat) (s : string) : string := String.substring 0 n s.

(** The character of code 34. *)
Definition double_quote : ascii := ascii_of_nat 34.

(** [String(n)] of an integer. *)
Definition decimal (z : Z) : string := NilZero.string_of_int (Z.to_int z).

(** [s.replace(/c/g, by)] for a one-character pattern. *)
Fixpoint replace_char (c : ascii) (by_ : string) (s : string) : string :=
  match s with
  | EmptyString => EmptyString
  | String a s' =>
      if Ascii.eqb a c then by_ +:+ replace_char c by_ s'
      else String a (replace_char c by_ s')
  end.

End Str.

(** ** Regular expressions

    The handler's patterns use character classes, sequence, alternation,
    greedy [+] and [{m,n}], [\b], and [^]/[$].  [exec] follows the
    backtracking semantics of ECMAScript: leftmost start, first alternative
    first, greedy repetition, and an iteration of a star that consumes nothing
    is rejected. *)

Module RegExp.

Inductive regex : Type :=
| Eps
| Cls (p : ascii -> bool)
| Seq (r1 r2 : regex)
| Alt (r1 r2 : regex)
| Star (r : regex)
| WordB
| Bol
| Eol.

Definition in_range (lo hi : ascii) (c : ascii) : bool :=
  (N.leb (N_of_ascii lo) (N_of_ascii c)) && (N.leb (N_of_ascii c) (N_of_ascii hi)).

Definition digit (c : ascii) : bool := in_range "0" "9" c.
Definition alpha (c : ascii) : bool := in_range "a" "z" c || in_range "A" "Z" c.
Definition word_char (c : ascii) : bool := digit c || alpha c || Ascii.eqb c "_".
(** [.] matches anything but a line terminator. *)
Definition dot (c : ascii) : bool :=
  negb (Ascii.eqb c "010"%char || Ascii.eqb c "013"%char).

Definition lower (c : ascii) : ascii :=
  if in_range "A" "Z" c then ascii_of_N (N_of_ascii c + 32) else c.

Definition chr (a : ascii) : regex := Cls (Ascii.eqb a).
(** A literal character under the [i] flag. *)
Definition chr_i (a : ascii) : regex := Cls (fun c => Ascii.eqb (lower c) (lower a)).

Fixpoint lit (s : string) : regex :=
  match s with
  | EmptyString => Eps
  | String c s' => Seq (chr c) (lit s')
  end.

Fixpoint lit_i (s : string) : regex :=
  match s with
  | EmptyString => Eps
  | String c s' => Seq (chr_i c) (lit_i s')
  end.

Definition Plus (r : regex) : regex := Seq r (Star r).

Fixpoint exactly (n : nat) (r : regex) : regex :=
  match n with O => Eps | S n' => Seq r (exactly n' r) end.

Fixpoint at_most (n : nat) (r : regex) : regex :=
  match n with O => Eps | S n' => Alt (Seq r (at_most n' r)) Eps end.

(** [r{lo,hi}], greedy. *)
Definition Rep (lo hi : nat) (r : regex) : regex :=
  Seq (exactly lo r) (at_most (hi - lo) r).

Definition is_word (o : option ascii) : bool :=
  match o with Some c => word_char c | None => false end.

(** A matcher takes the character before the position, the input from the
    position on and a continuation; the continuation returns the input that
    remains after the whole match. *)
Definition cont : Type := option ascii -> list ascii -> option (list ascii).
Definition matcher : Type := option ascii -> list ascii -> cont -> option (list ascii).

(** Greedy repetition of [m]: one more iteration first, and an iteration
    that consumes nothing is rejected; [n] bounds the number of iterations
    by the length of the input. *)
Fixpoint star_loop (m : matcher) (k : cont) (n : nat) (prev : option ascii)
    (s : list ascii) {struct n} : option (list ascii) :=
  match n with
  | O => k prev s
  | S n' =>
      match m prev s
              (fun p' s' =>
                 if Nat.ltb (length s') (length s) then star_loop m k n' p' s' else None) with
      | Some rest => Some rest
      | None => k prev s
      end
  end.

(** [rmatch r prev s k]: match [r] at the head of [s], the character before
    it being [prev]; [k] continues on what is left. *)
Fixpoint rmatch (r : regex) : matcher :=
  fun prev s k =>
    match r with
    | Eps => k prev s
    | Cls p =>
        match s with
        | c :: s' => if p c then k (Some c) s' else None
        | [] => None
        end
    | Seq r1 r2 => rmatch r1 prev s (fun p' s' => rmatch r2 p' s' k)
    | Alt r1 r2 =>
        match rmatch r1 prev s k with
        | Some rest => Some rest
        | None => rmatch r2 prev s k
        end
    | Star r1 => star_loop (rmatch r1) k (length s) prev s
    | WordB => if xorb (is_word prev) (is_word (head s)) then k prev s else None
    | Bol => match prev with None => k prev s | Some _ => None end
    | Eol => match s with [] => k prev s | _ :: _ => None end
    end.

(** The text matched at the first start position where [r] matches. *)
Fixpoint search (r : regex) (prev : option ascii) (s : list ascii)
  : option (list ascii) :=
  match rmatch r prev s (fun _ rest => Some rest) with
  | Some rest => Some (firstn (length s - length rest) s)
  | None =>
      match s with
      | [] => None
      | c :: s' => search r (Some c) s'
      end
  end.

(** [re.exec(s)[0]] (no [g] flag, so no state is kept between calls). *)
Definition exec (r : regex) (s : string) : option string :=
  match search r None (list_ascii_of_string s) with
  | Some m => Some (string_of_list_ascii m)
  | None => None
  end.

(** [re.test(s)]. *)
Definition test (r : regex) (s : string) : bool :=
  match exec r s with Some _ => true | None => false end.

End RegExp.

(** ** The luxon operations the handler calls

    luxon is a dependency of the handler, so its [DateTime] is an interface
    here: the handler is embedded over any implementation of it.  An invalid
    [DateTime] is a value with [isValid = false], as in luxon; no operation
    throws. *)

Class LuxonApi : Type := {
  DateTime : Type;
  (** [dt.isValid] *)
  isValid : DateTime -> bool;
  (** [DateTime.fromFormat(text, fmt, { zone })] *)
  fromFormat : string -> string -> string -> DateTime;
  (** [DateTime.fromISO(text)] ([None]: the process zone) and
      [DateTime.fromISO(text, { zone })] *)
  fromISO : string -> option string -> DateTime;
  (** [dt.startOf('day')] *)
  startOf_day : DateTime -> DateTime;
  (** [dt.plus({ days: n })] *)
  plus_days : DateTime -> Z -> DateTime;
  (** [dt.toISODate()] of a valid [DateTime] *)
  toISODate : DateTime -> string;
  (** [dt.valueOf()], the epoch milliseconds that [>=] and [-] compare *)
  valueOf : DateTime -> Z;
  (** [dt.day] *)
  dt_day : DateTime -> Z;
  (** [dt.toFormat(fmt)] *)
  toFormat : DateTime -> string -> string
}.

(** *** An executable instance

    Proleptic Gregorian dates at a fixed offset.  It reads the numeric
    [d/M/yyyy] and [d/M/yy] texts, [d LLL yyyy] with English short month
    names and [yyyy-MM-dd]; it serves to run the handler on concrete inputs. *)

Module RefLuxon.

Record date_time : Type := {
  rl_valid : bool;
  rl_epoch_day : Z;
  rl_ms : Z;
  rl_zone : string
}.

Definition invalid : date_time :=
  {| rl_valid := false; rl_epoch_day := 0; rl_ms := 0; rl_zone := "" |}.

Definition days_from_civil (y m d : Z) : Z :=
  let y := if m <=? 2 then y - 1 else y in
  let era := y / 400 in
  let yoe := y - era * 400 in
  let doy := (153 * (if 2 <? m then m - 3 else m + 9) + 2) / 5 + d - 1 in
  let doe := yoe * 365 + yoe / 4 - yoe / 100 + doy in
  era * 146097 + doe - 719468.

Definition civil_from_days (z : Z) : Z * Z * Z :=
  let z := z + 719468 in
  let era := z / 146097 in
  let doe := z - era * 146097 in
  let yoe := (doe - doe / 1460 + doe / 36524 - doe / 146096) / 365 in
  let y := yoe + era * 400 in
  let doy := doe - (365 * yoe + yoe / 4 - yoe / 100) in
  let mp := (5 * doy + 2) / 153 in
  let d := doy - (153 * mp + 2) / 5 + 1 in
  let m := if mp <? 10 then mp + 3 else mp - 9 in
  (if m <=? 2 then y + 1 else y, m, d).

Definition is_leap (y : Z) : bool :=
  ((y mod 4 =? 0) && negb (y mod 100 =? 0)) || (y mod 400 =? 0).

Definition days_in_month (y m : Z) : Z :=
  if m =? 2 then (if is_leap y then 29 else 28)
  else if (m =? 4) || (m =? 6) || (m =? 9) || (m =? 11) then 30 else 31.

Definition make (zone : string) (y m d : Z) : date_time :=
  if (1 <=? m) && (m <=? 12) && (1 <=? d) && (d <=? days_in_month y m)
  then {| rl_valid := true; rl_epoch_day := days_from_civil y m d;
          rl_ms := 0; rl_zone := zone |}
  else invalid.

Fixpoint digits_value (acc : Z) (s : string) : option Z :=
  match s with
  | EmptyString => Some acc
  | String c s' =>
      if RegExp.digit c
      then digits_value (10 * acc + (Z.of_N (N_of_ascii c) - 48)) s'
      else None
  end.

(** A run of between [lo] and [hi] digits, as a number. *)
Definition number (lo hi : nat) (s : string) : option Z :=
  if Nat.leb lo (String.length s) && Nat.leb (String.length s) hi
  then digits_value 0 s else None.

Fixpoint split_on_aux (sep : ascii) (cur : string) (s : string) : list string :=
  match s with
  | EmptyString => [cur]
  | String c s' =>
      if Ascii.eqb c sep then cur :: split_on_aux sep EmptyString s'
      else split_on_aux sep (cur +:+ String c EmptyString) s'
  end.

Definition split_on (sep : ascii) (s : string) : list string :=
  split_on_aux sep EmptyString s.

Fixpoint lower_string (s : string) : string :=
  match s with
  | EmptyString => EmptyString
  | String c s' => String (RegExp.lower c) (lower_string s')
  end.

Definition short_months : list string :=
  ["jan"; "feb"; "mar"; "apr"; "may"; "jun"; "jul"; "aug"; "sep"; "oct"; "nov"; "dec"].

Definition long_months : list string :=
  ["January"; "February"; "March"; "April"; "May"; "June"; "July"; "August";
   "September"; "October"; "November"; "December"].

Fixpoint index_of (x : string) (l : list string) (i : Z) : option Z :=
  match l with
  | [] => None
  | y :: l' => if String.eqb x y then Some i else index_of x l' (i + 1)
  end.

(** luxon reads a two-digit year with the cut-off 60. *)
Definition untruncate_year (y : Z) : Z :=
  if 99 <? y then y else if 60 <? y then 1900 + y else 2000 + y.

Definition from_format (text fmt zone : string) : date_time :=
  if String.eqb fmt "d/M/yyyy" then
    match split_on "/" text with
    | [d; m; y] =>
        match number 1 2 d, number 1 2 m, number 4 4 y with
        | Some d, Some m, Some y => make zone y m d
        | _, _, _ => invalid
        end
    | _ => invalid
    end
  else if String.eqb fmt "d/M/yy" then
    match split_on "/" text with
    | [d; m; y] =>
        match number 1 2 d, number 1 2 m, number 2 4 y with
        | Some d, Some m, Some y => make zone (untruncate_year y) m d
        | _, _, _ => invalid
        end
    | _ => invalid
    end
  else if String.eqb fmt "d LLL yyyy" then
    match split_on " " text with
    | [d; mon; y] =>
        match number 1 2 d, index_of (lower_string mon) short_months 1, number 4 4 y with
        | Some d, Some m, Some y => make zone y m d
        | _, _, _ => invalid
        end
    | _ => invalid
    end
  else invalid.

Definition from_iso (text : string) (zone : option string) : date_time :=
  match split_on "-" text with
  | [y; m; d] =>
      match number 4 4 y, number 2 2 m, number 2 2 d with
      | Some y, Some m, Some d => make (default "system" zone) y m d
      | _, _, _ => invalid
      end
  | _ => invalid
  end.

Definition start_of_day (dt : date_time) : date_time :=
  {| rl_valid := rl_valid dt; rl_epoch_day := rl_epoch_day dt;
     rl_ms := 0; rl_zone := rl_zone dt |}.

Definition plus (dt : date_time) (n : Z) : date_time :=
  {| rl_valid := rl_valid dt; rl_epoch_day := rl_epoch_day dt + n;
     rl_ms := rl_ms dt; rl_zone := rl_zone dt |}.

Definition decimal (z : Z) : string := Str.decimal z.

Definition pad2 (z : Z) : string :=
  if z <? 10 then "0" +:+ decimal z else decimal z.

Definition pad4 (z : Z) : string :=
  if z <? 10 then "000" +:+ decimal z
  else if z <? 100 then "00" +:+ decimal z
  else if z <? 1000 then "0" +:+ decimal z
  else decimal z.

Definition to_iso_date (dt : date_time) : string :=
  let '(y, m, d) := civil_from_days (rl_epoch_day dt) in
  pad4 y +:+ "-" +:+ pad2 m +:+ "-" +:+ pad2 d.

Definition value_of (dt : date_time) : Z := rl_epoch_day dt * 86400000 + rl_ms dt.

Definition day_of_month (dt : date_time) : Z :=
  let '(_, _, d) := civil_from_days (rl_epoch_day dt) in d.

Definition to_format (dt : date_time) (fmt : string) : string :=
  let '(y, m, _) := civil_from_days (rl_epoch_day dt) in
  if String.eqb fmt "MMMM yyyy"
  then nth (Z.to_nat (m - 1)) long_months "" +:+ " " +:+ pad4 y
  else "".

#[export] Instance api : LuxonApi := {|
  DateTime := date_time;
  isValid := rl_valid;
  fromFormat := from_format;
  fromISO := from_iso;
  startOf_day := start_of_day;
  plus_days := plus;
  toISODate := to_iso_date;
  valueOf := value_of;
  dt_day := day_of_month;
  toFormat := to_format
|}.

End RefLuxon.

(** ** Data of the handler *)

(** A row of the results table, as the in-page script returns it. *)
Record Row : Type := { dateText : string; binsText : string }.

(** [{ localDate, bins }]; [localDate] is an ISO date text. *)
Record CollectionEntry : Type := { localDate : string; bins : list string }.

(** What [extractCollections] reads from the frame: the value of its first
    [frame.evaluate] ([{ rows, html }]) and the page's [innerText]. *)
Record TableData : Type := { rows : list Row; html : option string }.
Record FrameData : Type := { tableData : TableData; innerText : string }.

(** [{ collections, tableHtml }] *)
Record ScrapeResult : Type := {
  collections : list CollectionEntry;
  tableHtml : option string
}.

(** What is thrown.  [JsTypeError e] is the [TypeError] the engine raises
    when it evaluates the expression [e]; its wording is the engine's and is
    not modelled. *)
Inductive Error : Type :=
| JsError (message : string)
| JsTypeError (expression : string).

(** The values the handler receives from outside: what [JSON.parse] makes of
    the configuration file, the event of the invocation, and the body of an
    HTTP response.  [JsUndefined] is a property that is not there; numbers
    are the integers; [JsObject] lists the own properties of an object. *)
#[warnings="-register-all"] Inductive JsValue : Type :=
| JsUndefined
| JsNull
| JsBool (b : bool)
| JsNumber (n : Z)
| JsString (s : string)
| JsArray (items : list JsValue)
| JsObject (fields : list (string * JsValue)).

Module Json.

(** [Boolean(v)] *)
Definition truthy (v : JsValue) : bool :=
  match v with
  | JsUndefined | JsNull => false
  | JsBool b => b
  | JsNumber n => negb (n =? 0)
  | JsString s => Str.truthy s
  | JsArray _ | JsObject _ => true
  end.

(** [String(v)]: an array is its elements joined by commas, [null] and
    [undefined] elements being empty; a plain object is [[object Object]]. *)
Fixpoint to_string (v : JsValue) : string :=
  match v with
  | JsUndefined => "undefined"
  | JsNull => "null"
  | JsBool true => "true"
  | JsBool false => "false"
  | JsNumber n => Str.decimal n
  | JsString s => s
  | JsArray items =>
      Str.join ","
        (map (fun item => match item with
                          | JsUndefined | JsNull => EmptyString
                          | _ => to_string item
                          end) items)
  | JsObject _ => "[object Object]"
  end.

(** [String(v || '')] *)
Definition or_empty (v : JsValue) : string :=
  if truthy v then to_string v else EmptyString.

(** [v.name] and [v?.name] of a value that is not [null] or [undefined],
    for a name no prototype defines. *)
Definition get (v : JsValue) (name : string) : JsValue :=
  match v with
  | JsObject fields =>
      match List.find (fun p => String.eqb (fst p) name) fields with
      | Some p => snd p
      | None => JsUndefined
      end
  | _ => JsUndefined
  end.

End Json.

(** [{ label, recipients }], the two properties the loop reads of an
    address. *)
Record AddressConfig : Type := { label : JsValue; recipients : JsValue }.

(** The parsed [config/recipients.json]: [addresses] is [None] when the
    property is missing or is not an array; [timezone] is a zone name or is
    missing; [cfg_messageSuffix] is [config.notify?.messageSuffix]. *)
Record RawConfig : Type := {
  cfg_addresses : option (list JsValue);
  cfg_timezone : option string;
  cfg_messageSuffix : JsValue
}.

Record Config : Type := {
  addresses : list JsValue;
  timezone : option string;
  notify_messageSuffix : JsValue
}.

(** The event of the invocation, a JSON value that is not [null]:
    [forceNotify_field] is [event.forceNotify], [JsUndefined] when the event
    has no such property. *)
Record Event : Type := { forceNotify_field : JsValue }.

(** An item of the DynamoDB state table. *)
Record Item : Type := {
  lastNotifiedForLocalDate : option string;
  lastSnapshot : option string;
  updatedAt : option string
}.

(** ** Insertion-ordered maps and sets

    A JS [Map] iterates in insertion order and [set] on a present key keeps
    its place; [new Set(array)] keeps the first occurrence of each element. *)

Module JsMap.

Definition t : Type := list (string * list string).

Fixpoint get (k : string) (m : t) : option (list string) :=
  match m with
  | [] => None
  | (k', v) :: m' => if String.eqb k k' then Some v else get k m'
  end.

Fixpoint set (k : string) (v : list string) (m : t) : t :=
  match m with
  | [] => [(k, v)]
  | (k', v') :: m' =>
      if String.eqb k k' then (k', v) :: m' else (k', v') :: set k v m'
  end.

Definition keys (m : t) : list string := map fst m.

(** [array.includes(x)] *)
Definition includes (x : string) (l : list string) : bool := existsb (String.eqb x) l.

Definition add (acc : list string) (x : string) : list string :=
  if includes x acc then acc else acc ++ [x].

(** [Array.from(new Set(l))] *)
Definition uniq (l : list string) : list string := fold_left add l [].

End JsMap.

(** ** The regular-expression literals of the handler *)

Module Patterns.
Import RegExp.

Definition d := Cls digit.
Definition s_plus := Plus (Cls Str.is_space).
Definition slash := chr "/".

(** [/\b(\d{1,2}\/\d{1,2}\/\d{4})\b/] *)
Definition embedded_dmy : regex :=
  Seq WordB
    (Seq (Seq (Rep 1 2 d) (Seq slash (Seq (Rep 1 2 d) (Seq slash (exactly 4 d)))))
       WordB).

(** [/(\b\d{1,2}\/\d{1,2}\/\d{2,4}\b)|(\b\d{1,2}\s+[A-Za-z]{3,9}\s+\d{4}\b)|(\b\d{4}-\d{2}-\d{2}\b)/] *)
Definition dateRegex : regex :=
  Alt
    (Seq WordB (Seq (Rep 1 2 d) (Seq slash (Seq (Rep 1 2 d) (Seq slash (Seq (Rep 2 4 d) WordB))))))
    (Alt
       (Seq WordB (Seq (Rep 1 2 d) (Seq s_plus (Seq (Rep 3 9 (Cls alpha))
                                                   (Seq s_plus (Seq (exactly 4 d) WordB))))))
       (Seq WordB (Seq (exactly 4 d) (Seq (chr "-") (Seq (exactly 2 d)
                                                       (Seq (chr "-") (Seq (exactly 2 d) WordB))))))).

(** [/.+@.+\..+/] *)
Definition email_like : regex :=
  Seq (Plus (Cls dot)) (Seq (chr "@") (Seq (Plus (Cls dot)) (Seq (chr ".") (Plus (Cls dot))))).

(** [/^(1|true|yes)$/i] *)
Definition force_flag : regex :=
  Seq Bol (Seq (Alt (lit_i "1") (Alt (lit_i "true") (lit_i "yes"))) Eol).

End Patterns.

Section Handler.

Context {luxon : LuxonApi}.

(** ** DateNormalizer: [parseDateToLocal] *)

(** [process.env.X || fallback] *)
Definition env_or (v : option string) (fallback : string) : string :=
  match v with
  | Some s => Str.or_else s fallback
  | None => fallback
  end.

(** The zone of [parseDateToLocal]: [process.env.TZ || 'Europe/London']. *)
Definition parse_zone (TZ : option string) : string := env_or TZ "Europe/London".

(** [parseDateToLocal(str)]; [None] is [null].  The capture [m[1]] of the
    last pattern is the whole match, its two [\b] being empty. *)
Definition parseDateToLocal (TZ : option string) (str : string) : option DateTime :=
  let zone := parse_zone TZ in
  let s := Str.trim str in
  let dt := fromFormat s "d/M/yyyy" zone in
  if isValid dt then Some (startOf_day dt) else
  let dt := fromFormat s "d/M/yy" zone in
  if isValid dt then Some (startOf_day dt) else
  let dt := fromFormat s "d LLL yyyy" zone in
  if isValid dt then Some (startOf_day dt) else
  let dt := fromISO s (Some zone) in
  if isValid dt then Some (startOf_day dt) else
  match RegExp.exec Patterns.embedded_dmy s with
  | Some inner =>
      let innerDt := fromFormat inner "d/M/yyyy" zone in
      if isValid innerDt then Some (startOf_day innerDt) else None
  | None => None
  end.

(** ** ScheduleExtractor: [extractCollections] *)

(** [parseDateToLocal(text)?.toISODate()] *)
Definition parsed_date (TZ : option string) (text : string) : option string :=
  match parseDateToLocal TZ text with
  | Some dt => Some (toISODate dt)
  | None => None
  end.

(** One turn of the loop over [tableData.rows]. *)
Definition merge_row (TZ : option string) (byDate : JsMap.t) (row : Row) : JsMap.t :=
  match parseDateToLocal TZ (dateText row) with
  | None => byDate
  | Some dt =>
      if negb (Str.truthy (binsText row)) then byDate else
      let localDate := toISODate dt in
      let existing := default [] (JsMap.get localDate byDate) in
      if negb (JsMap.includes (binsText row) existing)
      then JsMap.set localDate (existing ++ [binsText row]) byDate
      else byDate
  end.

Definition byDateFromTables (TZ : option string) (rs : list Row) : JsMap.t :=
  fold_left (merge_row TZ) rs [].

(** [Array.from(map.entries()).map(([localDate, bins]) => ({ localDate, bins }))] *)
Definition entries (m : JsMap.t) : list CollectionEntry :=
  map (fun kv => {| localDate := fst kv; bins := snd kv |}) m.

(** [tableData.html?.trim() || null] *)
Definition trimmed_html (h : option string) : option string :=
  match h with
  | Some t => if Str.truthy (Str.trim t) then Some (Str.trim t) else None
  | None => None
  end.

(** [raw.split(/\n+/).map(s => s.trim()).filter(Boolean)] *)
Definition text_lines (raw : string) : list string :=
  List.filter Str.truthy (map Str.trim (Str.split_lf raw)).

(** [lines[i - 1]], [undefined] before the first line. *)
Definition line_before (lines : list string) (i : nat) : option string :=
  match i with O => None | S j => nth_error lines j end.

(** [[lines[i - 1], lines[i], lines[i + 1]].filter(Boolean).join(' ')] *)
Definition context_window (lines : list string) (i : nat) : string :=
  Str.join " "
    (List.filter Str.truthy
       (omap id [line_before lines i; nth_error lines i; nth_error lines (S i)])).

(** The body of the loop over the lines: what line [i] pushes on [results]. *)
Definition scan_line (TZ : option string) (lines : list string) (i : nat)
  : option CollectionEntry :=
  match nth_error lines i with
  | None => None
  | Some line =>
      match RegExp.exec Patterns.dateRegex line with
      | None => None
      | Some dateStr =>
          match parseDateToLocal TZ dateStr with
          | Some dt =>
              Some {| localDate := toISODate dt; bins := [context_window lines i] |}
          | None => None
          end
      end
  end.

Definition scan_results (TZ : option string) (lines : list string) : list CollectionEntry :=
  omap (scan_line TZ lines) (seq 0 (length lines)).

Definition group_result (byDate : JsMap.t) (r : CollectionEntry) : JsMap.t :=
  let existing := default [] (JsMap.get (localDate r) byDate) in
  JsMap.set (localDate r) (JsMap.uniq (existing ++ bins r)) byDate.

Definition byDateFromText (TZ : option string) (raw : string) : JsMap.t :=
  fold_left group_result (scan_results TZ (text_lines raw)) [].

Definition extractCollections (TZ : option string) (frame : FrameData) : ScrapeResult :=
  let fromTables := byDateFromTables TZ (rows (tableData frame)) in
  if Nat.ltb 0 (length fromTables)
  then {| collections := entries fromTables;
          tableHtml := trimmed_html (html (tableData frame)) |}
  else {| collections := entries (byDateFromText TZ (innerText frame));
          tableHtml := trimmed_html (html (tableData frame)) |}.


(** ** NotificationGate: the pure part of the decision *)

(** [result.collections.some(c => c.localDate === tomorrow)] *)
Definition hasTomorrowOf (cs : list CollectionEntry) (tomorrow : string) : bool :=
  existsb (fun c => String.eqb (localDate c) tomorrow) cs.

(** The sort key [dt] of an entry: [DateTime.fromISO(c.localDate)]. *)
Definition entry_dt (c : CollectionEntry) : DateTime := fromISO (localDate c) None.

(** [c.dt.isValid && c.dt >= now.startOf('day')] *)
Definition is_upcoming (now : DateTime) (c : CollectionEntry) : bool :=
  isValid (entry_dt c) && (valueOf (startOf_day now) <=? valueOf (entry_dt c)).

(** [Array.prototype.sort((a, b) => a.dt - b.dt)]: the sort is stable, so
    with this comparator its result is the stable sort by [valueOf dt]. *)
Fixpoint insert_by_dt (x : CollectionEntry) (l : list CollectionEntry)
  : list CollectionEntry :=
  match l with
  | [] => [x]
  | y :: l' =>
      if valueOf (entry_dt x) <=? valueOf (entry_dt y)
      then x :: y :: l'
      else y :: insert_by_dt x l'
  end.

Definition sort_by_dt (l : list CollectionEntry) : list CollectionEntry :=
  fold_right insert_by_dt [] l.

Definition upcoming (now : DateTime) (cs : list CollectionEntry) : list CollectionEntry :=
  sort_by_dt (List.filter (is_upcoming now) cs).

(** [announceDate] *)
Definition announceDateOf (forceNotify : bool) (now : DateTime) (tomorrow : string)
    (cs : list CollectionEntry) : string :=
  if forceNotify && negb (hasTomorrowOf cs tomorrow)
  then match upcoming now cs with
       | first :: _ => localDate first
       | [] => tomorrow
       end
  else tomorrow.

Definition entries_on (cs : list CollectionEntry) (date : string) : list CollectionEntry :=
  List.filter (fun c => String.eqb (localDate c) date) cs.

(** [binsForAnnounce] *)
Definition binsForAnnounce (cs : list CollectionEntry) (announceDate : string) : list string :=
  flat_map bins (entries_on cs announceDate).

(** [uniqueBins] *)
Definition uniqueBins (cs : list CollectionEntry) (announceDate : string) : list string :=
  JsMap.uniq (binsForAnnounce cs announceDate).

(** [announceDetails] *)
Definition announceDetails (cs : list CollectionEntry) (announceDate : string) : string :=
  Str.join " | " (map (fun c => Str.join ", " (bins c)) (entries_on cs announceDate)).

(** [binsText = announceDetails || uniqueBins.join(' + ')] *)
Definition binsTextOf (cs : list CollectionEntry) (announceDate : string) : string :=
  Str.or_else (announceDetails cs announceDate)
              (Str.join " + " (uniqueBins cs announceDate)).

(** ** MessageComposer *)

Definition ordinal_suffix (day : Z) : string :=
  if (day =? 1) || (day =? 21) || (day =? 31) then "st"
  else if (day =? 2) || (day =? 22) then "nd"
  else if (day =? 3) || (day =? 23) then "rd"
  else "th".

Definition formatUKDate (dateStr : string) : string :=
  let dt := fromISO dateStr None in
  if negb (isValid dt) then dateStr else
  let day := dt_day dt in
  Str.decimal day +:+ ordinal_suffix day +:+ " " +:+ toFormat dt "MMMM yyyy".

Definition escapeHtml (value : string) : string :=
  Str.replace_char "'" "&#39;"
    (Str.replace_char Str.double_quote "&quot;"
       (Str.replace_char ">" "&gt;"
          (Str.replace_char "<" "&lt;"
             (Str.replace_char "&" "&amp;" value)))).

Definition opt_truthy (o : option string) : bool :=
  match o with Some s => Str.truthy s | None => false end.

Definition buildHtmlEmailBody (summaryLine messageSuffix : string)
    (tableHtml dadJoke : option string) : option string :=
  let p1 := if negb (opt_truthy tableHtml) && Str.truthy summaryLine
            then ["<p>" +:+ escapeHtml summaryLine +:+ "</p>"] else [] in
  let p2 := if opt_truthy tableHtml then [default "" tableHtml] else [] in
  let suffix := Str.trim messageSuffix in
  let p3 := if Str.truthy suffix
            then ["<p>" +:+ Str.replace_char "010"%char "<br>" (escapeHtml suffix) +:+ "</p>"]
            else [] in
  let p4 := if opt_truthy dadJoke
            then ["<p><em>Dad joke of the day:</em> " +:+ escapeHtml (default "" dadJoke) +:+ "</p>"]
            else [] in
  let parts := (p1 ++ p2 ++ p3 ++ p4)%list in
  if Nat.ltb 0 (length parts) then Some (Str.join (String "010"%char EmptyString) parts) else None.

Record Message : Type := {
  subject : string;
  msg : string;
  htmlBody : option string
}.

(** [summaryLine] *)
Definition summaryLineOf (label_ tomorrow announceDate : string) (result : ScrapeResult)
  : string :=
  let isTomorrow := String.eqb announceDate tomorrow in
  let ukFormattedDate := formatUKDate announceDate in
  let whenText := if isTomorrow then "tomorrow" else "on " +:+ ukFormattedDate in
  let binsText := binsTextOf (collections result) announceDate in
  "Collection " +:+ whenText +:+ " for " +:+ label_ +:+ " (" +:+ ukFormattedDate
    +:+ "): " +:+ binsText.

Definition compose (label_ tomorrow announceDate messageSuffix : string)
    (result : ScrapeResult) (dadJoke : option string) : Message :=
  let ukFormattedDate := formatUKDate announceDate in
  let binsText := binsTextOf (collections result) announceDate in
  let summaryLine := summaryLineOf label_ tomorrow announceDate result in
  let textParts :=
    ([summaryLine; messageSuffix]
       ++ (if opt_truthy dadJoke then ["Dad joke of the day: " +:+ default "" dadJoke] else []))%list in
  let lf2 := String "010"%char (String "010"%char EmptyString) in
  {| subject := binsText +:+ " collection on " +:+ ukFormattedDate +:+ " - " +:+ label_;
     msg := Str.trim (Str.join lf2 (List.filter Str.truthy textParts));
     htmlBody := buildHtmlEmailBody summaryLine messageSuffix (tableHtml result) dadJoke |}.

(** [emailLike]: [/.+@.+\..+/.test(String(v || ''))] *)
Definition emailLike (v : JsValue) : bool :=
  RegExp.test Patterns.email_like (Json.or_empty v).

End Handler.

(** ** The joke: [fetchDadJokeWithTimeout] and [dadJokePromise] *)

Module DadJoke.

(** How [axios.get] fails: [error.name === 'CanceledError'] or not. *)
Inductive AxiosFailure : Type :=
| Canceled (e : Error)
| Failed (e : Error).

(** [fetchDadJokeWithTimeout]; the argument is the failure of [axios.get]
    or the [response.data?.joke] it brings; [None] is [null]. *)
Definition fetchDadJokeWithTimeout (response : AxiosFailure + JsValue)
  : Error + option string :=
  match response with
  | inr (JsString joke) =>
      if Str.truthy (Str.trim joke) then inr (Some (Str.trim joke)) else inr None
  | inr _ => inr None
  | inl (Canceled _) => inl (JsError "Dad joke fetch timed out")
  | inl (Failed e) => inl e
  end.

(** The value [dadJokePromise] settles to. *)
Definition dadJokePromise (response : AxiosFailure + JsValue) : option string :=
  match fetchDadJokeWithTimeout response with
  | inr joke => joke
  | inl _ => None
  end.

End DadJoke.

(** ** The run: effects, the outside world and [exports.daily] *)

(** Built-ins of the host the handler calls on its own data. *)
Class HostApi : Type := {
  (** [crypto.createHash('sha256').update(s).digest('hex')] *)
  sha256 : string -> string;
  (** [JSON.stringify({ collections, tableHtml })] *)
  JSON_stringify : ScrapeResult -> string
}.

(** The outbound effects of a run, in the order they happen: the browser,
    a scrape (the navigation of one page for a label), a read and a write of
    the state table, a call of [sendEmail], and the joke request.  The last
    field of [FxSendEmail] and of [FxUpdateItem] tells whether the call
    returned ([true]) or threw ([false]). *)
Inductive Effect : Type :=
| FxLaunchBrowser
| FxScrape (label_ : JsValue)
| FxGetItem (key : string)
| FxSendEmail (to subject_ text : string) (html_ : option string) (sent : bool)
| FxUpdateItem (key localDate_ snapshot : string) (written : bool)
| FxCloseBrowser
| FxFetchJoke.

(** The state a run acts on: the DynamoDB table and the effects so far. *)
Record World : Type := {
  store : gmap string Item;
  trace : list Effect
}.

Inductive Outcome (A : Type) : Type :=
| Returned (a : A)
| Thrown (e : Error).
Arguments Returned {A} a.
Arguments Thrown {A} e.

(** State and exceptions: an [async] function of the handler. *)
Definition M (A : Type) : Type := World -> Outcome A * World.

Definition ret {A : Type} (a : A) : M A := fun w => (Returned a, w).

Definition throw {A : Type} (e : Error) : M A := fun w => (Thrown e, w).

Definition bind {A B : Type} (m : M A) (f : A -> M B) : M B :=
  fun w =>
    match m w with
    | (Returned a, w') => f a w'
    | (Thrown e, w') => (Thrown e, w')
    end.

(** [try { m } catch (e) { h(e) }] *)
Definition try_catch {A : Type} (m : M A) (h : Error -> M A) : M A :=
  fun w =>
    match m w with
    | (Returned a, w') => (Returned a, w')
    | (Thrown e, w') => h e w'
    end.

(** [try { m } finally { f }]: [f] always runs; when it throws, its error
    replaces the outcome of [m]. *)
Definition finally {A : Type} (m : M A) (f : M unit) : M A :=
  fun w =>
    match m w with
    | (r, w') =>
        match f w' with
        | (Returned _, w'') => (r, w'')
        | (Thrown e, w'') => (Thrown e, w'')
        end
    end.

Definition emit (fx : Effect) : M unit :=
  fun w => (Returned tt, {| store := store w; trace := trace w ++ [fx] |}).

Definition get_store : M (gmap string Item) := fun w => (Returned (store w), w).

Definition put_store (s : gmap string Item) : M unit :=
  fun w => (Returned tt, {| store := s; trace := trace w |}).

Notation "'let*' x ':=' m 'in' k" := (bind m (fun x => k))
  (at level 10, x name, m at level 100, k at level 200).
Notation "m ';;' k" := (bind m (fun _ => k))
  (at level 100, k at level 200, right associativity).

(** [{ statusCode, body }] *)
Record Response : Type := { statusCode : Z; body : string }.

Section Run.

Context {luxon : LuxonApi} {host : HostApi}.

(** What the outside world does during one run.  An [option Error] is the
    exception a call throws, if any; calls inside the address loop are
    indexed by the position [i] of the address (and [j] of the recipient). *)
Record Env : Type := {
  (** [process.env] *)
  env_TZ : option string;
  env_FORCE_NOTIFY : option string;
  env_MESSAGE_SUFFIX : option string;
  (** [JSON.parse(fs.readFileSync(CONFIG_PATH))] *)
  config_file : Error + RawConfig;
  (** [DateTime.now().setZone(zone)] *)
  clock_now : string -> DateTime;
  (** [new Date().toISOString()] *)
  clock_iso : string;
  (** [launchBrowser()] *)
  launch_error : option Error;
  (** the navigation of [scrapeNextCollections] up to the rendered results *)
  scrape_frame : nat -> JsValue -> Error + FrameData;
  (** [dynamo.send(GetItemCommand)] *)
  getItem_error : nat -> option Error;
  (** [sendEmail] *)
  sendEmail_error : nat -> nat -> string -> option Error;
  (** [dynamo.send(UpdateItemCommand)] *)
  updateItem_error : nat -> option Error;
  (** [browser.close()] *)
  close_error : option Error;
  (** [axios.get('https://icanhazdadjoke.com/')]: how it fails, or the
      [response.data?.joke] it brings *)
  joke_response : DadJoke.AxiosFailure + JsValue
}.

Variable env : Env.

Definition getForceNotify (event : option Event) : bool :=
  match env_FORCE_NOTIFY env with
  | Some v => Str.truthy v && RegExp.test Patterns.force_flag v
  | None => false
  end
  || match event with
     | None => false
     | Some ev =>
         match forceNotify_field ev with
         | JsBool true => true
         | _ => false
         end
         || RegExp.test Patterns.force_flag (Json.or_empty (forceNotify_field ev))
     end.

Definition loadConfig : M Config :=
  match config_file env with
  | inl e => throw e
  | inr raw =>
      match cfg_addresses raw with
      | None => throw (JsError "config.addresses must be an array")
      | Some l =>
          ret {| addresses := l; timezone := cfg_timezone raw;
                 notify_messageSuffix := cfg_messageSuffix raw |}
      end
  end.

(** The value [dadJoke] takes once [dadJokePromise] is awaited. *)
Definition dadJoke_value : option string := DadJoke.dadJokePromise (joke_response env).

Definition launchBrowser : M unit :=
  match launch_error env with
  | Some e => throw e
  | None => emit FxLaunchBrowser
  end.

Definition closeBrowser : M unit :=
  emit FxCloseBrowser ;;
  match close_error env with
  | Some e => throw e
  | None => ret tt
  end.

Definition scrapeNextCollections (i : nat) (addressLabel : JsValue) : M ScrapeResult :=
  emit (FxScrape addressLabel) ;;
  match scrape_frame env i addressLabel with
  | inl e => throw e
  | inr frame => ret (extractCollections (env_TZ env) frame)
  end.

(** [res.Item?.lastNotifiedForLocalDate?.S === localDate] *)
Definition wasNotifiedForDate (i : nat) (addressHash localDate_ : string) : M bool :=
  emit (FxGetItem addressHash) ;;
  match getItem_error env i with
  | Some e => throw e
  | None =>
      let* table := get_store in
      let last := item ← table !! addressHash; lastNotifiedForLocalDate item in
      ret (match last with
           | Some d => String.eqb d localDate_
           | None => false
           end)
  end.

(** [SET lastNotifiedForLocalDate = :d, lastSnapshot = :s, updatedAt = :u] *)
Definition markNotified (i : nat) (addressHash localDate_ : string)
    (snapshot : ScrapeResult) : M unit :=
  let s := Str.slice0 3500 (JSON_stringify snapshot) in
  match updateItem_error env i with
  | Some e => emit (FxUpdateItem addressHash localDate_ s false) ;; throw e
  | None =>
      emit (FxUpdateItem addressHash localDate_ s true) ;;
      let* table := get_store in
      put_store (<[addressHash := {| lastNotifiedForLocalDate := Some localDate_;
                                     lastSnapshot := Some s;
                                     updatedAt := Some (clock_iso env) |}]> table)
  end.

(** [sendEmail(toEmail, ...)]; the recipient is written into the message as
    [String(toEmail)]. *)
Definition sendEmail (i j : nat) (toEmail : JsValue) (m : Message) : M unit :=
  let to := Json.to_string toEmail in
  match sendEmail_error env i j to with
  | Some e => emit (FxSendEmail to (subject m) (msg m) (htmlBody m) false) ;; throw e
  | None => emit (FxSendEmail to (subject m) (msg m) (htmlBody m) true)
  end.

(** The loop over [toList], from index [j]. *)
Fixpoint send_loop (i j : nat) (toList : list JsValue) (m : Message) : M unit :=
  match toList with
  | [] => ret tt
  | email :: rest =>
      try_catch (sendEmail i j email m) (fun _ => ret tt) ;;
      send_loop i (S j) rest m
  end.

(** [config.notify?.messageSuffix || process.env.MESSAGE_SUFFIX || ''] *)
Definition messageSuffixOf (config : Config) : JsValue :=
  if Json.truthy (notify_messageSuffix config) then notify_messageSuffix config
  else JsString (env_or (env_MESSAGE_SUFFIX env) "").

(** [const { label, recipients } = address]: a [TypeError] when [address]
    is [null] or [undefined]. *)
Definition destructure (address : JsValue) : M AddressConfig :=
  match address with
  | JsUndefined | JsNull => throw (JsTypeError "const { label, recipients } = address")
  | _ => ret {| label := Json.get address "label";
                recipients := Json.get address "recipients" |}
  end.

(** [recipients.join(', ')], which only an array has; the elements of the
    array. *)
Definition join_recipients (recipients_ : JsValue) : M (list JsValue) :=
  match recipients_ with
  | JsArray items => ret items
  | _ => throw (JsTypeError "recipients.join(', ')")
  end.

(** [sha256(label)]: [hash.update] takes a string, and throws a [TypeError]
    on any other value of a configuration file. *)
Definition hash_label (label_ : JsValue) : M string :=
  match label_ with
  | JsString l => ret (sha256 l)
  | _ => throw (JsTypeError "crypto.createHash('sha256').update(label)")
  end.

(** The message of one address.  A label that reaches this point is a
    string.  [buildHtmlEmailBody] calls [(messageSuffix || '').trim()], which
    only a string has; the text body is built before and cannot throw. *)
Definition compose_message (config : Config) (label_ tomorrow announceDate : string)
    (result : ScrapeResult) : M Message :=
  match messageSuffixOf config with
  | JsString messageSuffix =>
      ret (compose label_ tomorrow announceDate messageSuffix result dadJoke_value)
  | _ => throw (JsTypeError "(messageSuffix || '').trim()")
  end.

(** The part of the loop body after the scrape; [recipients_] holds the
    elements of [recipients]. *)
Definition decide_and_notify (config : Config) (now : DateTime) (tomorrow : string)
    (forceNotify : bool) (i : nat) (label_ : JsValue) (recipients_ : list JsValue)
    (result : ScrapeResult) : M unit :=
  let hasTomorrow := hasTomorrowOf (collections result) tomorrow in
  if negb forceNotify && negb hasTomorrow then ret tt else
  let* addressHash := hash_label label_ in
  let* alreadyNotified :=
    (if negb forceNotify
     then try_catch (wasNotifiedForDate i addressHash tomorrow) (fun _ => ret false)
     else ret false) in
  if negb forceNotify && alreadyNotified then ret tt else
  let announceDate := announceDateOf forceNotify now tomorrow (collections result) in
  let isTomorrow := String.eqb announceDate tomorrow in
  let* m := compose_message config (Json.to_string label_) tomorrow announceDate result in
  let toList := List.filter emailLike recipients_ in
  (if Nat.eqb (length toList) 0 then ret tt else send_loop i 0 toList m) ;;
  if negb forceNotify && isTomorrow
  then try_catch (markNotified i addressHash tomorrow result) (fun _ => ret tt)
  else ret tt.

(** One turn of the loop over [config.addresses]; [continue] is [ret tt]. *)
Definition process_address (config : Config) (now : DateTime) (tomorrow : string)
    (forceNotify : bool) (i : nat) (address : JsValue) : M unit :=
  let* fields := destructure address in
  let* recipients_ := join_recipients (recipients fields) in
  let* scraped :=
    try_catch (let* r := scrapeNextCollections i (label fields) in ret (Some r))
              (fun _ => ret None) in
  match scraped with
  | None => ret tt
  | Some result =>
      decide_and_notify config now tomorrow forceNotify i (label fields) recipients_ result
  end.

Fixpoint address_loop (config : Config) (now : DateTime) (tomorrow : string)
    (forceNotify : bool) (i : nat) (l : list JsValue) : M unit :=
  match l with
  | [] => ret tt
  | address :: rest =>
      process_address config now tomorrow forceNotify i address ;;
      address_loop config now tomorrow forceNotify (S i) rest
  end.

(** [exports.daily]; the joke request goes out when
    [fetchDadJokeWithTimeout] is called, before the browser is launched. *)
Definition daily (event : option Event) : M Response :=
  let* config := try_catch loadConfig (fun error => throw error) in
  emit FxFetchJoke ;;
  let now := clock_now env (env_or (timezone config) (env_or (env_TZ env) "Europe/London")) in
  let tomorrow := toISODate (plus_days now 1) in
  let forceNotify := getForceNotify event in
  launchBrowser ;;
  finally (address_loop config now tomorrow forceNotify 0 (addresses config))
          closeBrowser ;;
  ret {| statusCode := 200; body := "ok" |}.

End Run.

(** ** More JavaScript strings *)

Module Js.

(** [String.prototype.toLowerCase] on eight-bit characters: A to Z, and the
    accented capitals of Latin-1 (all of 192 to 222 but the sign 215). *)
Definition lower_char (c : ascii) : ascii :=
  let n := N_of_ascii c in
  if ((65 <=? n) && (n <=? 90))%N
     || ((192 <=? n) && (n <=? 222) && negb (n =? 215))%N
  then ascii_of_N (n + 32) else c.

Fixpoint toLowerCase (s : string) : string :=
  match s with
  | EmptyString => EmptyString
  | String c s' => String (lower_char c) (toLowerCase s')
  end.

(** [hay.includes(needle)] *)
Fixpoint includes (needle hay : string) : bool :=
  String.prefix needle hay
  || match hay with
     | EmptyString => false
     | String _ hay' => includes needle hay'
     end.

(** [l.filter(Boolean)] on values that are a string or [undefined]/[null]. *)
Definition truthy_strings (l : list (option string)) : list string :=
  List.filter Str.truthy (omap id l).

(** [Array.prototype.find], as the position of the element found. *)
Fixpoint find_index {A : Type} (p : A -> bool) (l : list A) : option nat :=
  match l with
  | [] => None
  | x :: l' => if p x then Some O else option_map S (find_index p l')
  end.

End Js.

(** ** The scripts the handler runs inside the page

    [frame.evaluate] runs a function over the document of the form frame.
    The document is what the queries of that function return: the tables
    with, for each [tr] of a table, the [textContent] of its [td] and [th]
    cells.  Nodes are compared by identity, which [node_id] stands for. *)

Module Page.
Import RegExp.

Record TableNode : Type := {
  node_id : nat;
  (** [table.querySelectorAll('tr')], each with the [textContent] of
      [tr.querySelectorAll('td, th')] *)
  trs : list (list string);
  outerHTML : string
}.

Record Document : Type := {
  (** [document.getElementById('table2') || document.querySelector('#table2')] *)
  table2 : option TableNode;
  (** [document.querySelectorAll('table')] *)
  tables : list TableNode
}.

(** [s.replace(/\s+/g, ' ')]: [in_run] tells that the character before was
    white space already. *)
Fixpoint collapse_spaces (in_run : bool) (s : string) : string :=
  match s with
  | EmptyString => EmptyString
  | String c s' =>
      if Str.is_space c
      then if in_run then collapse_spaces true s'
           else String " " (collapse_spaces true s')
      else String c (collapse_spaces false s')
  end.

(** [norm]: [(s || '').replace(/\s+/g, ' ').trim()] *)
Definition norm (s : string) : string := Str.trim (collapse_spaces false s).

(** [/collection\s*date/i] *)
Definition collection_date : regex :=
  Seq (lit_i "collection") (Seq (Star (Cls Str.is_space)) (lit_i "date")).

(** [/bin\s*type/i] *)
Definition bin_type : regex :=
  Seq (lit_i "bin") (Seq (Star (Cls Str.is_space)) (lit_i "type")).

(** One turn of the loop over the [tr]s: the row it pushes, if any. *)
Definition row_of (cells : list string) : option Row :=
  match cells with
  | c1 :: c2 :: _ =>
      let col1 := norm c1 in
      let col2 := norm c2 in
      let isHeader := test collection_date col1 && test bin_type col2 in
      if isHeader then None
      else if Str.truthy col1 && Str.truthy col2
           then Some {| dateText := col1; binsText := col2 |}
           else None
  | _ => None
  end.

Definition extractRows (table : TableNode) : list Row := omap row_of (trs table).

(** [tableOrder] *)
Definition tableOrder (doc : Document) : list TableNode :=
  match table2 doc with
  | Some t => [t]
  | None => []
  end ++ tables doc.

(** The loop over [tableOrder]; [seen] holds the nodes met so far. *)
Fixpoint first_with_rows (seen : list nat) (order : list TableNode) : TableData :=
  match order with
  | [] => {| rows := []; html := None |}
  | table :: rest =>
      if existsb (Nat.eqb (node_id table)) seen then first_with_rows seen rest else
      let rs := extractRows table in
      if Nat.ltb 0 (length rs)
      then {| rows := rs; html := Some (outerHTML table) |}
      else first_with_rows (node_id table :: seen) rest
  end.

(** The value of the first [frame.evaluate] of [extractCollections]. *)
Definition tableData_of (doc : Document) : TableData :=
  first_with_rows [] (tableOrder doc).

End Page.

(** ** The address input: [typeAndSelectAddress], step 1 *)

Module AddressInput.
Import RegExp.

(** What the script reads of an element. *)
Record Element : Type := {
  el_name : option string;
  el_id : option string;
  el_role : option string;
  el_ariaLabel : option string;
  el_placeholder : option string;
  el_className : option string;
  el_type : option string;
  (** [el.closest('.field, .fieldContent, .af-block, fieldset, form')]:
      its [textContent], [None] when there is no such ancestor *)
  el_field : option string;
  (** [isVisible(el)] *)
  el_visible : bool
}.

Record Form : Type := {
  (** [querySelectorAll('input[aria-autocomplete=list], input[role=combobox],
      input[type=search], input')] *)
  inputs : list Element;
  (** the [inAuto] of the autoLookup container, when both exist *)
  inAuto : option Element;
  (** [querySelectorAll('[contenteditable=true], [role=combobox], input')] *)
  editables : list Element
}.

(** [/address|lookup|find|search/] *)
Definition lookup_words : regex :=
  Alt (lit "address") (Alt (lit "lookup") (Alt (lit "find") (lit "search"))).

(** [/text|search/] *)
Definition text_types : regex := Alt (lit "text") (lit "search").

(** [/date|time/] *)
Definition date_types : regex := Alt (lit "date") (lit "time").

Definition attrs_of (el : Element) : string :=
  Js.toLowerCase
    (Str.join " "
       (Js.truthy_strings
          [el_name el; el_id el; el_role el; el_ariaLabel el; el_placeholder el;
           el_className el])).

Definition scoreOf (el : Element) : Z :=
  let score := 0 in
  let score := if test lookup_words (attrs_of el) then score + 5 else score in
  let score := if test text_types (default "" (el_type el)) then score + 2 else score in
  let score := if test date_types (default "" (el_type el)) then score - 3 else score in
  match el_field el with
  | Some content =>
      let txt := Js.toLowerCase content in
      let score := if Js.includes "address" txt then score + 3 else score in
      if Js.includes "postcode" txt then score + 1 else score
  | None => score
  end.

(** The loop over [candidates]: [best] and [bestScore], [None] being
    [null] and minus infinity. *)
Definition best_step (acc : option (Element * Z)) (el : Element) : option (Element * Z) :=
  let sc := scoreOf el in
  match acc with
  | None => Some (el, sc)
  | Some (best, bestScore) => if bestScore <? sc then Some (el, sc) else acc
  end.

Definition best_of (candidates : list Element) : option Element :=
  option_map fst (fold_left best_step candidates None).

(** The element the script returns, [None] being [null]. *)
Definition address_input (form : Form) : option Element :=
  let candidates := List.filter el_visible (inputs form) in
  if Nat.eqb (length candidates) 0 then
    match inAuto form with
    | Some el =>
        if el_visible el then Some el
        else best_of (List.filter el_visible (editables form))
    | None => best_of (List.filter el_visible (editables form))
    end
  else best_of candidates.

End AddressInput.

(** ** [clickByText] *)

Module Click.

(** [norm] of [clickByText]: [(s || '').trim().toLowerCase()] *)
Definition norm (s : string) : string := Js.toLowerCase (Str.trim s).

(** [matches(el, wanted)], [content] being [el.textContent] *)
Definition matches (content wanted : string) : bool :=
  String.eqb (norm content) wanted || Js.includes wanted (norm content).

(** [clickByText(frame, texts)]: the position in [clickable] of the element
    that receives the click, [None] when the script returns [false]. *)
Fixpoint clickByText (clickable labels : list string) : option nat :=
  match labels with
  | [] => None
  | wantedRaw :: rest =>
      let wanted := norm wantedRaw in
      match Js.find_index (fun content => matches content wanted) clickable with
      | Some i => Some i
      | None => clickByText clickable rest
      end
  end.

End Click.

(** ** Mail transport: [getGmailCredentials] and [sendEmail] *)

Module Mail.

(** An entry of [response.Parameters]. *)
Record SsmParameter : Type := { param_Name : string; param_Value : option string }.

(** [{ clientId, clientSecret, refreshToken, sender }]; [None] is
    [undefined]. *)
Record Credentials : Type := {
  clientId : option string;
  clientSecret : option string;
  refreshToken : option string;
  sender : option string
}.

(** What the outside world does during one [sendEmail]. *)
Record MailEnv : Type := {
  (** [ssm.send(command)]: the exception it throws or [response.Parameters] *)
  ssm_send : Error + option (list SsmParameter);
  (** [process.env] *)
  env_GMAIL_CLIENT_ID : option string;
  env_GMAIL_CLIENT_SECRET : option string;
  env_GMAIL_REFRESH_TOKEN : option string;
  env_GMAIL_SENDER : option string;
  (** the text of [Date.now()], an underscore and
      [Math.random().toString(36).slice(2)] *)
  boundary_stamp : string;
  (** [gmail.users.messages.send({ userId, requestBody: { raw } })] *)
  gmail_send : string -> option Error
}.

(** [name.split('/').pop()]: what follows the last slash. *)
Fixpoint last_segment_aux (cur : string) (s : string) : string :=
  match s with
  | EmptyString => cur
  | String c s' =>
      if Ascii.eqb c "/" then last_segment_aux EmptyString s'
      else last_segment_aux (cur +:+ String c EmptyString) s'
  end.

Definition last_segment (name : string) : string := last_segment_aux EmptyString name.

(** The object [params] after the [forEach]. *)
Definition params_of (parameters : option (list SsmParameter))
  : gmap string (option string) :=
  fold_left (fun params param => <[last_segment (param_Name param) := param_Value param]> params)
            (default [] parameters) ∅.

(** [params[key]] *)
Definition param (params : gmap string (option string)) (key : string) : option string :=
  mjoin (params !! key).

(** [getGmailCredentials()]; its [try] covers the whole body, so it does
    not throw. *)
Definition getGmailCredentials (env : MailEnv) : Credentials :=
  match ssm_send env with
  | inr parameters =>
      let params := params_of parameters in
      {| clientId := param params "gmail-client-id";
         clientSecret := param params "gmail-client-secret";
         refreshToken := param params "gmail-refresh-token";
         sender := param params "gmail-sender" |}
  | inl _ =>
      {| clientId := env_GMAIL_CLIENT_ID env;
         clientSecret := env_GMAIL_CLIENT_SECRET env;
         refreshToken := env_GMAIL_REFRESH_TOKEN env;
         sender := env_GMAIL_SENDER env |}
  end.

(** [Buffer.from(message, 'utf8')], the characters being the code points
    0 to 255. *)
Definition utf8 (s : string) : list N :=
  flat_map (fun c => let n := N_of_ascii c in
                     if (n <? 128)%N then [n]
                     else [(192 + n / 64)%N; (128 + n mod 64)%N])
           (list_ascii_of_string s).

Definition alphabet : string :=
  "ABCDEFGHIJKLMNOPQRSTUVWXYZabcdefghijklmnopqrstuvwxyz0123456789+/".

Definition digit64 (i : N) : ascii :=
  match String.get (N.to_nat i) alphabet with
  | Some c => c
  | None => "="%char
  end.

(** [buffer.toString('base64')] *)
Fixpoint base64 (bytes : list N) : string :=
  match bytes with
  | a :: b :: c :: rest =>
      String (digit64 (a / 4))
        (String (digit64 ((a mod 4) * 16 + b / 16))
           (String (digit64 ((b mod 16) * 4 + c / 64))
              (String (digit64 (c mod 64)) (base64 rest))))
  | [a; b] =>
      String (digit64 (a / 4))
        (String (digit64 ((a mod 4) * 16 + b / 16))
           (String (digit64 ((b mod 16) * 4)) "="))
  | [a] =>
      String (digit64 (a / 4)) (String (digit64 ((a mod 4) * 16)) "==")
  | [] => EmptyString
  end%N.

(** [s.replace(/=+$/, '')] *)
Fixpoint strip_padding (s : string) : string :=
  match s with
  | EmptyString => EmptyString
  | String c s' =>
      match strip_padding s' with
      | EmptyString => if Ascii.eqb c "=" then EmptyString else String c EmptyString
      | t => String c t
      end
  end.

(** [encodedMessage] *)
Definition encode (message : string) : string :=
  strip_padding
    (Str.replace_char "/" "_" (Str.replace_char "+" "-" (base64 (utf8 message)))).

Definition lf : string := String "010"%char EmptyString.

(** [message], [htmlBody] being the [html] that is kept. *)
Definition mime_message (env : MailEnv) (sender_ toEmail subject_ plainText : string)
    (htmlBody_ : option string) : string :=
  match htmlBody_ with
  | Some h =>
      let boundary := "----=_Part_" +:+ boundary_stamp env in
      Str.join lf
        ["From: " +:+ sender_;
         "To: " +:+ toEmail;
         "Subject: " +:+ subject_;
         "MIME-Version: 1.0";
         "Content-Type: multipart/alternative; boundary="
           +:+ String Str.double_quote boundary +:+ String Str.double_quote EmptyString;
         "";
         "--" +:+ boundary;
         "Content-Type: text/plain; charset=utf-8";
         "Content-Transfer-Encoding: 7bit";
         "";
         plainText;
         "";
         "--" +:+ boundary;
         "Content-Type: text/html; charset=utf-8";
         "Content-Transfer-Encoding: 7bit";
         "";
         h;
         "";
         "--" +:+ boundary +:+ "--";
         ""]
  | None =>
      Str.join lf
        ["From: " +:+ sender_;
         "To: " +:+ toEmail;
         "Subject: " +:+ subject_;
         "MIME-Version: 1.0";
         "Content-Type: text/plain; charset=utf-8";
         "";
         plainText]
  end.

(** [html && html.trim().length > 0 ? html : null] *)
Definition kept_html (html_ : option string) : option string :=
  match html_ with
  | Some h => if Str.truthy h && Nat.ltb 0 (String.length (Str.trim h)) then Some h else None
  | None => None
  end.

(** [sendEmail(toEmail, subject, text, html)]: its outcome and the raw
    messages handed to the Gmail API. *)
Definition sendEmail (env : MailEnv) (toEmail subject_ text : string) (html_ : option string)
  : Outcome unit * list string :=
  let credentials := getGmailCredentials env in
  match clientId credentials, clientSecret credentials,
        refreshToken credentials, sender credentials with
  | Some id, Some secret, Some token, Some from =>
      if Str.truthy id && Str.truthy secret && Str.truthy token && Str.truthy from then
        let message := mime_message env from toEmail subject_ text (kept_html html_) in
        let encodedMessage := encode message in
        match gmail_send env encodedMessage with
        | Some e => (Thrown e, [encodedMessage])
        | None => (Returned tt, [encodedMessage])
        end
      else (Returned tt, [])
  | _, _, _, _ => (Returned tt, [])
  end.

End Mail.


(** * Definitions used by the statements *)

(** ** What a pattern matches

    [Matches r prev s prev' s']: [r] matches the part of [s] before [s'];
    [prev] is the character before [s] and [prev'] the one before [s'].  An
    iteration of a star consumes at least one character. *)

Module RegExpSpec.
Import RegExp.

Inductive Matches : regex -> option ascii -> list ascii -> option ascii -> list ascii -> Prop :=
| MEps (p : option ascii) (s : list ascii) : Matches Eps p s p s
| MCls (f : ascii -> bool) (p : option ascii) (c : ascii) (s : list ascii) :
    f c = true -> Matches (Cls f) p (c :: s) (Some c) s
| MSeq (r1 r2 : regex) (p p1 p2 : option ascii) (s s1 s2 : list ascii) :
    Matches r1 p s p1 s1 -> Matches r2 p1 s1 p2 s2 -> Matches (Seq r1 r2) p s p2 s2
| MAltL (r1 r2 : regex) (p p' : option ascii) (s s' : list ascii) :
    Matches r1 p s p' s' -> Matches (Alt r1 r2) p s p' s'
| MAltR (r1 r2 : regex) (p p' : option ascii) (s s' : list ascii) :
    Matches r2 p s p' s' -> Matches (Alt r1 r2) p s p' s'
| MStarNil (r : regex) (p : option ascii) (s : list ascii) : Matches (Star r) p s p s
| MStarCons (r : regex) (p p1 p2 : option ascii) (s s1 s2 : list ascii) :
    Matches r p s p1 s1 -> (length s1 < length s)%nat ->
    Matches (Star r) p1 s1 p2 s2 -> Matches (Star r) p s p2 s2
| MWordB (p : option ascii) (s : list ascii) :
    xorb (is_word p) (is_word (head s)) = true -> Matches WordB p s p s
| MBol (s : list ascii) : Matches Bol None s None s
| MEol (p : option ascii) : Matches Eol p [] p [].

(** A matcher succeeds only through a match of [r] followed by a success of
    the continuation, and does succeed when there is one. *)
Definition sound (m : matcher) (r : regex) : Prop :=
  forall p s k x, m p s k = Some x ->
    exists p1 s1, Matches r p s p1 s1 /\ k p1 s1 = Some x.

Definition complete (m : matcher) (r : regex) : Prop :=
  forall p s p1 s1, Matches r p s p1 s1 ->
    forall k, k p1 s1 <> None -> m p s k <> None.

(** The character before the position that follows [pre], [prev] being the
    character before [pre]. *)
Definition before (prev : option ascii) (pre : list ascii) : option ascii :=
  match last pre with Some c => Some c | None => prev end.

(** [r] matches somewhere in [s]. *)
Definition occurs (r : regex) (prev : option ascii) (s : list ascii) : Prop :=
  exists pre rest p1 s1, s = pre ++ rest /\ Matches r (before prev pre) rest p1 s1.

(** A non-empty run of characters other than line terminators. *)
Definition something (a : list ascii) : Prop :=
  a <> [] /\ Forall (fun c => dot c = true) a.

(** something@something.something, anywhere in the text. *)
Definition email_shaped (v : string) : Prop :=
  exists pre a b c post,
    list_ascii_of_string v = pre ++ a ++ "@"%char :: b ++ "."%char :: c ++ post
    /\ something a /\ something b /\ something c.










End RegExpSpec.

(** A list with each element kept at its first occurrence only: duplicates
    removed, order of first appearance preserved. *)
Fixpoint first_seen (l : list string) : list string :=
  match l with
  | [] => []
  | x :: l' => x :: List.filter (fun y => negb (String.eqb x y)) (first_seen l')
  end.


(** The deduplicated union of the bins of the whole schedule, as the
    specification words the fallback of the bin list. *)
Definition whole_schedule_bins (cs : list CollectionEntry) : list string :=
  first_seen (flat_map bins cs).

(** [log fxs w]: the world after the effects [fxs], the table untouched. *)
Definition log (fxs : list Effect) (w : World) : World :=
  {| store := store w; trace := trace w ++ fxs |}.

(** The effects that notify: a send attempt or a state write attempt. *)
Definition is_notification (fx : Effect) : bool :=
  match fx with
  | FxSendEmail _ _ _ _ _ | FxUpdateItem _ _ _ _ => true
  | _ => false
  end.

(** The recipients of the send attempts of a trace, in order. *)
Definition sends_to (fxs : list Effect) : list string :=
  omap (fun fx => match fx with FxSendEmail to _ _ _ _ => Some to | _ => None end) fxs.

(** The last date recorded for a key of the table. *)
Definition last_notified (table : gmap string Item) (key : string) : option string :=
  item ← table !! key; lastNotifiedForLocalDate item.

(** Both loops of [extractCollections] add texts to the list kept under a
    date key; [group] is that loop on (key, text) pairs. *)

Module Grouping.
Import JsMap.

Definition group_add (k x : string) (m : t) : t :=
  set k (add (default [] (get k m)) x) m.

Definition group (ps : list (string * string)) : t :=
  fold_left (fun m p => group_add (fst p) (snd p) m) ps [].

(** The texts filed under [d], in input order. *)
Definition texts_for (d : string) (ps : list (string * string)) : list string :=
  map snd (List.filter (fun p => String.eqb (fst p) d) ps).

Definition filed (l : list string) : option (list string) :=
  match l with [] => None | _ :: _ => Some (uniq l) end.

End Grouping.

Section ExtractorSpec.

Context {luxon : LuxonApi}.
Variable TZ : option string.
Import JsMap Grouping.

(** What a table row contributes: its date and its bin text, when the date
    parses and the bin text is not empty. *)
Definition row_pair (r : Row) : option (string * string) :=
  match parsed_date TZ (dateText r) with
  | Some d => if Str.truthy (binsText r) then Some (d, binsText r) else None
  | None => None
  end.

(** The bin texts of the rows whose date text parses to [d], in row order. *)
Definition texts_on (d : string) (rs : list Row) : list string :=
  texts_for d (omap row_pair rs).



End ExtractorSpec.

Section DateNormalizerSpec.

Context {luxon : LuxonApi}.



End DateNormalizerSpec.

Section GateSpec.

Context {luxon : LuxonApi}.

(** Every element is preceded only by elements that are not later. *)
Fixpoint ascending (l : list CollectionEntry) : Prop :=
  match l with
  | [] => True
  | x :: l' =>
      (forall y, In y l' -> valueOf (entry_dt x) <= valueOf (entry_dt y))
      /\ ascending l'
  end.

End GateSpec.

(** The worlds a run goes through, as functions of the outside world. *)

Section RunSpec.

Context {luxon : LuxonApi} {host : HostApi}.
Variable env : Env.

Definition send_effect (i j : nat) (to : JsValue) (m : Message) : Effect :=
  FxSendEmail (Json.to_string to) (subject m) (msg m) (htmlBody m)
    (match sendEmail_error env i j (Json.to_string to) with
     | None => true
     | Some _ => false
     end).

Fixpoint send_effects (i j : nat) (toList : list JsValue) (m : Message) : list Effect :=
  match toList with
  | [] => []
  | to :: rest => send_effect i j to m :: send_effects i (S j) rest m
  end.

(** What the guarded [wasNotifiedForDate] yields. *)
Definition notified_flag (i : nat) (key date : string) (w : World) : bool :=
  match getItem_error env i with
  | Some _ => false
  | None =>
      match last_notified (store w) key with
      | Some d => String.eqb d date
      | None => false
      end
  end.

Definition snapshot_of (result : ScrapeResult) : string :=
  Str.slice0 3500 (JSON_stringify result).

Definition notified_item (date : string) (result : ScrapeResult) : Item :=
  {| lastNotifiedForLocalDate := Some date;
     lastSnapshot := Some (snapshot_of result);
     updatedAt := Some (clock_iso env) |}.

(** The world after the guarded [markNotified]. *)
Definition after_mark (i : nat) (key date : string) (result : ScrapeResult) (w : World)
  : World :=
  match updateItem_error env i with
  | Some _ => log [FxUpdateItem key date (snapshot_of result) false] w
  | None =>
      {| store := <[key := notified_item date result]> (store w);
         trace := trace w ++ [FxUpdateItem key date (snapshot_of result) true] |}
  end.

(** The three [TypeError]s of the loop body. *)
Definition unreadable_error (address : JsValue) : Error :=
  match address with
  | JsUndefined | JsNull => JsTypeError "const { label, recipients } = address"
  | _ => JsTypeError "recipients.join(', ')"
  end.

Definition label_error : Error := JsTypeError "crypto.createHash('sha256').update(label)".

Definition suffix_error : Error := JsTypeError "(messageSuffix || '').trim()".

(** The suffix of the messages of a run: a text, or a value that is not a
    text, on which composing a message throws. *)
Definition suffix_text (config : Config) : Error + string :=
  match messageSuffixOf env config with
  | JsString s => inr s
  | _ => inl suffix_error
  end.

(** What the loop reads of an address: its label and the elements of its
    recipients; nothing when the address is [null] or its recipients are
    not an array. *)
Definition readable (address : JsValue) : option (JsValue * list JsValue) :=
  match address with
  | JsUndefined | JsNull => None
  | _ =>
      match Json.get address "recipients" with
      | JsArray items => Some (Json.get address "label", items)
      | _ => None
      end
  end.

(** The message of an address with label [l], the suffix being [suffix]. *)
Definition message_for (now : DateTime) (tomorrow : string)
    (forceNotify : bool) (l suffix : string) (result : ScrapeResult) : Message :=
  compose l tomorrow
          (announceDateOf forceNotify now tomorrow (collections result))
          suffix result (dadJoke_value env).

Definition valid_recipients (recipients_ : list JsValue) : list JsValue :=
  List.filter emailLike recipients_.

(** The error the loop body throws, for a scraped address: none when the
    address is skipped; otherwise a label that is not a string throws when
    it is hashed, and a suffix that is not a string throws when the message
    of an address not yet notified is composed. *)
Definition decide_fault (config : Config) (tomorrow : string) (forceNotify : bool)
    (i : nat) (label_ : JsValue) (result : ScrapeResult) (w : World) : option Error :=
  if negb forceNotify && negb (hasTomorrowOf (collections result) tomorrow) then None else
  match label_ with
  | JsString l =>
      if negb forceNotify && notified_flag i (sha256 l) tomorrow w then None else
      match suffix_text config with
      | inr _ => None
      | inl e => Some e
      end
  | _ => Some label_error
  end.

(** The world after the loop body, for a scraped address. *)
Definition after_decide (config : Config) (now : DateTime) (tomorrow : string)
    (forceNotify : bool) (i : nat) (label_ : JsValue) (recipients_ : list JsValue)
    (result : ScrapeResult) (w : World) : World :=
  if negb forceNotify && negb (hasTomorrowOf (collections result) tomorrow) then w else
  match label_ with
  | JsString l =>
      let key := sha256 l in
      let w1 := if forceNotify then w else log [FxGetItem key] w in
      if negb forceNotify && notified_flag i key tomorrow w then w1 else
      match suffix_text config with
      | inl _ => w1
      | inr suffix =>
          let w2 :=
            log (send_effects i 0 (valid_recipients recipients_)
                   (message_for now tomorrow forceNotify l suffix result)) w1 in
          if negb forceNotify
             && String.eqb (announceDateOf forceNotify now tomorrow (collections result))
                           tomorrow
          then after_mark i key tomorrow result w2
          else w2
      end
  | _ => w
  end.

(** The error one turn of the address loop throws, if any. *)
Definition turn_fault (config : Config) (tomorrow : string) (forceNotify : bool)
    (i : nat) (address : JsValue) (w : World) : option Error :=
  match readable address with
  | None => Some (unreadable_error address)
  | Some (label_, _) =>
      match scrape_frame env i label_ with
      | inl _ => None
      | inr frame =>
          decide_fault config tomorrow forceNotify i label_
            (extractCollections (env_TZ env) frame) (log [FxScrape label_] w)
      end
  end.

(** The world after one turn of the address loop. *)
Definition after_address (config : Config) (now : DateTime) (tomorrow : string)
    (forceNotify : bool) (i : nat) (address : JsValue) (w : World) : World :=
  match readable address with
  | None => w
  | Some (label_, recipients_) =>
      match scrape_frame env i label_ with
      | inl _ => log [FxScrape label_] w
      | inr frame =>
          after_decide config now tomorrow forceNotify i label_ recipients_
            (extractCollections (env_TZ env) frame) (log [FxScrape label_] w)
      end
  end.

(** The error that ends the address loop, if any: that of the first turn
    that throws, the turns before it having run. *)
Fixpoint loop_fault (config : Config) (now : DateTime) (tomorrow : string)
    (forceNotify : bool) (i : nat) (l : list JsValue) (w : World) : option Error :=
  match l with
  | [] => None
  | address :: rest =>
      match turn_fault config tomorrow forceNotify i address w with
      | Some e => Some e
      | None =>
          loop_fault config now tomorrow forceNotify (S i) rest
            (after_address config now tomorrow forceNotify i address w)
      end
  end.

(** The world after the address loop: the loop stops at the first turn that
    throws. *)
Fixpoint after_loop (config : Config) (now : DateTime) (tomorrow : string)
    (forceNotify : bool) (i : nat) (l : list JsValue) (w : World) : World :=
  match l with
  | [] => w
  | address :: rest =>
      match turn_fault config tomorrow forceNotify i address w with
      | Some _ => after_address config now tomorrow forceNotify i address w
      | None =>
          after_loop config now tomorrow forceNotify (S i) rest
            (after_address config now tomorrow forceNotify i address w)
      end
  end.

End RunSpec.

Section DailySpec.

Context {luxon : LuxonApi} {host : HostApi}.

(** What [loadConfig] returns or throws. *)
Definition loaded_config (env : Env) : Error + Config :=
  match config_file env with
  | inl e => inl e
  | inr raw =>
      match cfg_addresses raw with
      | None => inl (JsError "config.addresses must be an array")
      | Some l =>
          inr {| addresses := l; timezone := cfg_timezone raw;
                 notify_messageSuffix := cfg_messageSuffix raw |}
      end
  end.

Definition now_of (env : Env) (config : Config) : DateTime :=
  clock_now env (env_or (timezone config) (env_or (env_TZ env) "Europe/London")).

Definition tomorrow_of (env : Env) (config : Config) : string :=
  toISODate (plus_days (now_of env config) 1).

(** The world in which the address loop starts. *)
Definition at_launch (w : World) : World := log [FxFetchJoke; FxLaunchBrowser] w.

(** The error that ends the address loop of a run, if any. *)
Definition run_fault (env : Env) (config : Config) (event : option Event) (w : World)
  : option Error :=
  loop_fault env config (now_of env config) (tomorrow_of env config)
             (getForceNotify env event) 0 (addresses config) (at_launch w).

(** The world when the address loop has ended and the browser was closed. *)
Definition after_run (env : Env) (config : Config) (event : option Event) (w : World)
  : World :=
  log [FxCloseBrowser]
      (after_loop env config (now_of env config) (tomorrow_of env config)
                  (getForceNotify env event) 0 (addresses config) (at_launch w)).

Definition ok_response : Response := {| statusCode := 200; body := "ok" |}.

(** The same outside world, but with every state read succeeding. *)
Definition with_read_ok (env : Env) : Env :=
  {| env_TZ := env_TZ env; env_FORCE_NOTIFY := env_FORCE_NOTIFY env;
     env_MESSAGE_SUFFIX := env_MESSAGE_SUFFIX env; config_file := config_file env;
     clock_now := clock_now env; clock_iso := clock_iso env;
     launch_error := launch_error env; scrape_frame := scrape_frame env;
     getItem_error := fun _ => None;
     sendEmail_error := sendEmail_error env; updateItem_error := updateItem_error env;
     close_error := close_error env; joke_response := joke_response env |}.

(** The same outside world, but with every state write succeeding. *)
Definition with_write_ok (env : Env) : Env :=
  {| env_TZ := env_TZ env; env_FORCE_NOTIFY := env_FORCE_NOTIFY env;
     env_MESSAGE_SUFFIX := env_MESSAGE_SUFFIX env; config_file := config_file env;
     clock_now := clock_now env; clock_iso := clock_iso env;
     launch_error := launch_error env; scrape_frame := scrape_frame env;
     getItem_error := getItem_error env;
     sendEmail_error := sendEmail_error env; updateItem_error := fun _ => None;
     close_error := close_error env; joke_response := joke_response env |}.

(** The table without the record of [key]. *)
Definition forget (key : string) (w : World) : World :=
  {| store := delete key (store w); trace := trace w |}.

End DailySpec.

(** ** Concrete data

    The handler is run on [RefLuxon], with executable stand-ins for the host
    built-ins, on 10 September 2025 at noon. *)

Module Fixture.

#[local] Existing Instance RefLuxon.api.

#[export] Instance host : HostApi := {|
  sha256 := fun s => "sha256(" +:+ s +:+ ")";
  JSON_stringify := fun r => "[" +:+ Str.join "," (map localDate (collections r)) +:+ "]"
|}.

Definition noon (zone : string) : RefLuxon.date_time :=
  {| RefLuxon.rl_valid := true;
     RefLuxon.rl_epoch_day := RefLuxon.days_from_civil 2025 9 10;
     RefLuxon.rl_ms := 43200000;
     RefLuxon.rl_zone := zone |}.

Definition house : string := "10 Example Road, DA12 1AA".
Definition house_key : string := "sha256(10 Example Road, DA12 1AA)".
Definition resident : string := "resident@example.org".
Definition phone : string := "+447700900001".

Definition table_frame (rs : list (string * string)) : FrameData :=
  {| tableData := {| rows := map (fun p => {| dateText := p.1; binsText := p.2 |}) rs;
                     html := None |};
     innerText := EmptyString |}.

Definition text_frame (raw : string) : FrameData :=
  {| tableData := {| rows := []; html := None |}; innerText := raw |}.

(** The address [house] of a configuration file, with its recipients. *)
Definition house_address (to : list string) : JsValue :=
  JsObject [("label", JsString house); ("recipients", JsArray (map JsString to))].

Definition tonight : string := "Put bins out after 7pm tonight.".

(** A run over the given addresses, with the given message suffix. *)
Definition world_with (addresses_ : list JsValue) (suffix : JsValue)
    (frame : Error + FrameData) (read_error : option Error)
    (send_error : string -> option Error) (write_error close_error : option Error) : Env :=
  {| env_TZ := Some "Europe/London";
     env_FORCE_NOTIFY := None;
     env_MESSAGE_SUFFIX := None;
     config_file :=
       inr {| cfg_addresses := Some addresses_;
              cfg_timezone := Some "Europe/London";
              cfg_messageSuffix := suffix |};
     clock_now := noon;
     clock_iso := "2025-09-10T11:00:00.000Z";
     launch_error := None;
     scrape_frame := fun _ _ => frame;
     getItem_error := fun _ => read_error;
     sendEmail_error := fun _ _ to => send_error to;
     updateItem_error := fun _ => write_error;
     close_error := close_error;
     joke_response := inl (DadJoke.Failed (JsError "Network Error")) |}.

(** A run over one address, [house], with the given recipients. *)
Definition world_of (frame : Error + FrameData) (to : list string)
    (read_error : option Error) (send_error : string -> option Error)
    (write_error close_error : option Error) : Env :=
  world_with [ house_address to ] (JsString tonight) frame read_error send_error
             write_error close_error.

Definition config_of (to : list string) : Config :=
  {| addresses := [ house_address to ];
     timezone := Some "Europe/London";
     notify_messageSuffix := JsString tonight |}.

(** An address of a configuration file that has a label and no recipients. *)
Definition no_recipients : JsValue := JsObject [("label", JsString house)].

Definition fresh : World := {| store := ∅; trace := [] |}.

Definition forced : option Event := Some {| forceNotify_field := JsBool true |}.

(** The send attempts of a trace, with their outcome. *)
Definition send_results (fxs : list Effect) : list (string * bool) :=
  omap (fun fx => match fx with
                  | FxSendEmail to _ _ _ sent => Some (to, sent)
                  | _ => None
                  end) fxs.

(** The state write attempts of a trace, with their outcome. *)
Definition write_results (fxs : list Effect) : list (string * string * bool) :=
  omap (fun fx => match fx with
                  | FxUpdateItem key date _ written => Some (key, date, written)
                  | _ => None
                  end) fxs.

Definition general_waste_tomorrow : FrameData :=
  table_frame [("11/09/2025", "General Waste")].

Definition boom : Error := JsError "boom".

Definition tomorrow : string := "2025-09-11".

Definition notified_world : World :=
  {| store := {[ house_key := {| lastNotifiedForLocalDate := Some tomorrow;
                                 lastSnapshot := None; updatedAt := None |} ]};
     trace := [] |}.

Definition past_only : FrameData := table_frame [("01/09/2025", "Recycling")].

Definition past_and_future : FrameData :=
  table_frame [("01/09/2025", "Recycling"); ("14/09/2025", "Food waste");
               ("12/09/2025", "Garden waste")].

Definition merged_rows : FrameData :=
  table_frame [("11/09/2025", "General Waste"); ("18/09/2025", "Recycling");
               ("11/9/2025", "Food waste"); ("11/09/2025", "General Waste")].

Definition lf : string := String "010"%char EmptyString.

Definition page_text : string :=
  "Your next collections" +:+ lf +:+ lf +:+ "  Friday" +:+ lf +:+ "12/09/2025" +:+ lf
    +:+ "Recycling" +:+ lf.

End Fixture.

(** ** What a run does to the outside world *)

(** The keys of the state reads of a trace, in order. *)
Definition reads_of (fxs : list Effect) : list string :=
  omap (fun fx => match fx with FxGetItem key => Some key | _ => None end) fxs.

(** The keys and dates of the state write attempts of a trace, in order. *)
Definition writes_of (fxs : list Effect) : list (string * string) :=
  omap (fun fx => match fx with
                  | FxUpdateItem key date _ _ => Some (key, date)
                  | _ => None
                  end) fxs.

(** The labels of the scrapes of a trace, in order. *)
Definition scrapes_of (fxs : list Effect) : list JsValue :=
  omap (fun fx => match fx with FxScrape l => Some l | _ => None end) fxs.

(** The effects that belong to the run as a whole: the joke request, the
    launch and the close of the browser. *)
Definition lifecycle_of (fxs : list Effect) : list Effect :=
  List.filter (fun fx => match fx with
                         | FxLaunchBrowser | FxCloseBrowser | FxFetchJoke => true
                         | _ => false
                         end) fxs.

(** [address.label] *)
Definition label_of (address : JsValue) : JsValue := Json.get address "label".


(** The outcome of a step that throws [fault], if any. *)
Definition outcome_of (fault : option Error) : Outcome unit :=
  match fault with
  | Some e => Thrown e
  | None => Returned tt
  end.

Section CoverageSpec.

Context {host : HostApi}.

(** [k] is the hash of the label of [address], a string. *)
Definition key_of (address : JsValue) (k : string) : Prop :=
  exists l, label_of address = JsString l /\ k = sha256 l.

(** What the loop body can do to the world, for a scraped address. *)
Definition decide_ok (tomorrow : string) (forceNotify : bool) (label_ : JsValue)
    (w w' : World) (fxs : list Effect) : Prop :=
  trace w' = trace w ++ fxs
  /\ scrapes_of fxs = []
  /\ lifecycle_of fxs = []
  /\ (reads_of fxs = [] \/ exists l, label_ = JsString l /\ reads_of fxs = [sha256 l])
  /\ (writes_of fxs = []
      \/ exists l, label_ = JsString l
                   /\ writes_of fxs = [(sha256 l, tomorrow)] /\ reads_of fxs = [sha256 l])
  /\ (forceNotify = true -> reads_of fxs = [] /\ writes_of fxs = [] /\ store w' = store w)
  /\ (forall k, store w' !! k = store w !! k
                \/ ((exists l, label_ = JsString l /\ k = sha256 l)
                    /\ forceNotify = false
                    /\ exists item, store w' !! k = Some item
                                    /\ lastNotifiedForLocalDate item = Some tomorrow)).

(** What one turn of the address loop can do to the world. *)
Definition turn_ok (tomorrow : string) (forceNotify : bool) (address : JsValue)
    (w w' : World) (fxs : list Effect) : Prop :=
  trace w' = trace w ++ fxs
  /\ scrapes_of fxs = match readable address with
                      | Some _ => [label_of address]
                      | None => []
                      end
  /\ lifecycle_of fxs = []
  /\ (reads_of fxs = [] \/ exists k, key_of address k /\ reads_of fxs = [k])
  /\ (writes_of fxs = []
      \/ exists k, key_of address k
                   /\ writes_of fxs = [(k, tomorrow)] /\ reads_of fxs = [k])
  /\ (forceNotify = true -> reads_of fxs = [] /\ writes_of fxs = [] /\ store w' = store w)
  /\ (forall k, store w' !! k = store w !! k
                \/ (key_of address k /\ forceNotify = false
                    /\ exists item, store w' !! k = Some item
                                    /\ lastNotifiedForLocalDate item = Some tomorrow)).

(** What the address loop can do to the world; [n] addresses were scraped. *)
Definition loop_ok (tomorrow : string) (forceNotify : bool) (l : list JsValue)
    (w w' : World) (fxs : list Effect) (n : nat) : Prop :=
  trace w' = trace w ++ fxs
  /\ scrapes_of fxs = map label_of (take n l)
  /\ Forall (fun a => readable a <> None) (take n l)
  /\ lifecycle_of fxs = []
  /\ (length (reads_of fxs) <= length l)%nat
  /\ (length (writes_of fxs) <= length (reads_of fxs))%nat
  /\ (forall k, In k (reads_of fxs) -> exists a, In a l /\ key_of a k)
  /\ (forall k d, In (k, d) (writes_of fxs) -> In k (reads_of fxs) /\ d = tomorrow)
  /\ (forceNotify = true -> reads_of fxs = [] /\ writes_of fxs = [] /\ store w' = store w)
  /\ (forall k, store w' !! k = store w !! k
                \/ exists a item,
                     In a l /\ key_of a k /\ forceNotify = false
                     /\ store w' !! k = Some item
                     /\ lastNotifiedForLocalDate item = Some tomorrow).

End CoverageSpec.

(** ** Texts, pages and mail *)

(** [s.toLowerCase()] on the letters A to Z. *)
Definition lower_case (s : string) : string :=
  string_of_list_ascii (map RegExp.lower (list_ascii_of_string s)).

(** The texts that switch force mode on: 1, true or yes, in any case. *)
Definition force_word (v : string) : Prop :=
  lower_case v = "1" \/ lower_case v = "true" \/ lower_case v = "yes".

(** The values of [event.forceNotify] that switch force mode on: the
    boolean true, the number 1, a text that is 1, true or yes, and an array
    whose only element is such a value (the text of such an array is the
    text of its element). *)
Fixpoint force_value (v : JsValue) : Prop :=
  match v with
  | JsBool b => b = true
  | JsNumber n => n = 1
  | JsString s => force_word s
  | JsArray [item] => force_value item
  | _ => False
  end.

(** The English ordinal suffix of a number. *)
Definition english_ordinal (n : Z) : string :=
  if (n mod 100 =? 11) || (n mod 100 =? 12) || (n mod 100 =? 13) then "th"
  else if n mod 10 =? 1 then "st"
  else if n mod 10 =? 2 then "nd"
  else if n mod 10 =? 3 then "rd"
  else "th".

(** The entity that stands for a character in HTML text. *)
Definition entity (c : ascii) : string :=
  if Ascii.eqb c "&" then "&amp;"
  else if Ascii.eqb c "<" then "&lt;"
  else if Ascii.eqb c ">" then "&gt;"
  else if Ascii.eqb c Str.double_quote then "&quot;"
  else if Ascii.eqb c "'" then "&#39;"
  else String c EmptyString.

(** Each character replaced by its entity, in one pass. *)
Fixpoint escape_once (s : string) : string :=
  match s with
  | EmptyString => EmptyString
  | String c s' => entity c +:+ escape_once s'
  end.

(** The first table of a list from which rows can be read. *)
Definition first_readable (order : list Page.TableNode) : option Page.TableNode :=
  List.find (fun t => Nat.ltb 0 (length (Page.extractRows t))) order.

(** Nodes of a list are told apart by their identity. *)
Definition identified (order : list Page.TableNode) : Prop :=
  forall a b, In a order -> In b order -> Page.node_id a = Page.node_id b -> a = b.

(** A text that does not begin with white space. *)
Definition starts_clean (s : string) : Prop :=
  match s with EmptyString => True | String c _ => Str.is_space c = false end.

(** A text that does not end with white space. *)
Fixpoint ends_clean (s : string) : Prop :=
  match s with
  | EmptyString => True
  | String c s' =>
      match s' with
      | EmptyString => Str.is_space c = false
      | String _ _ => ends_clean s'
      end
  end.


(** What the page script returns for the table it picks. *)
Definition picked (t : option Page.TableNode) : TableData :=
  match t with
  | Some t => {| rows := Page.extractRows t; html := Some (Page.outerHTML t) |}
  | None => {| rows := []; html := None |}
  end.

(** A label is contained in the text of an element, both normalised. *)
Definition contains (label_ content : string) : bool :=
  Js.includes (Click.norm label_) (Click.norm content).

(** [best] is the first element of [candidates] with the highest score. *)
Definition first_maximum (candidates : list AddressInput.Element)
    (best : AddressInput.Element) : Prop :=
  exists pre post,
    candidates = pre ++ best :: post
    /\ (forall x, In x pre -> AddressInput.scoreOf x < AddressInput.scoreOf best)
    /\ (forall x, In x post -> AddressInput.scoreOf x <= AddressInput.scoreOf best).

(** What the loop over the candidates has established after [processed]. *)
Definition best_so_far (acc : option (AddressInput.Element * Z))
    (processed : list AddressInput.Element) : Prop :=
  match acc with
  | None => processed = []
  | Some (best, bestScore) =>
      bestScore = AddressInput.scoreOf best /\ first_maximum processed best
  end.

(** The characters of the URL-safe base64 alphabet. *)
Definition url_safe (c : ascii) : bool :=
  RegExp.digit c || RegExp.alpha c || Ascii.eqb c "-" || Ascii.eqb c "_".

(** The value of the last parameter whose name ends in the segment [key]. *)
Definition last_value (key : string) (parameters : list Mail.SsmParameter) : option string :=
  match List.find (fun p => String.eqb (Mail.last_segment (Mail.param_Name p)) key)
                  (rev parameters) with
  | Some p => Mail.param_Value p
  | None => None
  end.

(** All four credentials are there and none is empty. *)
Definition all_present (c : Mail.Credentials) : bool :=
  opt_truthy (Mail.clientId c) && opt_truthy (Mail.clientSecret c)
  && opt_truthy (Mail.refreshToken c) && opt_truthy (Mail.sender c).

(** A character of the base64 alphabet. *)
Definition in_alphabet (c : ascii) : bool :=
  existsb (Ascii.eqb c) (list_ascii_of_string Mail.alphabet).

Definition chars_ok (s : string) : Prop :=
  Forall (fun c => in_alphabet c = true) (list_ascii_of_string s).

(** The two replacements of [encode], on one character. *)
Definition to_url (c : ascii) : ascii :=
  if Ascii.eqb c "+" then "-"%char else if Ascii.eqb c "/" then "_"%char else c.

Definition url_form (s : string) : string :=
  Str.replace_char "/" "_" (Str.replace_char "+" "-" s).

(** * Properties *)

(** ** The matcher and what a pattern matches *)

Module RegExpFacts.
Import RegExp RegExpSpec.

Lemma star_loop_sound (m : matcher) (r : regex) (k : cont) :
  sound m r ->
  forall n p s x, star_loop m k n p s = Some x ->
    exists p1 s1, Matches (Star r) p s p1 s1 /\ k p1 s1 = Some x.
Proof.
  intros Hm. induction n as [| n IH]; intros p s x H; simpl in H.
  - exists p, s. split; [constructor | assumption].
  - destruct (m p s _) as [rest |] eqn:E.
    + injection H as ->. apply Hm in E. destruct E as (p1 & s1 & M1 & Hk).
      destruct (Nat.ltb (length s1) (length s)) eqn:Hlt; [| discriminate].
      apply Nat.ltb_lt in Hlt. apply IH in Hk. destruct Hk as (p2 & s2 & M2 & Hk).
      exists p2, s2. split; [| assumption]. econstructor; eassumption.
    + exists p, s. split; [constructor | assumption].
Qed.

Lemma rmatch_sound (r : regex) : sound (rmatch r) r.
Proof.
  induction r as [| f | r1 IH1 r2 IH2 | r1 IH1 r2 IH2 | r IH | | |];
    intros p s k x H; simpl in H.
  - exists p, s. split; [constructor | assumption].
  - destruct s as [| c s]; [discriminate |].
    destruct (f c) eqn:E; [| discriminate].
    exists (Some c), s. split; [now constructor | assumption].
  - apply IH1 in H. destruct H as (p1 & s1 & M1 & H).
    apply IH2 in H. destruct H as (p2 & s2 & M2 & H).
    exists p2, s2. split; [econstructor; eassumption | assumption].
  - destruct (rmatch r1 p s k) as [rest |] eqn:E.
    + injection H as ->. apply IH1 in E. destruct E as (p1 & s1 & M1 & Hk).
      exists p1, s1. split; [now apply MAltL | assumption].
    + apply IH2 in H. destruct H as (p1 & s1 & M1 & Hk).
      exists p1, s1. split; [now apply MAltR | assumption].
  - eapply star_loop_sound; eassumption.
  - destruct (xorb (is_word p) (is_word (head s))) eqn:E; [| discriminate].
    exists p, s. split; [now constructor | assumption].
  - destruct p; [discriminate |]. exists None, s. split; [constructor | assumption].
  - destruct s; [| discriminate]. exists p, []. split; [constructor | assumption].
Qed.

Lemma star_loop_complete (m : matcher) (r : regex) :
  complete m r ->
  forall p s p2 s2, Matches (Star r) p s p2 s2 ->
    forall n k, (length s <= n)%nat -> k p2 s2 <> None -> star_loop m k n p s <> None.
Proof.
  intros Hm p s p2 s2 HM. remember (Star r) as sr eqn:Hsr.
  induction HM as [| | | | | r' p s | r' p p1 p2 s s1 s2 HM1 _ Hlt HM2 IH2 | | |];
    try discriminate; injection Hsr as ->; intros n k Hn Hk.
  - destruct n as [| n]; simpl; [assumption |].
    destruct (m p s _); [discriminate | assumption].
  - destruct n as [| n]; [lia |]. simpl.
    destruct (m p s _) as [rest |] eqn:E; [discriminate |].
    exfalso. revert E. apply (Hm p s p1 s1 HM1).
    apply Nat.ltb_lt in Hlt. rewrite Hlt. apply IH2; [reflexivity | | assumption].
    apply Nat.ltb_lt in Hlt. lia.
Qed.

Lemma rmatch_complete (r : regex) : complete (rmatch r) r.
Proof.
  induction r as [| f | r1 IH1 r2 IH2 | r1 IH1 r2 IH2 | r IH | | |];
    intros p s p1 s1 HM k Hk; simpl.
  - inversion HM; subst. assumption.
  - inversion HM; subst. match goal with H : f _ = true |- _ => now rewrite H end.
  - inversion HM; subst. eapply IH1; [eassumption |]. eapply IH2; eassumption.
  - inversion HM; subst.
    + destruct (rmatch r1 p s k) eqn:E; [discriminate |].
      exfalso. revert E. eapply IH1; eassumption.
    + destruct (rmatch r1 p s k); [discriminate |]. eapply IH2; eassumption.
  - eapply star_loop_complete; eauto.
  - inversion HM; subst. match goal with H : xorb _ _ = true |- _ => now rewrite H end.
  - inversion HM; subst. assumption.
  - inversion HM; subst. assumption.
Qed.

Lemma before_nil (prev : option ascii) : before prev [] = prev.
Proof. reflexivity. Qed.

Lemma before_cons (prev : option ascii) (c : ascii) (pre : list ascii) :
  before prev (c :: pre) = before (Some c) pre.
Proof.
  unfold before. destruct pre as [| d pre]; [reflexivity |].
  rewrite last_cons. now destruct (last (d :: pre)).
Qed.

Lemma search_eq (r : regex) (prev : option ascii) (s : list ascii) :
  search r prev s
  = match rmatch r prev s (fun _ rest => Some rest) with
    | Some rest => Some (firstn (length s - length rest) s)
    | None =>
        match s with
        | [] => None
        | c :: s' => search r (Some c) s'
        end
    end.
Proof. destruct s; reflexivity. Qed.

(** [search] finds a match exactly when the pattern matches somewhere. *)
Lemma search_occurs (r : regex) (prev : option ascii) (s : list ascii) :
  search r prev s <> None <-> occurs r prev s.
Proof.
  split.
  - revert prev. induction s as [| c s IH]; intros prev H; rewrite search_eq in H.
    + destruct (rmatch r prev [] _) as [rest |] eqn:E; [| congruence].
      apply rmatch_sound in E. destruct E as (p1 & s1 & HM & _).
      exists [], [], p1, s1. now split.
    + destruct (rmatch r prev (c :: s) _) as [rest |] eqn:E.
      * apply rmatch_sound in E. destruct E as (p1 & s1 & HM & _).
        exists [], (c :: s), p1, s1. now split.
      * apply IH in H. destruct H as (pre & rest & p1 & s1 & -> & HM).
        exists (c :: pre), rest, p1, s1. split; [reflexivity |].
        now rewrite before_cons.
  - intros (pre & rest & p1 & s1 & -> & HM). revert prev HM.
    induction pre as [| c pre IH]; intros prev HM; rewrite search_eq.
    + simpl. destruct (rmatch r prev rest _) eqn:E; [discriminate |].
      exfalso. revert E. apply (rmatch_complete r _ _ _ _ HM). discriminate.
    + simpl. destruct (rmatch r prev (c :: pre ++ rest) _); [discriminate |].
      apply IH. now rewrite <- (before_cons prev).
Qed.

Lemma test_occurs (r : regex) (s : string) :
  test r s = true <-> occurs r None (list_ascii_of_string s).
Proof.
  rewrite <- search_occurs. unfold test, exec.
  destruct (search r None (list_ascii_of_string s)); split; congruence.
Qed.

(** *** Runs of a character class *)

Lemma star_cls_inv (f : ascii -> bool) (p p1 : option ascii) (s s1 : list ascii) :
  Matches (Star (Cls f)) p s p1 s1 ->
  exists a, Forall (fun c => f c = true) a /\ s = a ++ s1.
Proof.
  intros HM. remember (Star (Cls f)) as sr eqn:Hsr.
  induction HM as [| | | | | r p s | r p p1 p2 s s1 s2 HM1 _ Hlt HM2 IH2 | | |];
    try discriminate; injection Hsr as ->.
  - exists []. split; [constructor | reflexivity].
  - destruct (IH2 eq_refl) as (a & Ha & ->).
    inversion HM1; subst. exists (c :: a). split; [now constructor | reflexivity].
Qed.

Lemma star_cls_intro (f : ascii -> bool) (a s1 : list ascii) (p : option ascii) :
  Forall (fun c => f c = true) a ->
  exists p1, Matches (Star (Cls f)) p (a ++ s1) p1 s1.
Proof.
  intros Ha. revert p. induction Ha as [| c a Hc _ IH]; intros p.
  - exists p. constructor.
  - destruct (IH (Some c)) as [p1 HM]. exists p1.
    apply (MStarCons _ p (Some c) p1 ((c :: a) ++ s1) (a ++ s1) s1).
    + now constructor.
    + simpl. lia.
    + assumption.
Qed.

Lemma plus_cls_inv (f : ascii -> bool) (p p1 : option ascii) (s s1 : list ascii) :
  Matches (Plus (Cls f)) p s p1 s1 ->
  exists a, a <> [] /\ Forall (fun c => f c = true) a /\ s = a ++ s1.
Proof.
  intros HM. unfold Plus in HM. inversion HM as [| | r1 r2 q q1 q2 t t1 t2 H1 H2 | | | | | | |]; subst.
  inversion H1; subst. apply star_cls_inv in H2. destruct H2 as (a & Ha & ->).
  exists (c :: a). split; [discriminate | split; [now constructor | reflexivity]].
Qed.

Lemma plus_cls_intro (f : ascii -> bool) (a s1 : list ascii) (p : option ascii) :
  a <> [] -> Forall (fun c => f c = true) a ->
  exists p1, Matches (Plus (Cls f)) p (a ++ s1) p1 s1.
Proof.
  intros Hne Ha. destruct Ha as [| c a Hc Ha]; [contradiction |].
  destruct (star_cls_intro f a s1 (Some c) Ha) as [p1 HM].
  exists p1. unfold Plus. econstructor; [| eassumption]. now constructor.
Qed.

Lemma chr_inv (c : ascii) (p p1 : option ascii) (s s1 : list ascii) :
  Matches (chr c) p s p1 s1 -> s = c :: s1.
Proof.
  intros HM. inversion HM; subst.
  match goal with H : Ascii.eqb _ _ = true |- _ => apply Ascii.eqb_eq in H; now subst end.
Qed.

Lemma chr_intro (c : ascii) (p : option ascii) (s1 : list ascii) :
  Matches (chr c) p (c :: s1) (Some c) s1.
Proof. constructor. apply Ascii.eqb_refl. Qed.

(** *** The e-mail pattern *)

Lemma email_like_matches (p : option ascii) (s s1 : list ascii) :
  (exists p1, Matches Patterns.email_like p s p1 s1)
  <-> exists a b c,
        something a /\ something b /\ something c
        /\ s = a ++ "@"%char :: b ++ "."%char :: c ++ s1.
Proof.
  unfold Patterns.email_like, something. split.
  - intros [p1 HM].
    inversion HM as [| | ? ? ? q1 ? ? t1 ? Ha HM1 | | | | | | |]; subst.
    inversion HM1 as [| | ? ? ? q2 ? ? t2 ? Hat HM2 | | | | | | |]; subst.
    inversion HM2 as [| | ? ? ? q3 ? ? t3 ? Hb HM3 | | | | | | |]; subst.
    inversion HM3 as [| | ? ? ? q4 ? ? t4 ? Hdot Hc | | | | | | |]; subst.
    apply plus_cls_inv in Ha, Hb, Hc. apply chr_inv in Hat, Hdot.
    destruct Ha as (a & Hane & Ha & ->). destruct Hb as (b & Hbne & Hb & ->).
    destruct Hc as (c & Hcne & Hc & ->). subst.
    exists a, b, c. repeat split; assumption.
  - intros (a & b & c & [Hane Ha] & [Hbne Hb] & [Hcne Hc] & ->).
    destruct (plus_cls_intro dot a ("@"%char :: b ++ "."%char :: c ++ s1) p Hane Ha)
      as [q1 H1].
    destruct (plus_cls_intro dot b ("."%char :: c ++ s1) (Some "@"%char) Hbne Hb)
      as [q3 H3].
    destruct (plus_cls_intro dot c s1 (Some "."%char) Hcne Hc) as [q5 H5].
    exists q5.
    eapply MSeq; [exact H1 |]. eapply MSeq; [apply chr_intro |].
    eapply MSeq; [exact H3 |]. eapply MSeq; [apply chr_intro | exact H5].
Qed.

(** [emailLike] holds exactly of the texts that contain
    something@something.something. *)
Lemma emailLike_shape (v : JsValue) :
  emailLike v = true <-> email_shaped (Json.or_empty v).
Proof.
  unfold emailLike. generalize (Json.or_empty v). clear v. intros v.
  rewrite test_occurs. unfold occurs, email_shaped. split.
  - intros (pre & rest & p1 & s1 & Hv & HM).
    destruct (proj1 (email_like_matches _ rest s1) (ex_intro _ p1 HM))
      as (a & b & c & Ha & Hb & Hc & ->).
    exists pre, a, b, c, s1. now rewrite Hv.
  - intros (pre & a & b & c & post & Hv & Ha & Hb & Hc).
    destruct (proj2 (email_like_matches (before None pre)
                       (a ++ "@"%char :: b ++ "."%char :: c ++ post) post))
      as [p1 HM]; [exists a, b, c; auto |].
    exists pre, (a ++ "@"%char :: b ++ "."%char :: c ++ post), p1, post. now split.
Qed.

(** *** The text a match returns *)










(** *** Patterns as shapes of texts *)































(** *** The first match *)



End RegExpFacts.

(** ** Insertion-ordered maps and sets *)

Module JsMapFacts.
Import JsMap.

Lemma includes_In (x : string) (l : list string) :
  includes x l = true <-> In x l.
Proof.
  unfold includes. rewrite existsb_exists. split.
  - intros [y [Hy Heq]]. apply String.eqb_eq in Heq. now subst.
  - intros Hx. exists x. split; [assumption | apply String.eqb_refl].
Qed.

Lemma includes_false (x : string) (l : list string) :
  includes x l = false <-> ~ In x l.
Proof.
  rewrite <- includes_In. destruct (includes x l); split; congruence.
Qed.

Lemma add_In (acc : list string) (x y : string) :
  In y (add acc x) <-> In y acc \/ y = x.
Proof.
  unfold add. destruct (includes x acc) eqn:E.
  - apply includes_In in E. split; [tauto | intros [H | ->]; assumption].
  - rewrite in_app_iff. simpl. intuition (subst; auto).
Qed.

Lemma add_NoDup (acc : list string) (x : string) :
  NoDup acc -> NoDup (add acc x).
Proof.
  intros Hnd. unfold add. destruct (includes x acc) eqn:E; [assumption |].
  apply includes_false in E.
  apply NoDup_app. split; [assumption | split].
  - intros y Hy Hy'. apply list_elem_of_In in Hy, Hy'.
    destruct Hy' as [<- | []]. contradiction.
  - apply NoDup_singleton.
Qed.

Lemma fold_add_In (l acc : list string) (y : string) :
  In y (fold_left add l acc) <-> In y acc \/ In y l.
Proof.
  revert acc. induction l as [| x l IH]; intros acc; simpl.
  - tauto.
  - rewrite IH, add_In. intuition (subst; auto).
Qed.

Lemma fold_add_NoDup (l acc : list string) :
  NoDup acc -> NoDup (fold_left add l acc).
Proof.
  revert acc. induction l as [| x l IH]; intros acc Hnd; simpl.
  - assumption.
  - apply IH, add_NoDup, Hnd.
Qed.

Lemma uniq_In (l : list string) (y : string) : In y (uniq l) <-> In y l.
Proof. unfold uniq. rewrite fold_add_In. simpl. tauto. Qed.

Lemma uniq_NoDup (l : list string) : NoDup (uniq l).
Proof. apply fold_add_NoDup. constructor. Qed.

Lemma uniq_app (l r : list string) : uniq (l ++ r) = fold_left add r (uniq l).
Proof. unfold uniq. apply fold_left_app. Qed.

Lemma uniq_snoc (l : list string) (x : string) : uniq (l ++ [x]) = add (uniq l) x.
Proof. now rewrite uniq_app. Qed.


(** A list without duplicates is its own [uniq], prefix by prefix. *)
Lemma fold_add_fresh (l acc : list string) :
  NoDup (acc ++ l) -> fold_left add l acc = acc ++ l.
Proof.
  revert acc. induction l as [| x l IH]; intros acc Hnd; simpl.
  - now rewrite app_nil_r.
  - assert (Hx : ~ In x acc).
    { intros Hin. apply NoDup_app in Hnd. destruct Hnd as (_ & Hdisj & _).
      apply (Hdisj x); [now apply list_elem_of_In | left]. }
    unfold add at 2. apply includes_false in Hx. rewrite Hx.
    rewrite IH; rewrite <- app_assoc; simpl; [reflexivity | assumption].
Qed.

Lemma uniq_fixed (l : list string) : NoDup l -> uniq l = l.
Proof. intros H. unfold uniq. now rewrite fold_add_fresh. Qed.

Lemma uniq_uniq_app (l r : list string) : uniq (uniq l ++ r) = uniq (l ++ r).
Proof.
  rewrite !uniq_app. f_equal. apply uniq_fixed, uniq_NoDup.
Qed.

Lemma get_set_eq (k : string) (v : list string) (m : t) :
  get k (set k v m) = Some v.
Proof.
  induction m as [| [k' v'] m IH]; simpl.
  - now rewrite String.eqb_refl.
  - destruct (String.eqb k k') eqn:E; simpl; rewrite E; [reflexivity | exact IH].
Qed.

Lemma get_set_ne (k k' : string) (v : list string) (m : t) :
  k <> k' -> get k' (set k v m) = get k' m.
Proof.
  intros Hne. induction m as [| [k0 v0] m IH]; simpl.
  - apply String.eqb_neq in Hne. rewrite String.eqb_sym in Hne. now rewrite Hne.
  - destruct (String.eqb k k0) eqn:E; simpl.
    + apply String.eqb_eq in E. subst k0.
      apply String.eqb_neq in Hne. rewrite String.eqb_sym in Hne. now rewrite Hne.
    + now rewrite IH.
Qed.

Lemma get_None (k : string) (m : t) : get k m = None <-> ~ In k (keys m).
Proof.
  induction m as [| [k' v'] m IH]; simpl.
  - tauto.
  - destruct (String.eqb k k') eqn:E.
    + apply String.eqb_eq in E. subst. split; [discriminate | intros H; exfalso; auto].
    + apply String.eqb_neq in E. rewrite IH. split.
      * intros H [H' | H']; [now subst | auto].
      * intros H H'. apply H. now right.
Qed.

Lemma keys_set (k : string) (v : list string) (m : t) :
  keys (set k v m) = match get k m with Some _ => keys m | None => keys m ++ [k] end.
Proof.
  unfold keys. induction m as [| [k' v'] m IH]; simpl.
  - reflexivity.
  - destruct (String.eqb k k') eqn:E; simpl.
    + reflexivity.
    + rewrite IH. now destruct (get k m).
Qed.

Lemma set_NoDup (k : string) (v : list string) (m : t) :
  NoDup (keys m) -> NoDup (keys (set k v m)).
Proof.
  intros Hnd. rewrite keys_set. destruct (get k m) eqn:E; [assumption |].
  apply get_None in E.
  apply NoDup_app. split; [assumption | split].
  - intros y Hy Hy'. apply list_elem_of_In in Hy, Hy'.
    destruct Hy' as [<- | []]. contradiction.
  - apply NoDup_singleton.
Qed.

End JsMapFacts.

(** ** Removing duplicates keeps first occurrences

    [first_seen] is the usual recursive reading of "duplicates removed, order
    of first appearance preserved"; [JsMap.uniq], the insertion order of a
    [Set], computes it. *)

Module FirstSeen.
Import JsMap JsMapFacts.

Lemma filter_filter_bool {A : Type} (f g : A -> bool) (l : list A) :
  List.filter f (List.filter g l) = List.filter (fun x => g x && f x) l.
Proof.
  induction l as [| x l IH]; simpl; [reflexivity |].
  destruct (g x); simpl; [destruct (f x) |]; now rewrite IH.
Qed.

Lemma includes_snoc (y x : string) (acc : list string) :
  includes y (acc ++ [x]) = includes y acc || String.eqb y x.
Proof.
  unfold includes. rewrite existsb_app. simpl. now rewrite orb_false_r.
Qed.

Lemma fold_add_first_seen (l acc : list string) :
  fold_left add l acc
  = acc ++ List.filter (fun y => negb (includes y acc)) (first_seen l).
Proof.
  revert acc. induction l as [| x l IH]; intros acc; simpl.
  - now rewrite app_nil_r.
  - rewrite IH. unfold add. destruct (includes x acc) eqn:E; simpl.
    + f_equal. rewrite filter_filter_bool. apply List.filter_ext. intros y.
      destruct (String.eqb x y) eqn:Exy; simpl; [| reflexivity].
      apply String.eqb_eq in Exy. subst y. now rewrite E.
    + rewrite <- app_assoc. simpl. do 2 f_equal.
      rewrite filter_filter_bool. apply List.filter_ext. intros y.
      rewrite includes_snoc, (String.eqb_sym y x).
      destruct (String.eqb x y), (includes y acc); reflexivity.
Qed.

Lemma uniq_first_seen (l : list string) : uniq l = first_seen l.
Proof.
  unfold uniq. rewrite fold_add_first_seen. simpl.
  induction (first_seen l) as [| y l' IH]; simpl; [reflexivity | now rewrite IH].
Qed.

End FirstSeen.

(** ** Grouping by key

    Both loops of [extractCollections] add texts to the list kept under a date
    key.  [group] is that loop on (key, text) pairs. *)

Module GroupingFacts.
Import JsMap JsMapFacts Grouping.

Lemma filed_snoc (l : list string) (x : string) :
  filed (l ++ [x]) = Some (add (default [] (filed l)) x).
Proof.
  destruct l as [| y l]; [reflexivity |].
  change (filed ((y :: l) ++ [x])) with (Some (uniq ((y :: l) ++ [x]))).
  now rewrite uniq_snoc.
Qed.

Lemma texts_for_snoc (d : string) (ps : list (string * string)) (p : string * string) :
  texts_for d (ps ++ [p])
  = texts_for d ps ++ (if String.eqb (fst p) d then [snd p] else []).
Proof.
  unfold texts_for. rewrite List.filter_app, map_app. simpl.
  now destruct (String.eqb (fst p) d).
Qed.

Lemma group_snoc (ps : list (string * string)) (p : string * string) :
  group (ps ++ [p]) = group_add (fst p) (snd p) (group ps).
Proof. unfold group. now rewrite fold_left_app. Qed.

Lemma group_spec (ps : list (string * string)) :
  NoDup (keys (group ps))
  /\ forall d, get d (group ps) = filed (texts_for d ps).
Proof.
  induction ps as [| p ps [IHnd IHget]] using rev_ind.
  - split; [constructor | reflexivity].
  - rewrite group_snoc. unfold group_add. split.
    + now apply set_NoDup.
    + intros d. rewrite texts_for_snoc.
      destruct (String.eqb (fst p) d) eqn:E.
      * apply String.eqb_eq in E. subst d.
        now rewrite get_set_eq, filed_snoc, IHget.
      * apply String.eqb_neq in E.
        now rewrite get_set_ne, app_nil_r, IHget.
Qed.


Lemma set_same (k : string) (v : list string) (m : t) :
  get k m = Some v -> set k v m = m.
Proof.
  induction m as [| [k' v'] m IH]; simpl; [discriminate |].
  destruct (String.eqb k k') eqn:E.
  - now intros [= ->].
  - intros H. now rewrite IH.
Qed.

(** The only entry of a map with distinct keys that carries the key [d]. *)
Lemma entries_on_key (m : t) (d : string) (v : list string) :
  NoDup (keys m) -> get d m = Some v ->
  List.filter (fun kv => String.eqb (fst kv) d) m = [(d, v)].
Proof.
  induction m as [| [k' v'] m IH]; simpl; [discriminate |].
  intros Hnd Hget. apply NoDup_cons in Hnd. destruct Hnd as [Hk' Hnd].
  rewrite String.eqb_sym in Hget.
  destruct (String.eqb k' d) eqn:E.
  - apply String.eqb_eq in E. subst k'. injection Hget as ->. f_equal.
    assert (Hnone : get d m = None).
    { apply get_None. intros Hin. apply Hk'. now apply list_elem_of_In. }
    clear IH Hk' Hnd. induction m as [| [k0 v0] m IH]; simpl in *; [reflexivity |].
    rewrite String.eqb_sym.
    destruct (String.eqb d k0); [discriminate | now apply IH].
  - now apply IH.
Qed.


End GroupingFacts.

(** ** ScheduleExtractor *)

Section ExtractorFacts.

Context {luxon : LuxonApi}.
Variable TZ : option string.
Import JsMap JsMapFacts Grouping GroupingFacts.

Lemma merge_row_group (m : JsMap.t) (r : Row) :
  merge_row TZ m r
  = match row_pair TZ r with
    | Some p => group_add (fst p) (snd p) m
    | None => m
    end.
Proof.
  unfold merge_row, row_pair, parsed_date.
  destruct (parseDateToLocal TZ (dateText r)) as [dt |]; [| reflexivity].
  destruct (Str.truthy (binsText r)); simpl; [| reflexivity].
  unfold group_add, add.
  destruct (includes (binsText r) (default [] (get (toISODate dt) m))) eqn:E; simpl;
    [| reflexivity].
  symmetry. apply set_same.
  destruct (get (toISODate dt) m); [reflexivity | discriminate].
Qed.

Lemma byDateFromTables_group (rs : list Row) :
  byDateFromTables TZ rs = group (omap (row_pair TZ) rs).
Proof.
  unfold byDateFromTables, group. generalize (@nil (string * list string)).
  induction rs as [| r rs IH]; intros m; simpl; [reflexivity |].
  rewrite merge_row_group, IH. now destruct (row_pair TZ r).
Qed.

Lemma in_texts_on (d : string) (rs : list Row) (r : Row) :
  In r rs -> row_pair TZ r = Some (d, binsText r) -> In (binsText r) (texts_on TZ d rs).
Proof.
  intros Hin Hp. unfold texts_on, texts_for.
  change (binsText r) with (snd (d, binsText r)). apply in_map.
  apply filter_In. split; [| apply String.eqb_refl].
  apply list_elem_of_In, list_elem_of_omap. exists r.
  split; [now apply list_elem_of_In | assumption].
Qed.

Lemma entries_on_entries (m : JsMap.t) (d : string) (v : list string) :
  NoDup (keys m) -> get d m = Some v ->
  entries_on (entries m) d = [ {| localDate := d; bins := v |} ].
Proof.
  intros Hnd Hget. unfold entries_on, entries.
  rewrite filter_map_swap. simpl.
  now rewrite (entries_on_key m d v Hnd Hget).
Qed.

Lemma group_nonempty (ps : list (string * string)) (d : string) (v : list string) :
  get d (group ps) = Some v -> Nat.ltb 0 (length (group ps)) = true.
Proof. destruct (group ps); [discriminate | reflexivity]. Qed.


(** *** The text fallback *)






(** *** The three-line window *)








End ExtractorFacts.

(** ** DateNormalizer *)

Section DateNormalizerFacts.

Context {luxon : LuxonApi}.


End DateNormalizerFacts.

(** ** ScheduleExtractor: the two paths *)

Section ExtractorTheorems.

Context {luxon : LuxonApi}.
Import JsMap JsMapFacts Grouping GroupingFacts.

Lemma table_path_taken (TZ : option string) (frame : FrameData) :
  byDateFromTables TZ (rows (tableData frame)) <> [] ->
  collections (extractCollections TZ frame)
  = entries (byDateFromTables TZ (rows (tableData frame))).
Proof.
  intros Hne. unfold extractCollections.
  destruct (byDateFromTables TZ (rows (tableData frame))); [contradiction | reflexivity].
Qed.


(** C6.  In the table path, when some row's date text parses to the
    calendar date [d] (the row having a bin text), the output holds exactly
    one entry for [d], and its bin list is the bin texts of all the rows
    whose date text parses to [d], in row order, each kept at its first
    occurrence only. *)
Theorem C6_rows_of_one_date_merge (TZ : option string) (frame : FrameData)
    (d : string) (r : Row) :
  In r (rows (tableData frame)) ->
  parsed_date TZ (dateText r) = Some d ->
  Str.truthy (binsText r) = true ->
  entries_on (collections (extractCollections TZ frame)) d
  = [ {| localDate := d;
         bins := first_seen (texts_on TZ d (rows (tableData frame))) |} ]
  /\ In (binsText r) (first_seen (texts_on TZ d (rows (tableData frame)))).
Proof.
  intros Hin Hparse Htruthy.
  assert (Hpair : row_pair TZ r = Some (d, binsText r)).
  { unfold row_pair. now rewrite Hparse, Htruthy. }
  pose proof (in_texts_on TZ d _ r Hin Hpair) as Htext.
  rewrite <- FirstSeen.uniq_first_seen.
  destruct (group_spec (omap (row_pair TZ) (rows (tableData frame)))) as [Hnd Hget].
  specialize (Hget d). fold (texts_on TZ d (rows (tableData frame))) in Hget.
  rewrite <- byDateFromTables_group in Hget, Hnd.
  assert (Hsome : get d (byDateFromTables TZ (rows (tableData frame)))
                  = Some (uniq (texts_on TZ d (rows (tableData frame))))).
  { rewrite Hget. destruct (texts_on TZ d (rows (tableData frame))); [destruct Htext | reflexivity]. }
  split.
  - rewrite table_path_taken.
    + now apply entries_on_entries.
    + intros Hnil. rewrite Hnil in Hsome. discriminate.
  - now apply uniq_In.
Qed.


End ExtractorTheorems.

(** ** NotificationGate: the announce date and its bins *)

Section GateFacts.

Context {luxon : LuxonApi}.

Lemma insert_by_dt_In (x y : CollectionEntry) (l : list CollectionEntry) :
  In y (insert_by_dt x l) <-> y = x \/ In y l.
Proof.
  induction l as [| z l IH]; simpl.
  - intuition.
  - destruct (valueOf (entry_dt x) <=? valueOf (entry_dt z)); simpl.
    + intuition.
    + rewrite IH. intuition.
Qed.

Lemma sort_by_dt_In (y : CollectionEntry) (l : list CollectionEntry) :
  In y (sort_by_dt l) <-> In y l.
Proof.
  induction l as [| x l IH]; simpl; [tauto |].
  rewrite insert_by_dt_In, IH. intuition.
Qed.

Lemma insert_by_dt_ascending (x : CollectionEntry) (l : list CollectionEntry) :
  ascending l -> ascending (insert_by_dt x l).
Proof.
  induction l as [| z l IH]; simpl.
  - intros _. split; [intros y [] | exact I].
  - intros [Hz Hl].
    destruct (valueOf (entry_dt x) <=? valueOf (entry_dt z)) eqn:E; simpl.
    + apply Z.leb_le in E. split; [| now split].
      intros y [<- | Hy]; [assumption |]. specialize (Hz y Hy). lia.
    + apply Z.leb_gt in E. split; [| now apply IH].
      intros y Hy. apply insert_by_dt_In in Hy. destruct Hy as [-> | Hy]; [lia | auto].
Qed.

Lemma sort_by_dt_ascending (l : list CollectionEntry) : ascending (sort_by_dt l).
Proof.
  induction l as [| x l IH]; simpl; [exact I | now apply insert_by_dt_ascending].
Qed.

(** The head of [upcoming] is an entry of the schedule on or after the start
    of today, and no such entry is earlier. *)
Lemma upcoming_head (now : DateTime) (cs : list CollectionEntry)
    (first : CollectionEntry) (rest : list CollectionEntry) :
  upcoming now cs = first :: rest ->
  In first cs /\ is_upcoming now first = true
  /\ forall c, In c cs -> is_upcoming now c = true ->
       valueOf (entry_dt first) <= valueOf (entry_dt c).
Proof.
  intros Hup.
  assert (Hmem : forall c, In c (first :: rest) <-> In c cs /\ is_upcoming now c = true).
  { intros c. rewrite <- Hup. unfold upcoming. now rewrite sort_by_dt_In, filter_In. }
  pose proof (sort_by_dt_ascending (List.filter (is_upcoming now) cs)) as Hasc.
  fold (upcoming now cs) in Hasc. rewrite Hup in Hasc. destruct Hasc as [Hmin _].
  destruct (proj1 (Hmem first) (or_introl eq_refl)) as [Hin Hok].
  repeat split; try assumption.
  intros c Hc Hcu. destruct (proj2 (Hmem c) (conj Hc Hcu)) as [<- | Hr]; [lia | auto].
Qed.

Lemma upcoming_nil (now : DateTime) (cs : list CollectionEntry) :
  upcoming now cs = [] <-> forall c, In c cs -> is_upcoming now c = false.
Proof.
  split.
  - intros Hnil c Hc. destruct (is_upcoming now c) eqn:E; [| reflexivity].
    assert (Hin : In c (upcoming now cs)).
    { unfold upcoming. apply sort_by_dt_In, filter_In. now split. }
    rewrite Hnil in Hin. destruct Hin.
  - intros Hall. destruct (upcoming now cs) as [| first rest] eqn:E; [reflexivity |].
    destruct (upcoming_head now cs first rest E) as (Hin & Hok & _).
    rewrite (Hall first Hin) in Hok. discriminate.
Qed.

Lemma entries_on_nil (cs : list CollectionEntry) (d : string) :
  hasTomorrowOf cs d = false <-> entries_on cs d = [].
Proof.
  unfold hasTomorrowOf, entries_on.
  induction cs as [| c cs IH]; simpl; [tauto |].
  destruct (String.eqb (localDate c) d); simpl; [split; discriminate | exact IH].
Qed.

(** C4, as the code has it.  When no entry of the schedule is on
    [announceDate], nothing is gathered: [binsForAnnounce] and its
    deduplication [uniqueBins] are empty and the bins text is the empty
    string; the bins of the other dates are not used. *)
Theorem C4_no_entry_no_bins (cs : list CollectionEntry) (announceDate : string) :
  entries_on cs announceDate = [] ->
  binsForAnnounce cs announceDate = []
  /\ uniqueBins cs announceDate = []
  /\ binsTextOf cs announceDate = "".
Proof.
  intros Hnil.
  unfold binsTextOf, announceDetails, uniqueBins, binsForAnnounce.
  rewrite Hnil. repeat split.
Qed.

Lemma append_empty (a b : string) : a +:+ b = EmptyString -> a = EmptyString /\ b = EmptyString.
Proof. destruct a; simpl; [auto | discriminate]. Qed.

Lemma join_empty (sep : string) (l : list string) :
  Str.truthy sep = true -> Str.join sep l = EmptyString ->
  l = [] \/ l = [EmptyString].
Proof.
  intros Hsep Hjoin. destruct l as [| x [| y l]]; simpl in Hjoin.
  - now left.
  - right. now subst.
  - apply append_empty in Hjoin. destruct Hjoin as [_ Hjoin].
    apply append_empty in Hjoin. destruct Hjoin as [-> _]. discriminate.
Qed.

(** The second operand of [announceDetails || uniqueBins.join(' + ')] never
    shows: when the details are empty so is the joined list. *)
Lemma binsText_is_announceDetails (cs : list CollectionEntry) (announceDate : string) :
  binsTextOf cs announceDate = announceDetails cs announceDate.
Proof.
  unfold binsTextOf, Str.or_else.
  destruct (Str.truthy (announceDetails cs announceDate)) eqn:E; [reflexivity |].
  assert (Hd : announceDetails cs announceDate = EmptyString)
    by (destruct (announceDetails cs announceDate); [reflexivity | discriminate]).
  rewrite Hd. unfold announceDetails in Hd. unfold uniqueBins, binsForAnnounce.
  apply join_empty in Hd; [| reflexivity].
  destruct (entries_on cs announceDate) as [| e [| e' l]]; simpl in *.
  - reflexivity.
  - destruct Hd as [Hd | Hd]; [discriminate |]. injection Hd as Hd.
    apply join_empty in Hd; [| reflexivity]. rewrite app_nil_r.
    destruct Hd as [-> | ->]; reflexivity.
  - destruct Hd as [Hd | Hd]; discriminate.
Qed.

(** In every case the deduplicated list is that of the entries on
    [announceDate] alone. *)
Lemma uniqueBins_first_seen (cs : list CollectionEntry) (announceDate : string) :
  uniqueBins cs announceDate = first_seen (flat_map bins (entries_on cs announceDate)).
Proof. apply FirstSeen.uniq_first_seen. Qed.

End GateFacts.

(** ** The run, step by step *)

Section RunFacts.

Context {luxon : LuxonApi} {host : HostApi}.
Variable env : Env.

Lemma log_log (a b : list Effect) (w : World) : log b (log a w) = log (a ++ b) w.
Proof. unfold log. simpl. now rewrite app_assoc. Qed.

Lemma send_loop_run (i j : nat) (toList : list JsValue) (m : Message) (w : World) :
  send_loop env i j toList m w = (Returned tt, log (send_effects env i j toList m) w).
Proof.
  revert j w. induction toList as [| to rest IH]; intros j w; simpl.
  - unfold ret, log. rewrite app_nil_r. now destruct w.
  - unfold bind, try_catch, sendEmail, send_effect.
    destruct (sendEmail_error env i j (Json.to_string to)); simpl;
      unfold bind, emit, throw, ret; simpl; rewrite IH; unfold log; simpl;
      now rewrite <- app_assoc.
Qed.

Lemma wasNotified_guarded (i : nat) (key date : string) (w : World) :
  try_catch (wasNotifiedForDate env i key date) (fun _ => ret false) w
  = (Returned (notified_flag env i key date w), log [FxGetItem key] w).
Proof.
  unfold try_catch, wasNotifiedForDate, notified_flag, last_notified, bind, emit.
  destruct (getItem_error env i); reflexivity.
Qed.

Lemma markNotified_guarded (i : nat) (key date : string) (result : ScrapeResult)
    (w : World) :
  try_catch (markNotified env i key date result) (fun _ => ret tt) w
  = (Returned tt, after_mark env i key date result w).
Proof.
  unfold try_catch, markNotified, after_mark, bind, emit.
  destruct (updateItem_error env i); reflexivity.
Qed.

Lemma send_step_run (i : nat) (toList : list JsValue) (m : Message) (w : World) :
  (if Nat.eqb (length toList) 0 then ret tt else send_loop env i 0 toList m) w
  = (Returned tt, log (send_effects env i 0 toList m) w).
Proof.
  destruct toList as [| to rest].
  - simpl. unfold ret, log. simpl. rewrite app_nil_r. now destruct w.
  - apply send_loop_run.
Qed.

Lemma compose_message_run (config : Config) (l tomorrow announceDate : string)
    (result : ScrapeResult) (w : World) :
  compose_message env config l tomorrow announceDate result w
  = match suffix_text env config with
    | inr suffix =>
        (Returned (compose l tomorrow announceDate suffix result (dadJoke_value env)), w)
    | inl e => (Thrown e, w)
    end.
Proof.
  unfold compose_message, suffix_text.
  destruct (messageSuffixOf env config); reflexivity.
Qed.

(** The loop body, for a scraped address: what it throws and the world it
    leaves. *)
Lemma decide_and_notify_run (config : Config) (now : DateTime) (tomorrow : string)
    (forceNotify : bool) (i : nat) (label_ : JsValue) (recipients_ : list JsValue)
    (result : ScrapeResult) (w : World) :
  decide_and_notify env config now tomorrow forceNotify i label_ recipients_ result w
  = (outcome_of (decide_fault env config tomorrow forceNotify i label_ result w),
     after_decide env config now tomorrow forceNotify i label_ recipients_ result w).
Proof.
  unfold decide_and_notify, decide_fault, after_decide.
  destruct (negb forceNotify && negb (hasTomorrowOf (collections result) tomorrow));
    [reflexivity |].
  unfold bind at 1.
  destruct label_ as [| | b | n | l | items | fields]; try reflexivity.
  unfold hash_label, ret at 1. cbv beta iota.
  unfold bind at 1.
  destruct forceNotify; simpl.
  - unfold bind at 1. rewrite compose_message_run.
    destruct (suffix_text env config) as [e | suffix]; [reflexivity |].
    unfold bind. fold (valid_recipients recipients_).
    fold (message_for env now tomorrow true l suffix result).
    now rewrite send_step_run.
  - rewrite wasNotified_guarded.
    destruct (notified_flag env i (sha256 l) tomorrow w); [reflexivity |].
    unfold bind at 1. rewrite compose_message_run.
    destruct (suffix_text env config) as [e | suffix]; [reflexivity |].
    unfold bind. fold (valid_recipients recipients_).
    fold (message_for env now tomorrow false l suffix result).
    rewrite send_step_run.
    destruct (String.eqb (announceDateOf false now tomorrow (collections result)) tomorrow).
    + rewrite markNotified_guarded. reflexivity.
    + reflexivity.
Qed.


(** The first two statements of the loop body. *)
Lemma read_address_run {A : Type} (address : JsValue) (k : JsValue -> list JsValue -> M A)
    (w : World) :
  (let* fields := destructure address in
   let* recipients_ := join_recipients (recipients fields) in
   k (label fields) recipients_) w
  = match readable address with
    | Some (label_, recipients_) => k label_ recipients_ w
    | None => (Thrown (unreadable_error address), w)
    end.
Proof.
  unfold readable, destructure, join_recipients, bind.
  destruct address; try reflexivity;
    match goal with
    | |- context [Json.get ?a "recipients"] => destruct (Json.get a "recipients")
    end; reflexivity.
Qed.

Lemma process_address_run (config : Config) (now : DateTime) (tomorrow : string)
    (forceNotify : bool) (i : nat) (address : JsValue) (w : World) :
  process_address env config now tomorrow forceNotify i address w
  = (outcome_of (turn_fault env config tomorrow forceNotify i address w),
     after_address env config now tomorrow forceNotify i address w).
Proof.
  unfold process_address.
  rewrite (read_address_run address
             (fun label_ recipients_ =>
                let* scraped :=
                  try_catch (let* r := scrapeNextCollections env i label_ in ret (Some r))
                            (fun _ => ret None) in
                match scraped with
                | None => ret tt
                | Some result =>
                    decide_and_notify env config now tomorrow forceNotify i label_
                                      recipients_ result
                end)).
  unfold turn_fault, after_address.
  destruct (readable address) as [[label_ recipients_] |]; [| reflexivity].
  unfold scrapeNextCollections. unfold bind at 1. unfold try_catch, bind, emit.
  destruct (scrape_frame env i label_); simpl.
  - reflexivity.
  - apply decide_and_notify_run.
Qed.

(** The address loop stops at the first turn that throws. *)
Lemma address_loop_run (config : Config) (now : DateTime) (tomorrow : string)
    (forceNotify : bool) (i : nat) (l : list JsValue) (w : World) :
  address_loop env config now tomorrow forceNotify i l w
  = (outcome_of (loop_fault env config now tomorrow forceNotify i l w),
     after_loop env config now tomorrow forceNotify i l w).
Proof.
  revert i w. induction l as [| address rest IH]; intros i w; simpl.
  - reflexivity.
  - unfold bind. rewrite process_address_run.
    destruct (turn_fault env config tomorrow forceNotify i address w); simpl.
    + reflexivity.
    + apply IH.
Qed.

End RunFacts.

(** ** The outcome of a run *)

Section DailyFacts.

Context {luxon : LuxonApi} {host : HostApi}.

Lemma daily_run (env : Env) (event : option Event) (w : World) :
  daily env event w
  = match loaded_config env with
    | inl e => (Thrown e, w)
    | inr config =>
        match launch_error env with
        | Some e => (Thrown e, log [FxFetchJoke] w)
        | None =>
            (match close_error env with
             | Some e => Thrown e
             | None =>
                 match run_fault env config event w with
                 | Some e => Thrown e
                 | None => Returned ok_response
                 end
             end,
             after_run env config event w)
        end
    end.
Proof.
  unfold daily, loaded_config, loadConfig, after_run, run_fault, at_launch.
  unfold bind at 1. unfold try_catch.
  destruct (config_file env) as [e | raw]; [reflexivity |].
  destruct (cfg_addresses raw) as [l |]; [| reflexivity].
  unfold ret at 1. cbv beta iota.
  unfold bind at 1. unfold emit at 1. cbv beta iota.
  unfold launchBrowser, bind at 1.
  destruct (launch_error env) as [e |]; [reflexivity |].
  unfold emit at 1. cbv beta iota.
  unfold bind at 1, finally.
  rewrite address_loop_run.
  unfold closeBrowser, bind, emit, now_of, tomorrow_of, log. simpl.
  rewrite <- !app_assoc. simpl.
  destruct (close_error env); [reflexivity |].
  destruct (loop_fault _ _ _ _ _ _ _ _); reflexivity.
Qed.

End DailyFacts.

(** ** NotificationGate and RunOrchestrator *)

Section RunTheorems.

Context {luxon : LuxonApi} {host : HostApi}.

Lemma log_nil (w : World) : log [] w = w.
Proof. unfold log. rewrite app_nil_r. now destruct w. Qed.

Lemma sends_to_send_effects (env : Env) (i j : nat) (toList : list JsValue) (m : Message) :
  sends_to (send_effects env i j toList m) = map Json.to_string toList.
Proof.
  revert j. induction toList as [| to rest IH]; intros j; simpl; [reflexivity |].
  unfold sends_to in *. simpl. now rewrite IH.
Qed.

Lemma sends_to_app (a b : list Effect) : sends_to (a ++ b) = sends_to a ++ sends_to b.
Proof. unfold sends_to. apply omap_app. Qed.

Lemma announce_non_force (now : DateTime) (tomorrow : string) (cs : list CollectionEntry) :
  announceDateOf false now tomorrow cs = tomorrow.
Proof. reflexivity. Qed.

(** The effects of the loop body on a scraped address, after the trace of
    the world it starts from. *)
Lemma after_decide_trace (env : Env) (config : Config) (now : DateTime)
    (tomorrow : string) (forceNotify : bool) (i : nat) (label_ : JsValue)
    (recipients_ : list JsValue) (result : ScrapeResult) (w : World) :
  exists fxs,
    trace (after_decide env config now tomorrow forceNotify i label_ recipients_ result w)
    = trace w ++ fxs
    /\ (sends_to fxs = []
        \/ sends_to fxs = map Json.to_string (valid_recipients recipients_))
    /\ match suffix_text env config with
       | inr _ => True
       | inl _ =>
           sends_to fxs = []
           /\ store (after_decide env config now tomorrow forceNotify i label_
                                  recipients_ result w) = store w
       end.
Proof.
  assert (Hnone : exists fxs,
             trace w = trace w ++ fxs
             /\ (sends_to fxs = []
                 \/ sends_to fxs = map Json.to_string (valid_recipients recipients_))
             /\ match suffix_text env config with
                | inr _ => True
                | inl _ => sends_to fxs = [] /\ store w = store w
                end).
  { exists []. rewrite app_nil_r. split; [reflexivity |]. split; [now left |].
    now destruct (suffix_text env config). }
  unfold after_decide.
  destruct (negb forceNotify && negb (hasTomorrowOf (collections result) tomorrow));
    [exact Hnone |].
  destruct label_ as [| | b | n | l | items | fields]; try exact Hnone.
  destruct forceNotify; simpl.
  - destruct (suffix_text env config) as [e | suffix]; [exists []; rewrite app_nil_r; auto |].
    eexists. split; [reflexivity |]. split; [| exact I].
    right. apply sends_to_send_effects.
  - destruct (notified_flag env i (sha256 l) tomorrow w).
    { exists [FxGetItem (sha256 l)]. split; [reflexivity |]. split; [now left |].
      now destruct (suffix_text env config). }
    destruct (suffix_text env config) as [e | suffix].
    { exists [FxGetItem (sha256 l)]. auto. }
    rewrite String.eqb_refl. unfold after_mark.
    destruct (updateItem_error env i); simpl; rewrite <- !app_assoc;
      (eexists; split; [reflexivity |]); (split; [| exact I]); right;
      rewrite !sends_to_app, sends_to_send_effects; simpl; apply app_nil_r.
Qed.

(** C1, as the code has it.  In non-force mode, for an address whose
    schedule has an entry on the target date (so the announce date is the
    target date) and that is not seen as already notified, the loop body
    returns normally; its effects are, in this order, the state read, one
    send attempt per valid recipient, and last the state write attempt
    carrying [tomorrow].  The write is attempted whatever the outcomes of the
    sends, and the table changes exactly when the write succeeds.  (When the
    message suffix of the configuration is not a text, composing the message
    throws after the state read: nothing is sent and nothing is written.) *)
Theorem C1_state_write_follows_send_attempts (env : Env) (config : Config)
    (now : DateTime) (tomorrow : string) (i : nat) (l : string)
    (recipients_ : list JsValue) (result : ScrapeResult) (w : World) :
  hasTomorrowOf (collections result) tomorrow = true ->
  notified_flag env i (sha256 l) tomorrow w = false ->
  let key := sha256 l in
  let written := match updateItem_error env i with None => true | Some _ => false end in
  match suffix_text env config with
  | inr suffix =>
      let sends :=
        send_effects env i 0 (valid_recipients recipients_)
          (message_for env now tomorrow false l suffix result) in
      exists w',
        decide_and_notify env config now tomorrow false i (JsString l) recipients_ result w
        = (Returned tt, w')
        /\ announceDateOf false now tomorrow (collections result) = tomorrow
        /\ trace w'
           = trace w ++ [FxGetItem key] ++ sends
               ++ [FxUpdateItem key tomorrow (snapshot_of result) written]
        /\ store w'
           = if written then <[key := notified_item env tomorrow result]> (store w)
             else store w
  | inl e =>
      decide_and_notify env config now tomorrow false i (JsString l) recipients_ result w
      = (Thrown e, log [FxGetItem key] w)
  end.
Proof.
  intros Hhas Hflag key written.
  rewrite decide_and_notify_run. unfold decide_fault, after_decide.
  rewrite Hhas. simpl. fold key in Hflag |- *. rewrite Hflag.
  destruct (suffix_text env config) as [e | suffix]; [reflexivity |].
  eexists. split; [reflexivity |]. split; [reflexivity |].
  rewrite String.eqb_refl. unfold after_mark, written.
  destruct (updateItem_error env i); simpl; rewrite <- !app_assoc; split; reflexivity.
Qed.

(** C2.  In non-force mode, when the state read succeeds and the stored
    record of the address has [lastNotifiedForLocalDate] equal to the target
    date, one turn of the address loop makes no send attempt and no state
    write attempt and leaves the table as it was, whatever the scrape
    returns; in particular when the schedule has an entry on the target date
    the only effect after the scrape is the state read. *)
Theorem C2_already_notified_no_action (env : Env) (config : Config) (now : DateTime)
    (tomorrow : string) (i : nat) (address : JsValue) (l : string)
    (recipients_ : list JsValue) (w : World) (item : Item) :
  readable address = Some (JsString l, recipients_) ->
  getItem_error env i = None ->
  store w !! sha256 l = Some item ->
  lastNotifiedForLocalDate item = Some tomorrow ->
  (exists fxs,
      process_address env config now tomorrow false i address w
      = (Returned tt, log fxs w)
      /\ Forall (fun fx => is_notification fx = false) fxs)
  /\ (forall result,
        hasTomorrowOf (collections result) tomorrow = true ->
        decide_and_notify env config now tomorrow false i (JsString l) recipients_ result w
        = (Returned tt, log [FxGetItem (sha256 l)] w)).
Proof.
  intros Hshape Hread Hitem Hlast.
  assert (Hflag : forall fxs,
             notified_flag env i (sha256 l) tomorrow (log fxs w) = true).
  { intros fxs. unfold notified_flag, last_notified. rewrite Hread. simpl.
    rewrite Hitem. simpl. rewrite Hlast. apply String.eqb_refl. }
  assert (Hdecide : forall result fxs0,
             decide_fault env config tomorrow false i (JsString l) result (log fxs0 w) = None
             /\ exists fxs,
               after_decide env config now tomorrow false i (JsString l) recipients_ result
                            (log fxs0 w)
               = log (fxs0 ++ fxs) w
               /\ Forall (fun fx => is_notification fx = false) fxs).
  { intros result fxs0. unfold decide_fault, after_decide. simpl.
    destruct (negb (hasTomorrowOf (collections result) tomorrow)).
    - split; [reflexivity |]. exists []. rewrite app_nil_r. split; [reflexivity | constructor].
    - rewrite Hflag. split; [reflexivity |]. exists [FxGetItem (sha256 l)].
      rewrite log_log. split; [reflexivity | repeat constructor]. }
  split.
  - rewrite process_address_run. unfold turn_fault, after_address. rewrite Hshape.
    destruct (scrape_frame env i (JsString l)) as [e | frame].
    + eexists. split; [reflexivity | repeat constructor].
    + destruct (Hdecide (extractCollections (env_TZ env) frame) [FxScrape (JsString l)])
        as [Hfault [fxs [Heq Hall]]].
      rewrite Hfault, Heq. eexists. split; [reflexivity |].
      constructor; [reflexivity | assumption].
  - intros result Hhas. rewrite decide_and_notify_run.
    unfold decide_fault, after_decide. rewrite Hhas. simpl.
    rewrite <- (log_nil w) at 1 2. now rewrite Hflag.
Qed.

(** C3, as the code has it.  In force mode, for a schedule with no entry on
    the target date: when some entry is on or after the start of today, the
    announce date is the date of such an entry than which no other is
    earlier; when none is, the announce date stays the target date and
    nothing is gathered for it.  In both cases the loop body goes on to the
    send step: it makes one send attempt per valid recipient, reads no state
    and writes none.  (When the message suffix of the configuration is not a
    text, composing the message throws and nothing is sent.) *)
Theorem C3_force_mode_announce_date (env : Env) (config : Config) (now : DateTime)
    (tomorrow : string) (i : nat) (l : string) (recipients_ : list JsValue)
    (result : ScrapeResult) (w : World) :
  hasTomorrowOf (collections result) tomorrow = false ->
  let cs := collections result in
  let announce := announceDateOf true now tomorrow cs in
  ((exists c, In c cs /\ is_upcoming now c = true) ->
     exists first,
       In first cs /\ is_upcoming now first = true
       /\ (forall c, In c cs -> is_upcoming now c = true ->
             valueOf (entry_dt first) <= valueOf (entry_dt c))
       /\ announce = localDate first)
  /\ ((forall c, In c cs -> is_upcoming now c = false) ->
        announce = tomorrow /\ binsTextOf cs announce = "")
  /\ decide_and_notify env config now tomorrow true i (JsString l) recipients_ result w
     = match suffix_text env config with
       | inr suffix =>
           (Returned tt,
            log (send_effects env i 0 (valid_recipients recipients_)
                   (message_for env now tomorrow true l suffix result)) w)
       | inl e => (Thrown e, w)
       end.
Proof.
  intros Hhas cs announce. subst announce cs. split; [| split].
  - intros [c [Hc Hup]]. unfold announceDateOf. rewrite Hhas. simpl.
    destruct (upcoming now (collections result)) as [| first rest] eqn:E.
    + apply upcoming_nil with (c := c) in E; [congruence | assumption].
    + destruct (upcoming_head now _ first rest E) as (Hin & Hok & Hmin).
      exists first. auto.
  - intros Hnone. apply upcoming_nil in Hnone.
    assert (Ha : announceDateOf true now tomorrow (collections result) = tomorrow).
    { unfold announceDateOf. now rewrite Hhas, Hnone. }
    split; [assumption |]. rewrite Ha.
    apply entries_on_nil in Hhas.
    unfold binsTextOf, announceDetails, uniqueBins, binsForAnnounce. now rewrite Hhas.
  - rewrite decide_and_notify_run. unfold decide_fault, after_decide. simpl.
    now destruct (suffix_text env config).
Qed.

(** The state write never decides what a turn throws: a turn that writes
    has composed its message, and then no later turn throws on the suffix. *)
Lemma turn_fault_write_ok (env : Env) (config : Config) (now : DateTime)
    (tomorrow : string) (forceNotify : bool) (i : nat) (address : JsValue) (w w' : World) :
  match suffix_text env config with inl _ => store w = store w' | inr _ => True end ->
  turn_fault env config tomorrow forceNotify i address w
  = turn_fault (with_write_ok env) config tomorrow forceNotify i address w'
  /\ match suffix_text env config with
     | inl _ =>
         store (after_address env config now tomorrow forceNotify i address w)
         = store (after_address (with_write_ok env) config now tomorrow forceNotify i
                                address w')
     | inr _ => True
     end.
Proof.
  intros Hrel. unfold turn_fault, after_address.
  destruct (readable address) as [[label_ recipients_] |].
  2:{ split; [reflexivity | exact Hrel]. }
  change (scrape_frame (with_write_ok env)) with (scrape_frame env).
  change (env_TZ (with_write_ok env)) with (env_TZ env).
  destruct (scrape_frame env i label_) as [e | frame].
  { split; [reflexivity | exact Hrel]. }
  set (result := extractCollections (env_TZ env) frame).
  unfold decide_fault, after_decide.
  change (suffix_text (with_write_ok env) config) with (suffix_text env config).
  destruct (negb forceNotify && negb (hasTomorrowOf (collections result) tomorrow)).
  { split; [reflexivity | exact Hrel]. }
  destruct label_ as [| | b | n | l | items | fields];
    try (split; [reflexivity | exact Hrel]).
  destruct (suffix_text env config) as [e | suffix].
  - assert (Hflag : notified_flag env i (sha256 l) tomorrow (log [FxScrape (JsString l)] w)
                    = notified_flag (with_write_ok env) i (sha256 l) tomorrow
                        (log [FxScrape (JsString l)] w')).
    { unfold notified_flag. simpl. now rewrite Hrel. }
    rewrite Hflag. clear Hflag. split; [reflexivity |].
    destruct forceNotify; simpl; [exact Hrel |].
    destruct (notified_flag _ _ _ _ _); simpl; exact Hrel.
  - split; [| exact I].
    destruct (negb forceNotify && notified_flag env i (sha256 l) tomorrow _);
      destruct (negb forceNotify && notified_flag (with_write_ok env) i (sha256 l) tomorrow _);
      reflexivity.
Qed.

Lemma loop_fault_write_ok (env : Env) (config : Config) (now : DateTime)
    (tomorrow : string) (forceNotify : bool) (i : nat) (l : list JsValue) (w w' : World) :
  match suffix_text env config with inl _ => store w = store w' | inr _ => True end ->
  loop_fault env config now tomorrow forceNotify i l w
  = loop_fault (with_write_ok env) config now tomorrow forceNotify i l w'.
Proof.
  revert i w w'. induction l as [| address rest IH]; intros i w w' Hrel; simpl;
    [reflexivity |].
  destruct (turn_fault_write_ok env config now tomorrow forceNotify i address w w' Hrel)
    as [Hfault Hnext].
  rewrite <- Hfault.
  destruct (turn_fault env config tomorrow forceNotify i address w); [reflexivity |].
  apply IH. exact Hnext.
Qed.

(** C7.  When the state read throws, the loop body does what it does when
    the read succeeds on a table that has no record of the address: same
    outcome, same effects; for a schedule with an entry on the target date
    these are the state read, one send attempt per valid recipient and the
    state write attempt.  Whatever the state write does, the loop body has
    the outcome it has when the write succeeds, which is a normal return
    when the message suffix is a text, and the outcome of the whole run is
    the one it has when every write succeeds. *)
Theorem C7_store_errors_are_absorbed (env : Env) (config : Config) (now : DateTime)
    (tomorrow : string) (i : nat) (l : string) (recipients_ : list JsValue)
    (result : ScrapeResult) (w : World) (event : option Event) :
  let key := sha256 l in
  let run :=
    decide_and_notify env config now tomorrow false i (JsString l) recipients_ result w in
  (forall e, getItem_error env i = Some e ->
     let run0 :=
       decide_and_notify (with_read_ok env) config now tomorrow false i (JsString l)
                         recipients_ result (forget key w) in
     run.1 = run0.1
     /\ trace run.2 = trace run0.2
     /\ (hasTomorrowOf (collections result) tomorrow = true ->
         match suffix_text env config with
         | inr suffix =>
             exists written,
               trace run.2
               = trace w ++ [FxGetItem key]
                   ++ send_effects env i 0 (valid_recipients recipients_)
                        (message_for env now tomorrow false l suffix result)
                   ++ [FxUpdateItem key tomorrow (snapshot_of result) written]
         | inl e' => run.1 = Thrown e' /\ trace run.2 = trace w ++ [FxGetItem key]
         end))
  /\ run.1
     = (decide_and_notify (with_write_ok env) config now tomorrow false i (JsString l)
                          recipients_ result w).1
  /\ match suffix_text env config with
     | inr _ => run.1 = Returned tt
     | inl e => run.1 = Returned tt \/ run.1 = Thrown e
     end
  /\ (daily env event w).1 = (daily (with_write_ok env) event w).1.
Proof.
  intros key run. split; [| split; [| split]].
  - intros e Hread run0. subst run run0. rewrite !decide_and_notify_run. simpl.
    assert (Hflag : notified_flag env i key tomorrow w = false).
    { unfold notified_flag. now rewrite Hread. }
    assert (Hflag0 : notified_flag (with_read_ok env) i key tomorrow (forget key w) = false).
    { unfold notified_flag, last_notified, forget. simpl.
      now rewrite lookup_delete_eq. }
    unfold decide_fault, after_decide.
    change (suffix_text (with_read_ok env) config) with (suffix_text env config).
    fold key. rewrite Hflag, Hflag0. simpl.
    destruct (hasTomorrowOf (collections result) tomorrow); simpl.
    + destruct (suffix_text env config) as [e' | suffix].
      * split; [reflexivity |]. split; [reflexivity |]. intros _. now split.
      * split; [reflexivity |]. rewrite String.eqb_refl. unfold after_mark. simpl.
        destruct (updateItem_error env i); simpl; rewrite <- !app_assoc;
          (split; [reflexivity |]); intros _; eexists; reflexivity.
    + split; [reflexivity |]. split; [reflexivity | discriminate].
  - subst run. rewrite !decide_and_notify_run. simpl. reflexivity.
  - subst run. rewrite decide_and_notify_run. simpl. unfold decide_fault.
    destruct (negb false && negb (hasTomorrowOf (collections result) tomorrow));
      [now destruct (suffix_text env config); [left |] |].
    destruct (negb false && notified_flag env i (sha256 l) tomorrow w);
      destruct (suffix_text env config); simpl; auto.
  - rewrite !daily_run. unfold loaded_config. simpl.
    destruct (config_file env) as [e | raw]; [reflexivity |].
    destruct (cfg_addresses raw) as [addrs |]; [| reflexivity].
    destruct (launch_error env); [reflexivity |].
    simpl. destruct (close_error env); [reflexivity |].
    unfold run_fault.
    rewrite (loop_fault_write_ok env _ _ _ _ 0 _ (at_launch w) (at_launch w)).
    + reflexivity.
    + now destruct (suffix_text env _).
Qed.




(** C10.  The recipients kept for sending are those whose text contains
    something@something.something; the send attempts of the loop body go to
    them, in their configured order, and to no one else.  When
    no recipient matches, in non-force mode and with an entry on the target
    date, no send is attempted, and when the state write succeeds the table
    records the address as notified for the target date.  (When the message
    suffix is not a text nothing is sent and nothing is written.) *)
Theorem C10_invalid_recipients_dropped (env : Env) (config : Config) (now : DateTime)
    (tomorrow : string) (i : nat) (l : string) (recipients_ : list JsValue)
    (result : ScrapeResult) (w : World) :
  (forall v, In v (List.filter emailLike recipients_)
             <-> In v recipients_ /\ RegExpSpec.email_shaped (Json.or_empty v))
  /\ (forall forceNotify,
     exists r w' fxs,
       decide_and_notify env config now tomorrow forceNotify i (JsString l) recipients_
                         result w
       = (r, w')
       /\ trace w' = trace w ++ fxs
       /\ (sends_to fxs = []
           \/ sends_to fxs = map Json.to_string (List.filter emailLike recipients_))
       /\ match suffix_text env config with
          | inr _ => r = Returned tt
          | inl _ => sends_to fxs = [] /\ store w' = store w
          end)
  /\ (hasTomorrowOf (collections result) tomorrow = true ->
      List.filter emailLike recipients_ = [] ->
      updateItem_error env i = None ->
      match suffix_text env config with
      | inr _ =>
          exists w' fxs,
            decide_and_notify env config now tomorrow false i (JsString l) recipients_
                              result w
            = (Returned tt, w')
            /\ trace w' = trace w ++ fxs
            /\ sends_to fxs = []
            /\ last_notified (store w') (sha256 l) = Some tomorrow
      | inl _ => True
      end).
Proof.
  split; [| split].
  - intros v. rewrite filter_In. now rewrite RegExpFacts.emailLike_shape.
  - intros forceNotify.
    destruct (after_decide_trace env config now tomorrow forceNotify i (JsString l)
                recipients_ result w) as [fxs [Htrace [Hsends Hbad]]].
    eexists. eexists. exists fxs. split; [apply decide_and_notify_run |].
    split; [assumption |]. split; [assumption |].
    unfold decide_fault.
    destruct (suffix_text env config) as [e | suffix]; [exact Hbad |].
    destruct (negb forceNotify && negb (hasTomorrowOf (collections result) tomorrow));
      [reflexivity |].
    now destruct (negb forceNotify && notified_flag env i (sha256 l) tomorrow w).
  - intros Hhas Hnone Hwrite.
    destruct (suffix_text env config) as [e | suffix] eqn:Hsuffix; [exact I |].
    destruct (after_decide_trace env config now tomorrow false i (JsString l)
                recipients_ result w) as [fxs [Htrace [Hsends _]]].
    eexists. exists fxs. rewrite decide_and_notify_run.
    unfold decide_fault. rewrite Hhas, Hsuffix. simpl.
    split; [now destruct (notified_flag env i (sha256 l) tomorrow w) |].
    split; [assumption |]. split.
    + destruct Hsends as [H | H]; [assumption |]. unfold valid_recipients in H.
      now rewrite Hnone in H.
    + unfold after_decide. rewrite Hhas, Hsuffix. simpl.
      destruct (notified_flag env i (sha256 l) tomorrow w) eqn:Hflag.
      * unfold notified_flag in Hflag. simpl.
        destruct (getItem_error env i); [discriminate |].
        destruct (last_notified (store w) (sha256 l)) as [d |];
          [| discriminate].
        apply String.eqb_eq in Hflag. now subst d.
      * rewrite String.eqb_refl. unfold after_mark. rewrite Hwrite.
        unfold last_notified. simpl. now rewrite lookup_insert_eq.
Qed.

End RunTheorems.

(** * More of the handler *)

Module StrFacts.

Lemma append_cons (x : ascii) (a b : string) : String x a +:+ b = String x (a +:+ b).
Proof. reflexivity. Qed.

Lemma append_assoc (a b c : string) : (a +:+ b) +:+ c = a +:+ (b +:+ c).
Proof.
  induction a as [| x a IH]; [reflexivity |].
  rewrite !append_cons. f_equal. exact IH.
Qed.

Lemma replace_char_app (c : ascii) (by_ a b : string) :
  Str.replace_char c by_ (a +:+ b)
  = Str.replace_char c by_ a +:+ Str.replace_char c by_ b.
Proof.
  induction a as [| x a IH]; simpl; [reflexivity |].
  destruct (Ascii.eqb x c); rewrite IH; [| reflexivity].
  symmetry. apply append_assoc.
Qed.

Lemma list_ascii_app (a b : string) :
  list_ascii_of_string (a +:+ b) = list_ascii_of_string a ++ list_ascii_of_string b.
Proof. induction a as [| c a IH]; simpl; [reflexivity | now rewrite IH]. Qed.

Lemma substring0_length (n : nat) (s : string) :
  String.length (String.substring 0 n s) = Nat.min n (String.length s).
Proof.
  revert n. induction s as [| c s IH]; intros [| n]; simpl; try reflexivity.
  now rewrite IH.
Qed.

Lemma substring0_prefix (n : nat) (s : string) :
  String.prefix (String.substring 0 n s) s = true.
Proof.
  revert n. induction s as [| c s IH]; intros [| n]; simpl; try reflexivity.
  destruct (ascii_dec c c); [apply IH | congruence].
Qed.

Lemma substring0_all (n : nat) (s : string) :
  (String.length s <= n)%nat -> String.substring 0 n s = s.
Proof.
  revert n. induction s as [| c s IH]; intros [| n] Hle; simpl in *; try reflexivity; try lia.
  f_equal. apply IH. lia.
Qed.

Lemma trim_end_idem (s : string) : Str.trim_end (Str.trim_end s) = Str.trim_end s.
Proof.
  induction s as [| c s IH]; [reflexivity |]. simpl.
  destruct (Str.trim_end s) as [| d t] eqn:E.
  - destruct (Str.is_space c) eqn:Ec; [reflexivity |]. simpl. now rewrite Ec.
  - change (Str.trim_end (String c (String d t)))
      with (match Str.trim_end (String d t) with
            | EmptyString => if Str.is_space c then EmptyString else String c EmptyString
            | String a u => String c (String a u)
            end).
    now rewrite IH.
Qed.

Lemma trim_start_clean (s : string) : starts_clean (Str.trim_start s).
Proof.
  induction s as [| c s IH]; simpl; [exact I |].
  destruct (Str.is_space c) eqn:E; [exact IH | exact E].
Qed.

Lemma trim_start_fixed (s : string) : starts_clean s -> Str.trim_start s = s.
Proof. destruct s as [| c s]; simpl; [reflexivity |]. now intros ->. Qed.

Lemma trim_end_clean (s : string) : starts_clean s -> starts_clean (Str.trim_end s).
Proof.
  destruct s as [| c s]; simpl; [auto |]. intros Hc.
  destruct (Str.trim_end s); [rewrite Hc |]; exact Hc.
Qed.

Lemma trim_end_ends_clean (s : string) : ends_clean (Str.trim_end s).
Proof.
  induction s as [| c s IH]; simpl; [exact I |].
  destruct (Str.trim_end s) as [| d t].
  - destruct (Str.is_space c) eqn:Ec; simpl; [exact I | exact Ec].
  - exact IH.
Qed.

Lemma trim_idem (s : string) : Str.trim (Str.trim s) = Str.trim s.
Proof.
  unfold Str.trim.
  rewrite (trim_start_fixed (Str.trim_end (Str.trim_start s))).
  - apply trim_end_idem.
  - apply trim_end_clean, trim_start_clean.
Qed.

Lemma trim_start_chars (s : string) (x : ascii) :
  In x (list_ascii_of_string (Str.trim_start s)) -> In x (list_ascii_of_string s).
Proof.
  induction s as [| c s IH]; simpl; [auto |].
  destruct (Str.is_space c); simpl; auto.
Qed.

Lemma trim_end_chars (s : string) (x : ascii) :
  In x (list_ascii_of_string (Str.trim_end s)) -> In x (list_ascii_of_string s).
Proof.
  induction s as [| c s IH]; simpl; [auto |].
  destruct (Str.trim_end s) as [| d t].
  - destruct (Str.is_space c); simpl; [contradiction | intros [H | []]; now left].
  - simpl in *. intros [H | H]; [now left | right; now apply IH].
Qed.

Lemma trim_chars (s : string) (x : ascii) :
  In x (list_ascii_of_string (Str.trim s)) -> In x (list_ascii_of_string s).
Proof. intros H. now apply trim_start_chars, trim_end_chars. Qed.

Lemma snoc_chars (cur : string) (c : ascii) :
  list_ascii_of_string (cur +:+ String c EmptyString) = list_ascii_of_string cur ++ [c].
Proof. induction cur as [| a cur IH]; [reflexivity |]. simpl. now rewrite <- IH. Qed.

Lemma split_lf_aux_chars (s cur : string) (after_lf : bool) (piece : string) :
  ~ In "010"%char (list_ascii_of_string cur) ->
  In piece (Str.split_lf_aux cur after_lf s) ->
  ~ In "010"%char (list_ascii_of_string piece).
Proof.
  revert cur after_lf. induction s as [| c s IH]; intros cur after_lf Hcur; simpl.
  - intros [<- | []]. exact Hcur.
  - destruct (Ascii.eqb c "010") eqn:Ec.
    + destruct after_lf.
      * now apply IH.
      * intros [<- | H]; [exact Hcur |]. apply (IH EmptyString true); [simpl; tauto | exact H].
    + apply IH. rewrite snoc_chars, in_app_iff. intros [H | [H | []]]; [tauto |].
      subst c. discriminate.
Qed.

End StrFacts.

(** ** The run *)

Section RunCoverage.

Context {luxon : LuxonApi} {host : HostApi}.
Variable env : Env.
Import StrFacts.

Lemma reads_of_app (a b : list Effect) : reads_of (a ++ b) = reads_of a ++ reads_of b.
Proof. apply omap_app. Qed.

Lemma writes_of_app (a b : list Effect) : writes_of (a ++ b) = writes_of a ++ writes_of b.
Proof. apply omap_app. Qed.

Lemma scrapes_of_app (a b : list Effect) : scrapes_of (a ++ b) = scrapes_of a ++ scrapes_of b.
Proof. apply omap_app. Qed.

Lemma lifecycle_of_app (a b : list Effect) :
  lifecycle_of (a ++ b) = lifecycle_of a ++ lifecycle_of b.
Proof. apply List.filter_app. Qed.

Lemma send_effects_quiet (i j : nat) (toList : list JsValue) (m : Message) :
  reads_of (send_effects env i j toList m) = []
  /\ writes_of (send_effects env i j toList m) = []
  /\ scrapes_of (send_effects env i j toList m) = []
  /\ lifecycle_of (send_effects env i j toList m) = [].
Proof.
  revert j. induction toList as [| to rest IH]; intros j; simpl; [now repeat split |].
  destruct (IH (S j)) as (H1 & H2 & H3 & H4). repeat split; assumption.
Qed.

(** The label the loop reads of an address is its [label] property. *)
Lemma readable_label (address label_ : JsValue) (recipients_ : list JsValue) :
  readable address = Some (label_, recipients_) -> label_ = label_of address.
Proof.
  unfold readable, label_of.
  destruct address; try discriminate;
    match goal with
    | |- context [Json.get ?a "recipients"] => destruct (Json.get a "recipients")
    end; try discriminate; now intros [= <- _].
Qed.

(** The four ways the loop body ends for a scraped address whose label is a
    string, the message suffix being a text. *)
Lemma after_decide_cases (config : Config) (now : DateTime) (tomorrow : string)
    (forceNotify : bool) (i : nat) (l suffix : string) (recipients_ : list JsValue)
    (result : ScrapeResult) (w : World) :
  suffix_text env config = inr suffix ->
  let key := sha256 l in
  let sends := send_effects env i 0 (valid_recipients recipients_)
                 (message_for env now tomorrow forceNotify l suffix result) in
  after_decide env config now tomorrow forceNotify i (JsString l) recipients_ result w
  = if forceNotify then log sends w
    else if negb (hasTomorrowOf (collections result) tomorrow) then w
    else if notified_flag env i key tomorrow w then log [FxGetItem key] w
    else after_mark env i key tomorrow result (log (FxGetItem key :: sends) w).
Proof.
  intros Hsuffix key sends. unfold after_decide. fold key. rewrite Hsuffix.
  destruct forceNotify; simpl; [reflexivity |].
  destruct (hasTomorrowOf (collections result) tomorrow); simpl; [| reflexivity].
  destruct (notified_flag env i key tomorrow w); [reflexivity |].
  rewrite String.eqb_refl. now rewrite log_log.
Qed.

Lemma decide_ok_nil (tomorrow : string) (forceNotify : bool) (label_ : JsValue) (w : World) :
  decide_ok tomorrow forceNotify label_ w w [].
Proof. unfold decide_ok. rewrite app_nil_r. simpl. repeat split; auto. Qed.

Lemma decide_ok_read (tomorrow : string) (l : string) (w : World) :
  decide_ok tomorrow false (JsString l) w (log [FxGetItem (sha256 l)] w)
            [FxGetItem (sha256 l)].
Proof.
  unfold decide_ok. simpl. repeat split; auto; try discriminate.
  right. now exists l.
Qed.

Lemma after_decide_ok (config : Config) (now : DateTime) (tomorrow : string)
    (forceNotify : bool) (i : nat) (label_ : JsValue) (recipients_ : list JsValue)
    (result : ScrapeResult) (w : World) :
  exists fxs,
    decide_ok tomorrow forceNotify label_ w
              (after_decide env config now tomorrow forceNotify i label_ recipients_
                            result w) fxs.
Proof.
  unfold after_decide.
  destruct (negb forceNotify && negb (hasTomorrowOf (collections result) tomorrow));
    [exists []; apply decide_ok_nil |].
  destruct label_ as [| | b | n | l | items | fields];
    try (exists []; apply decide_ok_nil).
  set (key := sha256 l).
  destruct forceNotify; simpl.
  - destruct (suffix_text env config) as [e | suffix]; [exists []; apply decide_ok_nil |].
    eexists. unfold decide_ok. split; [reflexivity |].
    destruct (send_effects_quiet i 0 (valid_recipients recipients_)
                (message_for env now tomorrow true l suffix result)) as (Hr & Hw & Hs & Hb).
    rewrite Hr, Hw, Hs, Hb. simpl. repeat split; auto.
  - destruct (notified_flag env i key tomorrow w);
      [exists [FxGetItem key]; apply decide_ok_read |].
    destruct (suffix_text env config) as [e | suffix];
      [exists [FxGetItem key]; apply decide_ok_read |].
    rewrite String.eqb_refl.
    set (sends := send_effects env i 0 (valid_recipients recipients_)
                    (message_for env now tomorrow false l suffix result)).
    destruct (send_effects_quiet i 0 (valid_recipients recipients_)
                (message_for env now tomorrow false l suffix result)) as (Hr & Hw & Hs & Hb).
    fold sends in Hr, Hw, Hs, Hb.
    assert (Hq : forall post,
               scrapes_of ([FxGetItem key] ++ sends ++ post) = scrapes_of post
               /\ reads_of ([FxGetItem key] ++ sends ++ post) = key :: reads_of post
               /\ writes_of ([FxGetItem key] ++ sends ++ post) = writes_of post
               /\ lifecycle_of ([FxGetItem key] ++ sends ++ post) = lifecycle_of post).
    { intros post.
      rewrite !scrapes_of_app, !reads_of_app, !writes_of_app, !lifecycle_of_app,
        Hr, Hw, Hs, Hb.
      now repeat split. }
    unfold after_mark. destruct (updateItem_error env i) as [e |].
    + exists ([FxGetItem key] ++ sends
              ++ [FxUpdateItem key tomorrow (snapshot_of result) false]).
      unfold decide_ok.
      split; [simpl; now rewrite <- ?app_assoc |].
      destruct (Hq [FxUpdateItem key tomorrow (snapshot_of result) false])
        as (-> & -> & -> & ->).
      simpl. repeat split; auto; try discriminate.
      * right. now exists l.
      * right. now exists l.
    + exists ([FxGetItem key] ++ sends
              ++ [FxUpdateItem key tomorrow (snapshot_of result) true]).
      unfold decide_ok.
      split; [simpl; now rewrite <- ?app_assoc |].
      destruct (Hq [FxUpdateItem key tomorrow (snapshot_of result) true])
        as (-> & -> & -> & ->).
      simpl. repeat split; auto; try discriminate.
      * right. now exists l.
      * right. now exists l.
      * intros k. destruct (decide (key = k)) as [<- | Hne].
        -- right. split; [now exists l |]. split; [reflexivity |].
           eexists. rewrite lookup_insert_eq. split; reflexivity.
        -- left. now rewrite lookup_insert_ne.
Qed.

Lemma after_address_ok (config : Config) (now : DateTime) (tomorrow : string)
    (forceNotify : bool) (i : nat) (address : JsValue) (w : World) :
  exists fxs,
    turn_ok tomorrow forceNotify address w
            (after_address env config now tomorrow forceNotify i address w) fxs.
Proof.
  unfold after_address, turn_ok.
  destruct (readable address) as [[label_ recipients_] |] eqn:Hshape.
  2:{ exists []. rewrite app_nil_r. simpl. repeat split; auto. }
  apply readable_label in Hshape. subst label_.
  destruct (scrape_frame env i (label_of address)) as [e | frame].
  { exists [FxScrape (label_of address)]. simpl. repeat split; auto. }
  destruct (after_decide_ok config now tomorrow forceNotify i (label_of address) recipients_
              (extractCollections (env_TZ env) frame)
              (log [FxScrape (label_of address)] w))
    as (fxs & Ht & Hs & Hb & Hr & Hw & Hf & Hk).
  exists ([FxScrape (label_of address)] ++ fxs).
  rewrite scrapes_of_app, lifecycle_of_app, reads_of_app, writes_of_app, Hs, Hb.
  split; [rewrite Ht; simpl; now rewrite <- app_assoc |].
  simpl. split; [reflexivity |]. split; [reflexivity |]. split; [| split; [| split]].
  - destruct Hr as [Hr | (l & Hl & Hr)]; [now left |].
    right. exists (sha256 l). split; [now exists l | exact Hr].
  - destruct Hw as [Hw | (l & Hl & Hw & Hr')]; [now left |].
    right. exists (sha256 l). split; [now exists l | now split].
  - exact Hf.
  - intros k. destruct (Hk k) as [Heq | ((l & Hl & ->) & Hforce & Hitem)]; [now left |].
    right. split; [now exists l | now split].
Qed.

Lemma loop_ok_stop (tomorrow : string) (forceNotify : bool) (l : list JsValue) (w : World) :
  loop_ok tomorrow forceNotify l w w [] 0.
Proof.
  unfold loop_ok. rewrite app_nil_r. simpl.
  repeat split; auto; try lia; try contradiction.
Qed.

Lemma loop_ok_cons (tomorrow : string) (forceNotify : bool) (a : JsValue)
    (l : list JsValue) (w w1 w2 : World) (fx1 fx2 : list Effect) (n : nat) :
  readable a <> None ->
  turn_ok tomorrow forceNotify a w w1 fx1 ->
  loop_ok tomorrow forceNotify l w1 w2 fx2 n ->
  loop_ok tomorrow forceNotify (a :: l) w w2 (fx1 ++ fx2) (S n).
Proof.
  intros Hshape (Ht1 & Hs1 & Hb1 & Hr1 & Hw1 & Hf1 & Hk1)
         (Ht2 & Hs2 & Hall & Hb2 & Hlr & Hlw & Hrk & Hwk & Hf2 & Hk2).
  unfold loop_ok.
  rewrite scrapes_of_app, reads_of_app, writes_of_app, lifecycle_of_app.
  rewrite Hs1, Hs2, Hb1, Hb2, !length_app.
  destruct (readable a) as [shape |] eqn:E; [clear Hshape | now destruct Hshape].
  split; [rewrite Ht2, Ht1, <- app_assoc; reflexivity |].
  split; [reflexivity |].
  split; [simpl; constructor; [congruence | exact Hall] |].
  split; [reflexivity |].
  split; [destruct Hr1 as [-> | (k & _ & ->)]; simpl; lia |].
  split; [destruct Hw1 as [-> | (k & _ & -> & ->)]; simpl; lia |].
  split.
  { intros k Hk. apply in_app_or in Hk. destruct Hk as [Hk | Hk].
    - exists a. split; [now left |].
      destruct Hr1 as [Hr | (k' & Hkey & Hr)]; rewrite Hr in Hk; simpl in Hk;
        [contradiction |].
      now destruct Hk as [<- | []].
    - destruct (Hrk k Hk) as (a' & Ha' & Hkey). exists a'. split; [now right | exact Hkey]. }
  split.
  { intros k d Hin. apply in_app_or in Hin. destruct Hin as [Hin | Hin].
    - destruct Hw1 as [Hw | (k' & _ & Hw & Hr)]; rewrite Hw in Hin; simpl in Hin;
        [contradiction |].
      destruct Hin as [[= <- <-] | []]. split; [| reflexivity].
      apply in_or_app. left. rewrite Hr. now left.
    - destruct (Hwk k d Hin) as [Hin' ->]. split; [| reflexivity].
      apply in_or_app. now right. }
  split.
  { intros Hforce. destruct (Hf1 Hforce) as (-> & -> & <-).
    destruct (Hf2 Hforce) as (-> & -> & ->). now repeat split. }
  intros k. destruct (Hk2 k) as [Heq | (a' & item & Ha' & Hkey & Hforce & Hitem & Hlast)].
  - rewrite Heq. destruct (Hk1 k) as [Heq1 | (Hkey & Hforce & item & Hitem & Hlast)].
    + now left.
    + right. exists a, item. repeat split; auto. now left.
  - right. exists a', item. repeat split; auto. now right.
Qed.

Lemma after_loop_ok (config : Config) (now : DateTime) (tomorrow : string)
    (forceNotify : bool) (l : list JsValue) (i : nat) (w : World) :
  exists fxs n,
    loop_ok tomorrow forceNotify l w
            (after_loop env config now tomorrow forceNotify i l w) fxs n
    /\ (n <= length l)%nat
    /\ match loop_fault env config now tomorrow forceNotify i l w with
       | None => n = length l
       | Some _ => True
       end.
Proof.
  revert i w. induction l as [| a l IH]; intros i w; simpl.
  - exists [], 0%nat. split; [apply loop_ok_stop | split; [lia | reflexivity]].
  - destruct (after_address_ok config now tomorrow forceNotify i a w) as (fx1 & Hturn).
    destruct (readable a) as [shape |] eqn:Hshape.
    2:{ unfold turn_fault, after_address. rewrite Hshape.
        exists [], 0%nat. split; [apply loop_ok_stop | split; [lia | exact I]]. }
    assert (Hr : readable a <> None) by congruence.
    destruct (turn_fault env config tomorrow forceNotify i a w) as [e |].
    + exists (fx1 ++ []), 1%nat. split; [| split; [lia | exact I]].
      apply (loop_ok_cons _ _ _ _ _ _ _ _ _ _ Hr Hturn). apply loop_ok_stop.
    + destruct (IH (S i) (after_address env config now tomorrow forceNotify i a w))
        as (fx2 & n & Hloop & Hn & Hend).
      exists (fx1 ++ fx2), (S n). split; [| split; [lia |]].
      * exact (loop_ok_cons _ _ _ _ _ _ _ _ _ _ Hr Hturn Hloop).
      * destruct (loop_fault env config now tomorrow forceNotify (S i) l _);
          [exact I | now rewrite Hend].
Qed.




(** X2.  A forced run never touches the state table: it makes no state read
    and no state write attempt, and the table after the run is the table
    before it, whatever the schedules and whatever fails. *)
Theorem X2_forced_run_leaves_state (event : option Event) (w : World) :
  getForceNotify env event = true ->
  store (daily env event w).2 = store w
  /\ exists fxs,
       trace (daily env event w).2 = trace w ++ fxs
       /\ reads_of fxs = [] /\ writes_of fxs = [].
Proof.
  intros Hforce. rewrite daily_run.
  assert (Hnone : store w = store w
                  /\ exists fxs, trace w = trace w ++ fxs
                                 /\ reads_of fxs = [] /\ writes_of fxs = []).
  { split; [reflexivity |]. exists []. now rewrite app_nil_r. }
  destruct (loaded_config env) as [e | config]; [exact Hnone |].
  destruct (launch_error env) as [e |].
  { split; [reflexivity |]. exists [FxFetchJoke]. now repeat split. }
  assert (Hrun : store (after_run env config event w) = store w
                 /\ exists fxs, trace (after_run env config event w) = trace w ++ fxs
                                /\ reads_of fxs = [] /\ writes_of fxs = []).
  { unfold after_run, at_launch. rewrite Hforce.
    destruct (after_loop_ok config (now_of env config) (tomorrow_of env config) true
                (addresses config) 0 (log [FxFetchJoke; FxLaunchBrowser] w))
      as (fxs & n & (Ht & _ & _ & _ & _ & _ & _ & _ & Hf & _) & _).
    destruct (Hf eq_refl) as (Hr & Hw & Hs). simpl. split; [exact Hs |].
    exists ([FxFetchJoke; FxLaunchBrowser] ++ fxs ++ [FxCloseBrowser]).
    rewrite Ht. simpl. rewrite <- !app_assoc. split; [reflexivity |].
    change (FxFetchJoke :: FxLaunchBrowser :: fxs ++ [FxCloseBrowser])
      with ([FxFetchJoke; FxLaunchBrowser] ++ fxs ++ [FxCloseBrowser]).
    rewrite !reads_of_app, !writes_of_app, Hr, Hw. now split. }
  destruct (close_error env); exact Hrun.
Qed.



(** X5.  A run changes the state table only under the hashes of the labels
    of configured addresses, only when it is not forced, and every record it
    leaves there carries the target date as its last notified date. *)
Theorem X5_only_configured_keys_change (event : option Event) (w : World) (k : string) :
  store (daily env event w).2 !! k = store w !! k
  \/ exists config a l item,
       loaded_config env = inr config
       /\ In a (addresses config) /\ label_of a = JsString l /\ k = sha256 l
       /\ getForceNotify env event = false
       /\ store (daily env event w).2 !! k = Some item
       /\ lastNotifiedForLocalDate item = Some (tomorrow_of env config).
Proof.
  rewrite daily_run.
  destruct (loaded_config env) as [e | config]; [now left |].
  destruct (launch_error env) as [e |]; [now left |].
  assert (Hrun : store (after_run env config event w) !! k = store w !! k
                 \/ exists a l item,
                      In a (addresses config) /\ label_of a = JsString l /\ k = sha256 l
                      /\ getForceNotify env event = false
                      /\ store (after_run env config event w) !! k = Some item
                      /\ lastNotifiedForLocalDate item = Some (tomorrow_of env config)).
  { unfold after_run, at_launch.
    destruct (after_loop_ok config (now_of env config) (tomorrow_of env config)
                (getForceNotify env event) (addresses config) 0
                (log [FxFetchJoke; FxLaunchBrowser] w))
      as (fxs & n & (_ & _ & _ & _ & _ & _ & _ & _ & _ & Hk) & _).
    destruct (Hk k) as [Heq | (a & item & Ha & (l & Hl & Hkey) & H)]; [now left |].
    right. exists a, l, item. auto. }
  destruct (close_error env); simpl;
    (destruct Hrun as [Heq | (a & l & item & H)];
     [now left | right; exists config, a, l, item; split; [reflexivity | exact H]]).
Qed.

(** X6.  A state write that returns is seen by a later state read: for the
    written key the read answers whether the asked date is the written one,
    and for every other key it answers what it answered before the write. *)
Theorem X6_mark_then_check (i j : nat) (key date key' date' : string)
    (result : ScrapeResult) (w : World) :
  updateItem_error env i = None ->
  getItem_error env j = None ->
  (wasNotifiedForDate env j key' date' (markNotified env i key date result w).2).1
  = if String.eqb key' key then Returned (String.eqb date date')
    else (wasNotifiedForDate env j key' date' w).1.
Proof.
  intros Hu Hg. unfold wasNotifiedForDate, markNotified, bind, emit, get_store, put_store, ret.
  rewrite Hu, Hg. simpl.
  destruct (String.eqb key' key) eqn:E.
  - apply String.eqb_eq in E. subst key'. now rewrite lookup_insert_eq.
  - apply String.eqb_neq in E. rewrite lookup_insert_ne by congruence. reflexivity.
Qed.

Lemma marked_after_turn (config : Config) (now : DateTime) (tomorrow : string)
    (i : nat) (l suffix : string) (recipients_ : list JsValue) (result : ScrapeResult)
    (w : World) :
  suffix_text env config = inr suffix ->
  hasTomorrowOf (collections result) tomorrow = true ->
  updateItem_error env i = None ->
  last_notified
    (store (after_decide env config now tomorrow false i (JsString l) recipients_ result w))
    (sha256 l) = Some tomorrow.
Proof.
  intros Hsuffix Hhas Hu. rewrite (after_decide_cases _ _ _ _ _ _ suffix) by exact Hsuffix.
  simpl. rewrite Hhas. simpl.
  destruct (notified_flag env i (sha256 l) tomorrow w) eqn:Hflag.
  - unfold notified_flag in Hflag. simpl.
    destruct (getItem_error env i); [discriminate |].
    destruct (last_notified (store w) (sha256 l)) as [d |]; [| discriminate].
    apply String.eqb_eq in Hflag. now subst d.
  - unfold after_mark. rewrite Hu. simpl. unfold last_notified.
    rewrite lookup_insert_eq. reflexivity.
Qed.

(** X7.  Once a turn of the loop that is not forced has found an entry on
    the target date and its state write returned, a later turn that is not
    forced, for the same address label and target date and with a working
    state read, sends nothing and writes nothing: it only reads the state,
    and only when its own schedule has an entry on the target date.  (The
    first turn makes its state write unless its message suffix is not a
    text; then it leaves the table as it was.) *)
Theorem X7_second_turn_is_silent (config config' : Config) (now now' : DateTime)
    (tomorrow : string) (i i' : nat) (l : string) (recipients_ recipients' : list JsValue)
    (result result' : ScrapeResult) (w : World) :
  hasTomorrowOf (collections result) tomorrow = true ->
  updateItem_error env i = None ->
  getItem_error env i' = None ->
  let first :=
    decide_and_notify env config now tomorrow false i (JsString l) recipients_ result w in
  match suffix_text env config with
  | inr _ =>
      decide_and_notify env config' now' tomorrow false i' (JsString l) recipients'
                        result' first.2
      = (Returned tt,
         if hasTomorrowOf (collections result') tomorrow
         then log [FxGetItem (sha256 l)] first.2
         else first.2)
  | inl _ => store first.2 = store w
  end.
Proof.
  intros Hhas Hu Hg first. subst first. rewrite !decide_and_notify_run. simpl.
  destruct (suffix_text env config) as [e | suffix] eqn:Hsuffix.
  - unfold after_decide. rewrite Hhas, Hsuffix. simpl.
    now destruct (notified_flag env i (sha256 l) tomorrow w).
  - pose proof (marked_after_turn config now tomorrow i l suffix recipients_ result w
                  Hsuffix Hhas Hu) as Hmarked.
    set (w1 := after_decide env config now tomorrow false i (JsString l) recipients_
                            result w) in *.
    unfold decide_fault, after_decide. simpl.
    destruct (hasTomorrowOf (collections result') tomorrow); simpl; [| reflexivity].
    unfold notified_flag. rewrite Hg, Hmarked, String.eqb_refl. reflexivity.
Qed.

(** X8.  Every state write attempt carries as snapshot the first 3500
    characters of the serialised scrape result: a prefix of it, the whole of
    it when it has at most 3500 characters and exactly 3500 characters
    otherwise; when the write returns, that snapshot is what the record
    under the key holds, with the written date; when it throws, the table
    is as before. *)
Theorem X8_snapshot_is_bounded_prefix (i : nat) (key date : string)
    (result : ScrapeResult) (w : World) :
  exists s written,
    trace (markNotified env i key date result w).2
    = trace w ++ [FxUpdateItem key date s written]
    /\ String.prefix s (JSON_stringify result) = true
    /\ (if Nat.leb (String.length (JSON_stringify result)) 3500
        then s = JSON_stringify result
        else String.length s = 3500%nat)
    /\ match updateItem_error env i with
       | Some e =>
           written = false
           /\ (markNotified env i key date result w).1 = Thrown e
           /\ store (markNotified env i key date result w).2 = store w
       | None =>
           written = true
           /\ exists item,
                store (markNotified env i key date result w).2 !! key = Some item
                /\ lastSnapshot item = Some s
                /\ lastNotifiedForLocalDate item = Some date
       end.
Proof.
  exists (Str.slice0 3500 (JSON_stringify result)).
  exists (match updateItem_error env i with Some _ => false | None => true end).
  unfold markNotified, Str.slice0, bind, emit, get_store, put_store, throw.
  split; [destruct (updateItem_error env i); reflexivity |].
  split; [apply substring0_prefix |].
  split.
  { destruct (Nat.leb_spec (String.length (JSON_stringify result)) 3500) as [Hle | Hgt].
    - now apply substring0_all.
    - rewrite substring0_length. lia. }
  destruct (updateItem_error env i); simpl.
  - now repeat split.
  - split; [reflexivity |]. eexists. rewrite lookup_insert_eq. now repeat split.
Qed.

End RunCoverage.

(** ** Force mode *)

Module ForceFlagFacts.
Import RegExp RegExpSpec RegExpFacts.

Lemma lit_i_inv (w : string) (p p1 : option ascii) (s s1 : list ascii) :
  Matches (lit_i w) p s p1 s1 ->
  exists a, s = a ++ s1 /\ map lower a = map lower (list_ascii_of_string w).
Proof.
  revert p s. induction w as [| c w IH]; intros p s HM; simpl in HM.
  - inversion HM; subst. now exists [].
  - inversion HM as [| | r1 r2 q q1 q2 t t1 t2 H1 H2 | | | | | | |]; subst.
    inversion H1; subst. apply IH in H2. destruct H2 as (a & -> & Ha).
    match goal with H : Ascii.eqb _ _ = true |- _ => apply Ascii.eqb_eq in H; rename H into Hc end.
    exists (c0 :: a). simpl. split; [reflexivity |]. now rewrite Hc, Ha.
Qed.

Lemma lit_i_intro (w : string) (a s1 : list ascii) (p : option ascii) :
  map lower a = map lower (list_ascii_of_string w) ->
  exists p1, Matches (lit_i w) p (a ++ s1) p1 s1.
Proof.
  revert a p. induction w as [| c w IH]; intros a p Ha; simpl in *.
  - destruct a; [| discriminate]. exists p. constructor.
  - destruct a as [| x a]; [discriminate |]. injection Ha as Hx Ha.
    destruct (IH a (Some x) Ha) as [p1 HM]. exists p1. simpl.
    econstructor; [| exact HM]. constructor. now apply Ascii.eqb_eq.
Qed.

Lemma lower_case_eq (v w : string) :
  map lower (list_ascii_of_string v) = map lower (list_ascii_of_string w)
  <-> lower_case v = lower_case w.
Proof.
  unfold lower_case. split; [now intros -> |].
  intros H. apply (f_equal list_ascii_of_string) in H.
  now rewrite !list_ascii_of_string_of_list_ascii in H.
Qed.

Lemma seq_inv (r1 r2 : regex) (p p2 : option ascii) (s s2 : list ascii) :
  Matches (Seq r1 r2) p s p2 s2 ->
  exists p1 s1, Matches r1 p s p1 s1 /\ Matches r2 p1 s1 p2 s2.
Proof. intros HM. inversion HM; subst. eauto. Qed.

Lemma alt_inv (r1 r2 : regex) (p p' : option ascii) (s s' : list ascii) :
  Matches (Alt r1 r2) p s p' s' -> Matches r1 p s p' s' \/ Matches r2 p s p' s'.
Proof. intros HM. inversion HM; subst; auto. Qed.

Lemma bol_inv (p p1 : option ascii) (s s1 : list ascii) :
  Matches Bol p s p1 s1 -> p = None /\ p1 = None /\ s1 = s.
Proof. intros HM. inversion HM; subst. auto. Qed.

Lemma eol_inv (p p1 : option ascii) (s s1 : list ascii) :
  Matches Eol p s p1 s1 -> s = [] /\ s1 = [] /\ p1 = p.
Proof. intros HM. inversion HM; subst. auto. Qed.

Lemma before_None (pre : list ascii) : before None pre = None -> pre = [].
Proof.
  destruct pre as [| c pre] using rev_ind; [reflexivity |].
  unfold before. rewrite last_snoc. discriminate.
Qed.

Lemma force_flag_test (v : string) :
  test Patterns.force_flag v = true <-> force_word v.
Proof.
  rewrite test_occurs. unfold force_word, occurs, Patterns.force_flag. split.
  - intros (pre & rest & p1 & s1 & Hv & HM).
    apply seq_inv in HM. destruct HM as (q1 & t1 & Hbol & HM).
    apply bol_inv in Hbol. destruct Hbol as (Hb & -> & ->).
    apply before_None in Hb. subst pre. simpl in Hv. subst rest.
    apply seq_inv in HM. destruct HM as (q2 & t2 & Halt & Heol).
    apply eol_inv in Heol. destruct Heol as (-> & -> & ->).
    assert (Hw : forall w, Matches (lit_i w) None (list_ascii_of_string v) q2 [] ->
                          lower_case v = lower_case w).
    { intros w Hm. apply lit_i_inv in Hm. destruct Hm as (a & Ha & Hl).
      rewrite app_nil_r in Ha. apply lower_case_eq. now rewrite Ha. }
    apply alt_inv in Halt. destruct Halt as [Hl | Hr].
    + left. exact (Hw "1" Hl).
    + apply alt_inv in Hr. destruct Hr as [Hl | Hr].
      * right; left. exact (Hw "true" Hl).
      * right; right. exact (Hw "yes" Hr).
  - intros Hv. exists [], (list_ascii_of_string v).
    assert (Hw : forall w, lower_case v = lower_case w ->
                          exists p1, Matches (lit_i w) None (list_ascii_of_string v) p1 []).
    { intros w Hm. apply lower_case_eq in Hm.
      destruct (lit_i_intro w (list_ascii_of_string v) [] None Hm) as [p1 HM].
      rewrite app_nil_r in HM. now exists p1. }
    assert (Hone : exists p1,
               Matches (Alt (lit_i "1") (Alt (lit_i "true") (lit_i "yes")))
                       None (list_ascii_of_string v) p1 []).
    { destruct Hv as [Hv | [Hv | Hv]].
      - destruct (Hw "1" Hv) as [p1 HM]. exists p1. now apply MAltL.
      - destruct (Hw "true" Hv) as [p1 HM]. exists p1. apply MAltR. now apply MAltL.
      - destruct (Hw "yes" Hv) as [p1 HM]. exists p1. apply MAltR. now apply MAltR. }
    destruct Hone as [p1 HM]. exists p1, []. split; [reflexivity |].
    unfold before. simpl.
    econstructor; [apply MBol |]. econstructor; [exact HM | apply MEol].
Qed.

Lemma lower_case_cons (c : ascii) (s : string) :
  lower_case (String c s) = String (lower c) (lower_case s).
Proof. reflexivity. Qed.

Lemma lower_case_empty (s : string) : lower_case s = "" -> s = "".
Proof. destruct s; [reflexivity | discriminate]. Qed.

Lemma force_word_truthy (v : string) : force_word v -> Str.truthy v = true.
Proof. destruct v; [| reflexivity]. intros [H | [H | H]]; discriminate. Qed.

Lemma decimal_force_word (n : Z) : force_word (Str.decimal n) <-> n = 1.
Proof.
  split; [| intros ->; left; reflexivity].
  unfold force_word, Str.decimal. intros H.
  destruct (Z.to_int n) as [d | d] eqn:E; simpl in H.
  - destruct d as [| d | d | d | d | d | d | d | d | d | d]; simpl in H;
      rewrite ?lower_case_cons in H;
      try (destruct H as [H | [H | H]]; discriminate).
    destruct H as [H | [H | H]]; try discriminate.
    injection H as H. apply lower_case_empty in H.
    destruct d; try discriminate.
    apply DecimalZ.to_int_inj. rewrite E. reflexivity.
  - rewrite lower_case_cons in H. destruct H as [H | [H | H]]; discriminate.
Qed.

Lemma force_word_chars (v : string) (c : ascii) :
  force_word v -> In c (list_ascii_of_string v) ->
  In (lower c) (list_ascii_of_string "1trueyes").
Proof.
  intros Hv Hc. apply (in_map lower) in Hc.
  destruct Hv as [H | [H | H]];
    [change "1"%string with (lower_case "1") in H
    | change "true"%string with (lower_case "true") in H
    | change "yes"%string with (lower_case "yes") in H];
    apply lower_case_eq in H; rewrite H in Hc; simpl in Hc; simpl; tauto.
Qed.

Lemma force_word_no_comma (v : string) :
  force_word v -> ~ In ","%char (list_ascii_of_string v).
Proof.
  intros Hv Hc. apply (force_word_chars v _ Hv) in Hc. simpl in Hc.
  repeat (destruct Hc as [Hc | Hc]; [discriminate Hc |]). exact Hc.
Qed.

Lemma join_two_has_comma (x y : string) (l : list string) :
  In ","%char (list_ascii_of_string (Str.join "," (x :: y :: l))).
Proof.
  unfold Str.join.
  change (String.concat "," (x :: y :: l))
    with (x +:+ "," +:+ String.concat "," (y :: l)).
  rewrite !StrFacts.list_ascii_app. apply in_or_app. right. now left.
Qed.

(** The texts of the values that switch force mode on. *)
Lemma force_word_to_string :
  forall v : JsValue,
    force_word (Json.to_string v) <-> force_value v.
Proof.
  fix IH 1. intros v.
  destruct v as [| | [|] | n | s | items | fields].
  - split; [intros [H | [H | H]]; discriminate | contradiction].
  - split; [intros [H | [H | H]]; discriminate | contradiction].
  - split; [reflexivity | intros _; right; left; reflexivity].
  - split; [intros [H | [H | H]]; discriminate | discriminate].
  - apply decimal_force_word.
  - reflexivity.
  - destruct items as [| item [| item2 rest]].
    + split; [intros [H | [H | H]]; discriminate | contradiction].
    + specialize (IH item).
      destruct item; simpl in *; try exact IH;
        (split; [intros [H | [H | H]]; discriminate | contradiction]).
    + split; [| contradiction]. intros H. apply force_word_no_comma in H.
      destruct H. simpl Json.to_string. apply join_two_has_comma.
  - split; [intros [H | [H | H]]; discriminate | contradiction].
Qed.

Lemma force_word_or_empty (v : JsValue) :
  force_word (Json.or_empty v) <-> force_value v.
Proof.
  unfold Json.or_empty. destruct (Json.truthy v) eqn:Ht.
  - apply force_word_to_string.
  - rewrite <- force_word_to_string.
    assert (Hno : ~ force_word "") by (intros [H | [H | H]]; discriminate).
    split; [now intros H |]. intros H. exfalso.
    destruct v as [| | [|] | n | s | items | fields]; try discriminate Ht.
    + destruct H as [H | [H | H]]; discriminate.
    + destruct H as [H | [H | H]]; discriminate.
    + destruct H as [H | [H | H]]; discriminate.
    + simpl in Ht. apply negb_false_iff, Z.eqb_eq in Ht. subst n.
      destruct H as [H | [H | H]]; discriminate.
    + apply force_word_truthy in H. simpl in Ht, H. congruence.
Qed.

End ForceFlagFacts.

Section ForceNotify.

Context {luxon : LuxonApi} {host : HostApi}.

(** X9.  Force mode is on exactly when the FORCE_NOTIFY variable is 1, true
    or yes in any letter case, or the event carries a forceNotify that is
    the boolean true, the number 1, a string that is 1, true or yes in any
    letter case, or an array whose only element is such a value (its text
    is the text of that element); nothing else switches it on. *)
Theorem X9_force_mode_switch (env : Env) (event : option Event) :
  getForceNotify env event = true
  <-> (exists v, env_FORCE_NOTIFY env = Some v /\ force_word v)
      \/ (exists ev, event = Some ev /\ force_value (forceNotify_field ev)).
Proof.
  unfold getForceNotify. rewrite orb_true_iff.
  apply Morphisms_Prop.or_iff_morphism.
  - destruct (env_FORCE_NOTIFY env) as [v |].
    + rewrite andb_true_iff, ForceFlagFacts.force_flag_test. split.
      * intros [_ H]. now exists v.
      * intros (v' & [= <-] & H). split; [now apply ForceFlagFacts.force_word_truthy | exact H].
    + split; [discriminate | now intros (v & [=] & _)].
  - destruct event as [ev |].
    + assert (Hv : match forceNotify_field ev with
                   | JsBool true => true
                   | _ => false
                   end
                   || RegExp.test Patterns.force_flag (Json.or_empty (forceNotify_field ev))
                   = true <-> force_value (forceNotify_field ev)).
      { rewrite orb_true_iff, ForceFlagFacts.force_flag_test,
          ForceFlagFacts.force_word_or_empty.
        split; [| now right]. intros [H | H]; [| exact H].
        destruct (forceNotify_field ev) as [| | [|] | n | s | items | fields];
          try discriminate H. reflexivity. }
      rewrite Hv. split; [now exists ev | now intros (ev' & [= <-] & H)].
    + split; [discriminate | now intros (ev & [=] & _)].
Qed.

End ForceNotify.

(** ** The composer *)

Section ComposerFacts.

Context {luxon : LuxonApi}.
Import StrFacts.

(** X10.  For a day of the month the suffix the handler picks is the English
    ordinal suffix. *)
Theorem X10_ordinal_suffix_english (day : Z) :
  1 <= day <= 31 -> ordinal_suffix day = english_ordinal day.
Proof.
  intros Hday.
  assert (H : exists n : nat, (n < 31)%nat /\ day = 1 + Z.of_nat n).
  { exists (Z.to_nat (day - 1)). lia. }
  destruct H as (n & Hn & ->).
  do 31 (destruct n as [| n]; [reflexivity |]). lia.
Qed.

Lemma escapeHtml_app (a b : string) :
  escapeHtml (a +:+ b) = escapeHtml a +:+ escapeHtml b.
Proof. unfold escapeHtml. now rewrite !replace_char_app. Qed.

Lemma escapeHtml_char (c : ascii) : escapeHtml (String c EmptyString) = entity c.
Proof.
  unfold escapeHtml, entity. simpl.
  destruct (Ascii.eqb c "&") eqn:E1; [reflexivity |]. simpl.
  destruct (Ascii.eqb c "<") eqn:E2; [reflexivity |]. simpl.
  destruct (Ascii.eqb c ">") eqn:E3; [reflexivity |]. simpl.
  destruct (Ascii.eqb c Str.double_quote) eqn:E4; [reflexivity |]. simpl.
  destruct (Ascii.eqb c "'") eqn:E5; reflexivity.
Qed.

Lemma escapeHtml_pass (value : string) : escapeHtml value = escape_once value.
Proof.
  induction value as [| c s IH]; [reflexivity |].
  change (String c s) with (String c EmptyString +:+ s).
  rewrite escapeHtml_app, escapeHtml_char, IH. reflexivity.
Qed.

(** X11.  The five replacements of [escapeHtml], made one after the other
    over the whole text, amount to one pass that replaces each character by
    its entity: no ampersand of an entity is escaped again. *)
Theorem X11_escapeHtml_one_pass (value : string) :
  escapeHtml value = escape_once value.
Proof. apply escapeHtml_pass. Qed.

Lemma entity_safe (c x : ascii) :
  In x (list_ascii_of_string (entity c)) ->
  x <> "<"%char /\ x <> ">"%char /\ x <> Str.double_quote /\ x <> "'"%char.
Proof.
  unfold entity.
  destruct (Ascii.eqb c "&") eqn:E1;
    [simpl; intros H; repeat (destruct H as [<- | H]; [repeat split; discriminate |]); contradiction |].
  destruct (Ascii.eqb c "<") eqn:E2;
    [simpl; intros H; repeat (destruct H as [<- | H]; [repeat split; discriminate |]); contradiction |].
  destruct (Ascii.eqb c ">") eqn:E3;
    [simpl; intros H; repeat (destruct H as [<- | H]; [repeat split; discriminate |]); contradiction |].
  destruct (Ascii.eqb c Str.double_quote) eqn:E4;
    [simpl; intros H; repeat (destruct H as [<- | H]; [repeat split; discriminate |]); contradiction |].
  destruct (Ascii.eqb c "'") eqn:E5;
    [simpl; intros H; repeat (destruct H as [<- | H]; [repeat split; discriminate |]); contradiction |].
  simpl. intros [<- | []].
  apply Ascii.eqb_neq in E2, E3, E4, E5. auto.
Qed.

(** X12.  Escaped text holds no angle bracket and no quote character,
    whatever the text was. *)
Theorem X12_escapeHtml_output_is_inert (value : string) (x : ascii) :
  In x (list_ascii_of_string (escapeHtml value)) ->
  x <> "<"%char /\ x <> ">"%char /\ x <> Str.double_quote /\ x <> "'"%char.
Proof.
  induction value as [| c s IH]; [contradiction |].
  change (String c s) with (String c EmptyString +:+ s).
  rewrite escapeHtml_app, list_ascii_app, escapeHtml_char, in_app_iff.
  intros [H | H]; [now apply (entity_safe c) | now apply IH].
Qed.

(** X13.  The HTML body is absent exactly when there is nothing to show: no
    table, an empty summary line, a suffix that is blank and no joke. *)
Theorem X13_html_body_absent (summaryLine messageSuffix : string)
    (tableHtml dadJoke : option string) :
  buildHtmlEmailBody summaryLine messageSuffix tableHtml dadJoke = None
  <-> opt_truthy tableHtml = false
      /\ summaryLine = ""
      /\ Str.trim messageSuffix = ""
      /\ opt_truthy dadJoke = false.
Proof.
  unfold buildHtmlEmailBody.
  assert (Ht : forall s, Str.truthy s = false <-> s = "").
  { intros [| c s]; simpl; split; congruence. }
  destruct (opt_truthy tableHtml) eqn:E1; simpl.
  { split; [discriminate | now intros [? _]]. }
  destruct (Str.truthy summaryLine) eqn:E2; simpl.
  { split; [discriminate |]. intros (_ & -> & _). discriminate. }
  apply Ht in E2.
  destruct (Str.truthy (Str.trim messageSuffix)) eqn:E3; simpl.
  { split; [discriminate |]. intros (_ & _ & H & _). rewrite H in E3. discriminate. }
  apply Ht in E3.
  destruct (opt_truthy dadJoke) eqn:E4; simpl.
  { split; [discriminate | now intros (_ & _ & _ & ?)]. }
  split; auto.
Qed.

(** X14.  Every message of the handler has an HTML body, its parts joined
    by line feeds.  When the scrape kept a table, the first part is that
    table as scraped, not escaped, and the summary paragraph is left out:
    the parts that follow are the closing parts, which every message with
    the same suffix and joke has, whatever the address, the dates and the
    schedule.  Otherwise the first part is the paragraph of the summary
    line, escaped, and the closing parts follow it.  There is no closing
    part exactly when the suffix is blank and there is no joke. *)
Theorem X14_message_has_html (messageSuffix : string) (dadJoke : option string) :
  exists closing : list string,
    (closing = [] <-> Str.trim messageSuffix = "" /\ opt_truthy dadJoke = false)
    /\ forall (label_ tomorrow announceDate : string) (result : ScrapeResult),
         htmlBody (compose label_ tomorrow announceDate messageSuffix result dadJoke)
         = Some (Str.join (String "010"%char EmptyString)
                   ((if opt_truthy (tableHtml result) then default "" (tableHtml result)
                     else "<p>"
                          +:+ escape_once (summaryLineOf label_ tomorrow announceDate result)
                          +:+ "</p>")
                    :: closing)).
Proof.
  exists ((if Str.truthy (Str.trim messageSuffix)
           then ["<p>" +:+ Str.replace_char "010"%char "<br>"
                             (escapeHtml (Str.trim messageSuffix)) +:+ "</p>"]
           else [])
          ++ (if opt_truthy dadJoke
              then ["<p><em>Dad joke of the day:</em> "
                    +:+ escapeHtml (default "" dadJoke) +:+ "</p>"]
              else [])).
  split.
  - destruct (Str.trim messageSuffix) as [| c t]; simpl.
    + destruct (opt_truthy dadJoke); simpl; split; try discriminate; auto.
      intros [_ H]. discriminate H.
    + split; [discriminate | intros [H _]; discriminate H].
  - intros label_ tomorrow announceDate result.
    unfold compose. cbv zeta. simpl htmlBody. unfold buildHtmlEmailBody.
    assert (Hs : Str.truthy (summaryLineOf label_ tomorrow announceDate result) = true)
      by reflexivity.
    rewrite Hs, <- escapeHtml_pass.
    destruct (opt_truthy (tableHtml result)); reflexivity.
Qed.

End ComposerFacts.

Section TextLines.

Context {luxon : LuxonApi}.

(** X15.  The lines the text fallback scans are never empty, begin with no
    white space, end with none and hold no line feed. *)
Theorem X15_text_lines_are_clean (raw line : string) :
  In line (text_lines raw) ->
  line <> ""
  /\ starts_clean line
  /\ ends_clean line
  /\ Str.trim line = line
  /\ ~ In "010"%char (list_ascii_of_string line).
Proof.
  unfold text_lines. rewrite filter_In, in_map_iff.
  intros [(piece & <- & Hpiece) Htruthy]. split; [| split; [| split; [| split]]].
  - intros Hempty. rewrite Hempty in Htruthy. discriminate.
  - apply StrFacts.trim_end_clean, StrFacts.trim_start_clean.
  - apply StrFacts.trim_end_ends_clean.
  - apply StrFacts.trim_idem.
  - intros Hlf. apply StrFacts.trim_chars in Hlf. revert Hlf.
    apply (StrFacts.split_lf_aux_chars raw EmptyString false piece); [simpl; tauto |].
    exact Hpiece.
Qed.

End TextLines.

(** ** The page scripts *)

Module PageFacts.
Import Page StrFacts.









Lemma first_with_rows_find (seen : list nat) (order : list TableNode) :
  identified order ->
  (forall t, In t order -> In (node_id t) seen -> extractRows t = []) ->
  first_with_rows seen order = picked (first_readable order).
Proof.
  revert seen. induction order as [| t order IH]; intros seen Hid Hseen; [reflexivity |].
  assert (Hid' : identified order).
  { intros a b Ha Hb. apply Hid; now right. }
  simpl. unfold first_readable. simpl.
  destruct (existsb (Nat.eqb (node_id t)) seen) eqn:Es.
  - assert (Hnone : extractRows t = []).
    { apply Hseen; [now left |]. apply existsb_exists in Es.
      destruct Es as (n & Hn & Heq). apply Nat.eqb_eq in Heq. now subst n. }
    rewrite Hnone. simpl. apply IH; [exact Hid' |].
    intros t' Ht'. apply Hseen. now right.
  - destruct (Nat.ltb 0 (length (extractRows t))) eqn:El; [reflexivity |].
    apply IH; [exact Hid' |].
    intros t' Ht' [Heq | Hin].
    + assert (t = t') by (apply Hid; [now left | now right | exact Heq]). subst t'.
      destruct (extractRows t); [reflexivity | discriminate].
    + apply Hseen; [now right | exact Hin].
Qed.

Lemma first_with_rows_html (seen : list nat) (order : list TableNode) :
  rows (first_with_rows seen order) = [] <-> html (first_with_rows seen order) = None.
Proof.
  revert seen. induction order as [| t order IH]; intros seen; simpl; [tauto |].
  destruct (existsb (Nat.eqb (node_id t)) seen); [apply IH |].
  destruct (Nat.ltb 0 (length (extractRows t))) eqn:El; simpl; [| apply IH].
  split; [| discriminate]. intros H. rewrite H in El. discriminate.
Qed.

End PageFacts.

Section PageTheorems.

Context {luxon : LuxonApi}.


(** X17.  When the nodes of the document are told apart by their identity,
    the page script returns the rows and the markup of the first table, the
    element with id table2 coming before the tables in document order, from
    which rows can be read; skipping a node met before changes nothing. *)
Theorem X17_first_readable_table (doc : Page.Document) :
  identified (Page.tableOrder doc) ->
  Page.tableData_of doc = picked (first_readable (Page.tableOrder doc)).
Proof.
  intros Hid. apply PageFacts.first_with_rows_find; [exact Hid | contradiction].
Qed.

(** X18.  The page script returns markup exactly when it returns rows; when
    it returns none, the scrape result carries no table markup, whatever
    the text of the page. *)
Theorem X18_markup_only_with_rows (TZ : option string) (doc : Page.Document)
    (text : string) :
  match rows (Page.tableData_of doc) with
  | [] =>
      html (Page.tableData_of doc) = None
      /\ tableHtml (extractCollections TZ {| tableData := Page.tableData_of doc;
                                             innerText := text |}) = None
  | _ :: _ => html (Page.tableData_of doc) <> None
  end.
Proof.
  pose proof (PageFacts.first_with_rows_html [] (Page.tableOrder doc)) as H.
  fold (Page.tableData_of doc) in H.
  destruct (rows (Page.tableData_of doc)) as [| r rs] eqn:Hrows.
  - assert (Hh : html (Page.tableData_of doc) = None) by now apply H.
    split; [exact Hh |].
    unfold extractCollections. simpl. rewrite Hrows. simpl. now rewrite Hh.
  - intros Hh. apply H in Hh. discriminate.
Qed.

End PageTheorems.

Module JsFacts.

Lemma prefix_refl (s : string) : String.prefix s s = true.
Proof.
  induction s as [| c s IH]; [reflexivity |]. simpl.
  destruct (ascii_dec c c); [exact IH | congruence].
Qed.

Lemma prefix_split (a b : string) :
  String.prefix a b = true <-> exists post, b = a +:+ post.
Proof.
  revert b. induction a as [| c a IH]; intros b; simpl.
  - split; [intros _; now exists b | intros _; destruct b; reflexivity].
  - destruct b as [| d b]; [split; [discriminate | intros [post H]; discriminate] |].
    simpl. destruct (ascii_dec c d) as [<- | Hne].
    + rewrite IH. split; intros [post H]; exists post.
      * now rewrite H.
      * now injection H.
    + split; [discriminate |]. intros [post H]. injection H as H _. congruence.
Qed.

Lemma includes_cons (needle : string) (c : ascii) (hay : string) :
  Js.includes needle (String c hay)
  = String.prefix needle (String c hay) || Js.includes needle hay.
Proof. reflexivity. Qed.

Lemma includes_nil (needle : string) :
  Js.includes needle "" = String.prefix needle "" || false.
Proof. reflexivity. Qed.

(** [includes] holds exactly of the texts that hold the needle. *)
Lemma includes_split (needle hay : string) :
  Js.includes needle hay = true <-> exists pre post, hay = pre +:+ needle +:+ post.
Proof.
  induction hay as [| c hay IH].
  - rewrite includes_nil, orb_false_r, prefix_split. split.
    + intros [post H]. now exists "", post.
    + intros (pre & post & H). destruct pre; [now exists post | discriminate].
  - rewrite includes_cons, orb_true_iff, prefix_split, IH. split.
    + intros [[post H] | (pre & post & H)].
      * now exists "", post.
      * exists (String c pre), post. now rewrite H.
    + intros (pre & post & H). destruct pre as [| d pre].
      * left. now exists post.
      * right. injection H as _ H. now exists pre, post.
Qed.

Lemma includes_refl (s : string) : Js.includes s s = true.
Proof. destruct s; [reflexivity |]. now rewrite includes_cons, prefix_refl. Qed.

Lemma includes_empty (s : string) : Js.includes "" s = true.
Proof. destruct s; reflexivity. Qed.

Lemma find_index_ext {A : Type} (p q : A -> bool) (l : list A) :
  (forall x, p x = q x) -> Js.find_index p l = Js.find_index q l.
Proof. intros H. induction l as [| x l IH]; simpl; [reflexivity |]. now rewrite H, IH. Qed.

Lemma find_index_None {A : Type} (p : A -> bool) (l : list A) :
  Js.find_index p l = None <-> existsb p l = false.
Proof.
  induction l as [| x l IH]; simpl; [tauto |].
  destruct (p x); simpl; [split; discriminate |].
  rewrite <- IH. destruct (Js.find_index p l); simpl; split; congruence.
Qed.

End JsFacts.

Module AddressInputFacts.
Import AddressInput.

Lemma best_step_keeps (acc : option (Element * Z)) (processed : list Element) (el : Element) :
  best_so_far acc processed -> best_so_far (best_step acc el) (processed ++ [el]).
Proof.
  unfold best_so_far, best_step. destruct acc as [[best bestScore] |].
  - intros [-> (pre & post & -> & Hpre & Hpost)].
    destruct (Z.ltb_spec (scoreOf best) (scoreOf el)) as [Hlt | Hge].
    + split; [reflexivity |]. exists (pre ++ best :: post), [].
      split; [reflexivity |]. split; [| contradiction].
      intros x Hx. apply in_app_iff in Hx. destruct Hx as [Hx | [<- | Hx]].
      * specialize (Hpre x Hx). lia.
      * exact Hlt.
      * specialize (Hpost x Hx). lia.
    + split; [reflexivity |]. exists pre, (post ++ [el]).
      split; [now rewrite <- app_assoc |]. split; [exact Hpre |].
      intros x Hx. apply in_app_iff in Hx. destruct Hx as [Hx | [<- | []]]; [auto | exact Hge].
  - intros ->. split; [reflexivity |]. exists [], []. simpl. now repeat split.
Qed.

Lemma best_loop (l processed : list Element) (acc : option (Element * Z)) :
  best_so_far acc processed ->
  best_so_far (fold_left best_step l acc) (processed ++ l).
Proof.
  revert processed acc. induction l as [| el l IH]; intros processed acc H; simpl.
  - now rewrite app_nil_r.
  - replace (processed ++ el :: l) with ((processed ++ [el]) ++ l)
      by now rewrite <- app_assoc.
    apply IH, best_step_keeps, H.
Qed.

Lemma best_of_spec (candidates : list Element) :
  match best_of candidates with
  | Some best => first_maximum candidates best
  | None => candidates = []
  end.
Proof.
  unfold best_of. pose proof (best_loop candidates [] None eq_refl) as H. simpl in H.
  destruct (fold_left best_step candidates None) as [[best sc] |]; simpl.
  - apply H.
  - exact H.
Qed.

End AddressInputFacts.

(** X19.  Among the candidates the script picks the first one with the
    highest score: every earlier candidate scores strictly less and no
    later one scores more; it picks nothing only when there is no
    candidate. *)
Theorem X19_best_is_first_maximum (candidates : list AddressInput.Element) :
  match AddressInput.best_of candidates with
  | Some best => first_maximum candidates best
  | None => candidates = []
  end.
Proof. apply AddressInputFacts.best_of_spec. Qed.

(** X20.  The address input the script returns is a visible element of the
    form.  Visible inputs come first: when there is one, neither the
    autoLookup field nor the editable elements are looked at.  The script
    returns nothing exactly when no input, no autoLookup field and no
    editable element is visible. *)
Theorem X20_address_input_is_visible (form : AddressInput.Form) :
  match AddressInput.address_input form with
  | Some el =>
      AddressInput.el_visible el = true
      /\ (In el (AddressInput.inputs form)
          \/ (List.filter AddressInput.el_visible (AddressInput.inputs form) = []
              /\ (AddressInput.inAuto form = Some el \/ In el (AddressInput.editables form))))
  | None =>
      List.filter AddressInput.el_visible (AddressInput.inputs form) = []
      /\ match AddressInput.inAuto form with
         | Some el => AddressInput.el_visible el = false
         | None => True
         end
      /\ List.filter AddressInput.el_visible (AddressInput.editables form) = []
  end.
Proof.
  unfold AddressInput.address_input.
  assert (Hbest : forall l : list AddressInput.Element,
             match AddressInput.best_of (List.filter AddressInput.el_visible l) with
             | Some el => AddressInput.el_visible el = true /\ In el l
             | None => List.filter AddressInput.el_visible l = []
             end).
  { intros l. pose proof (AddressInputFacts.best_of_spec (List.filter AddressInput.el_visible l)) as H.
    destruct (AddressInput.best_of (List.filter AddressInput.el_visible l)) as [el |]; [| exact H].
    destruct H as (pre & post & H & _).
    assert (Hin : In el (List.filter AddressInput.el_visible l)).
    { rewrite H. apply in_app_iff. right. now left. }
    apply filter_In in Hin. tauto. }
  destruct (List.filter AddressInput.el_visible (AddressInput.inputs form)) as [| c cs] eqn:Ec.
  - simpl.
    pose proof (Hbest (AddressInput.editables form)) as He.
    destruct (AddressInput.inAuto form) as [a |] eqn:Ea.
    + destruct (AddressInput.el_visible a) eqn:Ev.
      * split; [exact Ev |]. right. split; [reflexivity | now left].
      * destruct (AddressInput.best_of _) as [el |].
        -- destruct He as [Hv Hin]. split; [exact Hv |]. right. split; [reflexivity | now right].
        -- split; [reflexivity |]. split; [reflexivity | exact He].
    + destruct (AddressInput.best_of _) as [el |].
      * destruct He as [Hv Hin]. split; [exact Hv |]. right. split; [reflexivity | now right].
      * split; [reflexivity |]. split; [exact I | exact He].
  - simpl. rewrite <- Ec.
    pose proof (Hbest (AddressInput.inputs form)) as Hi.
    destruct (AddressInput.best_of _) as [el |].
    + destruct Hi as [Hv Hin]. split; [exact Hv | now left].
    + rewrite Ec in Hi. discriminate.
Qed.

(** X21.  The score of an element whose type names a date or a time lies
    between -3 and 8; the score of any other element lies between 0 and 11,
    so only the former can score below zero. *)
Theorem X21_score_range (el : AddressInput.Element) :
  if RegExp.test AddressInput.date_types (default "" (AddressInput.el_type el))
  then -3 <= AddressInput.scoreOf el <= 8
  else 0 <= AddressInput.scoreOf el <= 11.
Proof.
  unfold AddressInput.scoreOf. cbv zeta.
  destruct (RegExp.test AddressInput.lookup_words _);
    destruct (RegExp.test AddressInput.text_types _);
    destruct (RegExp.test AddressInput.date_types _);
    destruct (AddressInput.el_field el) as [content |];
    try destruct (Js.includes "address" _);
    try destruct (Js.includes "postcode" _);
    lia.
Qed.

(** X22.  [clickByText] clicks for the first label, in the order given, that
    the text of some element contains, and then the first such element in
    document order; the equality test of the script adds nothing to the
    containment test. *)
Theorem X22_click_first_label_first_element (clickable labels : list string) :
  Click.clickByText clickable labels
  = match List.find (fun l => existsb (contains l) clickable) labels with
    | Some l => Js.find_index (contains l) clickable
    | None => None
    end.
Proof.
  assert (Hm : forall wantedRaw content,
             Click.matches content (Click.norm wantedRaw) = contains wantedRaw content).
  { intros wantedRaw content. unfold Click.matches, contains.
    destruct (String.eqb_spec (Click.norm content) (Click.norm wantedRaw)) as [-> | Hne].
    - now rewrite JsFacts.includes_refl.
    - reflexivity. }
  induction labels as [| l labels IH]; simpl; [reflexivity |].
  rewrite (JsFacts.find_index_ext _ (contains l)) by (intros x; apply Hm).
  destruct (existsb (contains l) clickable) eqn:Ee.
  - destruct (Js.find_index (contains l) clickable) eqn:Ef; [reflexivity |].
    apply JsFacts.find_index_None in Ef. congruence.
  - apply JsFacts.find_index_None in Ee. rewrite Ee. exact IH.
Qed.

(** X23.  A label that is blank is contained in every text: tried first, it
    clicks the first clickable element, whatever that element is. *)
Theorem X23_blank_label_clicks_first (label_ content : string)
    (clickable labels : list string) :
  Str.trim label_ = "" ->
  Click.clickByText (content :: clickable) (label_ :: labels) = Some 0%nat.
Proof.
  intros Hblank. simpl. unfold Click.matches, Click.norm at 1 3. rewrite Hblank. simpl.
  now rewrite JsFacts.includes_empty, orb_true_r.
Qed.

(** ** Mail transport and the joke *)

Module MailFacts.
Import Mail.

Lemma find_snoc {A : Type} (q : A -> bool) (l : list A) (x : A) :
  List.find q (l ++ [x])
  = match List.find q l with
    | Some y => Some y
    | None => if q x then Some x else None
    end.
Proof.
  induction l as [| a l IH]; simpl; [reflexivity |].
  destruct (q a); [reflexivity | exact IH].
Qed.

Lemma param_fold (key : string) (ps : list SsmParameter) (m : gmap string (option string)) :
  param (fold_left (fun params p => <[last_segment (param_Name p) := param_Value p]> params)
                   ps m) key
  = match List.find (fun p => String.eqb (last_segment (param_Name p)) key) (rev ps) with
    | Some p => param_Value p
    | None => param m key
    end.
Proof.
  revert m. induction ps as [| p ps IH]; intros m; simpl; [reflexivity |].
  rewrite IH, find_snoc.
  destruct (List.find _ (rev ps)); [reflexivity |].
  unfold param. destruct (String.eqb_spec (last_segment (param_Name p)) key) as [-> | Hne].
  - now rewrite lookup_insert_eq.
  - now rewrite lookup_insert_ne.
Qed.

Lemma param_of_parameters (key : string) (parameters : option (list SsmParameter)) :
  param (params_of parameters) key = last_value key (default [] parameters).
Proof.
  unfold params_of, last_value. rewrite param_fold.
  destruct (List.find _ _); [reflexivity |]. unfold param. now rewrite lookup_empty.
Qed.

End MailFacts.

(** X24.  When the Parameter Store answers, each credential is the value of
    the last parameter whose name ends in its segment, and is missing when
    there is no such parameter: the environment variables are not read.
    They are read, all four, only when the call to the Parameter Store
    fails. *)
Theorem X24_credentials_source (env : Mail.MailEnv) :
  match Mail.ssm_send env with
  | inr parameters =>
      Mail.getGmailCredentials env
      = {| Mail.clientId := last_value "gmail-client-id" (default [] parameters);
           Mail.clientSecret := last_value "gmail-client-secret" (default [] parameters);
           Mail.refreshToken := last_value "gmail-refresh-token" (default [] parameters);
           Mail.sender := last_value "gmail-sender" (default [] parameters) |}
  | inl _ =>
      Mail.getGmailCredentials env
      = {| Mail.clientId := Mail.env_GMAIL_CLIENT_ID env;
           Mail.clientSecret := Mail.env_GMAIL_CLIENT_SECRET env;
           Mail.refreshToken := Mail.env_GMAIL_REFRESH_TOKEN env;
           Mail.sender := Mail.env_GMAIL_SENDER env |}
  end.
Proof.
  unfold Mail.getGmailCredentials.
  destruct (Mail.ssm_send env) as [e | parameters]; [reflexivity |].
  now rewrite !MailFacts.param_of_parameters.
Qed.

(** X25.  [sendEmail] hands a message to the Gmail API exactly when all four
    credentials are there and none is empty, and then exactly one, its
    outcome being that of the API call; otherwise it returns normally
    without sending anything. *)
Theorem X25_send_needs_all_credentials (env : Mail.MailEnv)
    (toEmail subject_ text : string) (html_ : option string) :
  if all_present (Mail.getGmailCredentials env)
  then exists raw,
         Mail.sendEmail env toEmail subject_ text html_
         = (match Mail.gmail_send env raw with
            | Some e => Thrown e
            | None => Returned tt
            end, [raw])
  else Mail.sendEmail env toEmail subject_ text html_ = (Returned tt, []).
Proof.
  unfold Mail.sendEmail, all_present.
  destruct (Mail.getGmailCredentials env) as [[id |] [secret |] [token |] [from |]];
    simpl; rewrite ?andb_false_r; try reflexivity.
  destruct (Str.truthy id && Str.truthy secret && Str.truthy token && Str.truthy from);
    [| reflexivity].
  exists (Mail.encode (Mail.mime_message env from toEmail subject_ text (Mail.kept_html html_))).
  destruct (Mail.gmail_send env _); reflexivity.
Qed.

(** X27.  The joke the handler uses is either absent or a text that is not
    empty and has no white space at its ends: the promise never rejects, a
    joke that is not a string or is blank gives none, and so does every
    failure of the request. *)
Theorem X27_joke_is_absent_or_trimmed (response : DadJoke.AxiosFailure + JsValue) :
  match DadJoke.dadJokePromise response with
  | Some joke =>
      joke <> "" /\ Str.trim joke = joke
      /\ exists raw, response = inr (JsString raw) /\ joke = Str.trim raw
  | None =>
      match response with
      | inr (JsString raw) => Str.trim raw = ""
      | _ => True
      end
  end.
Proof.
  unfold DadJoke.dadJokePromise, DadJoke.fetchDadJokeWithTimeout.
  destruct response as [[e | e] | [| | b | n | raw | items | fields]]; try exact I.
  destruct (Str.truthy (Str.trim raw)) eqn:E.
  - split; [intros H; rewrite H in E; discriminate |].
    split; [apply StrFacts.trim_idem | now exists raw].
  - destruct (Str.trim raw); [reflexivity | discriminate].
Qed.

Module EncodeFacts.
Import Mail StrFacts.

Lemma digit64_in (i : N) : (i < 64)%N -> in_alphabet (digit64 i) = true.
Proof.
  intros Hi.
  assert (H : exists n : nat, (n < 64)%nat /\ i = N.of_nat n).
  { exists (N.to_nat i). lia. }
  destruct H as (n & Hn & ->).
  do 64 (destruct n as [| n]; [vm_compute; reflexivity |]). lia.
Qed.

Lemma list_ind3 {A : Type} (P : list A -> Prop) :
  P [] -> (forall a, P [a]) -> (forall a b, P [a; b]) ->
  (forall a b c rest, P rest -> P (a :: b :: c :: rest)) ->
  forall l, P l.
Proof.
  intros H0 H1 H2 H3.
  assert (H : forall l, P l /\ (forall a, P (a :: l)) /\ (forall a b, P (a :: b :: l))).
  { induction l as [| x l (IH0 & IH1 & IH2)]; [auto |].
    split; [apply IH1 |]. split; [intros a; apply IH2 |].
    intros a b. now apply H3. }
  intros l. apply H.
Qed.

Lemma base64_shape (bytes : list N) :
  Forall (fun b => (b < 256)%N) bytes ->
  exists body pad,
    base64 bytes = body +:+ pad
    /\ chars_ok body
    /\ (pad = "" \/ pad = "=" \/ pad = "==")
    /\ String.length body = ((4 * length bytes + 2) / 3)%nat.
Proof.
  induction bytes as [| a | a b | a b c rest IH] using list_ind3; intros Hb.
  - exists "", "". repeat split; [constructor | now left].
  - inversion Hb as [| x l Ha _]; subst.
    exists (String (digit64 (a / 4)) (String (digit64 (a mod 4 * 16)) "")), "==".
    split; [reflexivity |]. split; [| split; [auto | reflexivity]].
    repeat constructor; apply digit64_in.
    + apply N.Div0.div_lt_upper_bound. lia.
    + assert (a mod 4 < 4)%N by (apply N.mod_lt; lia). lia.
  - inversion Hb as [| x l Ha Hb']; subst. inversion Hb' as [| x l Hb2 _]; subst.
    exists (String (digit64 (a / 4))
              (String (digit64 (a mod 4 * 16 + b / 16))
                 (String (digit64 (b mod 16 * 4)) ""))), "=".
    split; [reflexivity |]. split; [| split; [auto | reflexivity]].
    assert (a mod 4 < 4)%N by (apply N.mod_lt; lia).
    assert (b mod 16 < 16)%N by (apply N.mod_lt; lia).
    assert (b / 16 < 16)%N by (apply N.Div0.div_lt_upper_bound; lia).
    repeat constructor; apply digit64_in; try lia.
    apply N.Div0.div_lt_upper_bound. lia.
  - inversion Hb as [| x l Ha Hb1]; subst. inversion Hb1 as [| x l Hb2 Hb3]; subst.
    inversion Hb3 as [| x l Hc Hrest]; subst.
    destruct (IH Hrest) as (body & pad & Hbody & Hok & Hpad & Hlen).
    exists (String (digit64 (a / 4))
              (String (digit64 (a mod 4 * 16 + b / 16))
                 (String (digit64 (b mod 16 * 4 + c / 64))
                    (String (digit64 (c mod 64)) body)))), pad.
    split; [simpl; now rewrite Hbody |]. split; [| split; [exact Hpad |]].
    + assert (a mod 4 < 4)%N by (apply N.mod_lt; lia).
      assert (b mod 16 < 16)%N by (apply N.mod_lt; lia).
      assert (b / 16 < 16)%N by (apply N.Div0.div_lt_upper_bound; lia).
      assert (c / 64 < 4)%N by (apply N.Div0.div_lt_upper_bound; lia).
      assert (c mod 64 < 64)%N by (apply N.mod_lt; lia).
      repeat (constructor; [apply digit64_in; try lia |]); [| exact Hok].
      apply N.Div0.div_lt_upper_bound. lia.
    + simpl String.length. rewrite Hlen. simpl length.
      replace (4 * S (S (S (length rest))) + 2)%nat with ((4 * length rest + 2) + 4 * 3)%nat by lia.
      rewrite Nat.div_add by lia. lia.
Qed.

Lemma url_form_app (a b : string) : url_form (a +:+ b) = url_form a +:+ url_form b.
Proof. unfold url_form. now rewrite !replace_char_app. Qed.

Lemma url_form_char (c : ascii) : url_form (String c "") = String (to_url c) "".
Proof.
  unfold url_form, to_url. simpl.
  destruct (Ascii.eqb c "+") eqn:E1; [reflexivity |]. simpl.
  destruct (Ascii.eqb c "/") eqn:E2; reflexivity.
Qed.

Lemma url_form_cons (c : ascii) (s : string) :
  url_form (String c s) = String (to_url c) (url_form s).
Proof.
  change (String c s) with (String c "" +:+ s).
  now rewrite url_form_app, url_form_char.
Qed.

Lemma to_url_safe (c : ascii) : in_alphabet c = true -> url_safe (to_url c) = true.
Proof.
  destruct c as [b0 b1 b2 b3 b4 b5 b6 b7].
  destruct b0, b1, b2, b3, b4, b5, b6, b7; vm_compute; congruence.
Qed.

Lemma url_form_body (body : string) :
  chars_ok body ->
  Forall (fun c => url_safe c = true) (list_ascii_of_string (url_form body))
  /\ String.length (url_form body) = String.length body.
Proof.
  unfold chars_ok. induction body as [| c body IH]; intros Hok.
  - split; [constructor | reflexivity].
  - inversion Hok as [| x l Hc Hrest]; subst. destruct (IH Hrest) as [Hs Hl].
    rewrite url_form_cons. simpl. split; [| now rewrite Hl].
    constructor; [now apply to_url_safe | exact Hs].
Qed.

Lemma strip_padding_body (body pad : string) :
  Forall (fun c => url_safe c = true) (list_ascii_of_string body) ->
  pad = "" \/ pad = "=" \/ pad = "==" ->
  strip_padding (body +:+ pad) = body.
Proof.
  intros Hbody Hpad. induction body as [| c body IH].
  - destruct Hpad as [-> | [-> | ->]]; reflexivity.
  - inversion Hbody as [| x l Hc Hrest]; subst.
    rewrite append_cons. simpl. rewrite (IH Hrest).
    destruct body; [| reflexivity].
    destruct (Ascii.eqb_spec c "="); [subst c; discriminate | reflexivity].
Qed.

Lemma utf8_bytes (s : string) : Forall (fun b => (b < 256)%N) (utf8 s).
Proof.
  unfold utf8. induction (list_ascii_of_string s) as [| c l IH]; simpl; [constructor |].
  pose proof (N_ascii_bounded c) as Hc.
  destruct (N.ltb_spec (N_of_ascii c) 128).
  - simpl. constructor; [lia | exact IH].
  - simpl. assert (N_of_ascii c / 64 < 4)%N by (apply N.Div0.div_lt_upper_bound; lia).
    assert (N_of_ascii c mod 64 < 64)%N by (apply N.mod_lt; lia).
    repeat constructor; [lia | lia | exact IH].
Qed.

End EncodeFacts.

(** X26.  The message handed to the Gmail API is written in the URL-safe
    alphabet only (letters, digits, minus and underscore) and carries no
    padding: for a message of n bytes it has the 4n/3 characters, rounded
    up, of unpadded base64. *)
Theorem X26_raw_message_is_url_safe (message : string) :
  Forall (fun c => url_safe c = true) (list_ascii_of_string (Mail.encode message))
  /\ String.length (Mail.encode message)
     = ((4 * length (Mail.utf8 message) + 2) / 3)%nat.
Proof.
  unfold Mail.encode.
  destruct (EncodeFacts.base64_shape (Mail.utf8 message) (EncodeFacts.utf8_bytes message))
    as (body & pad & -> & Hok & Hpad & Hlen).
  fold (url_form (body +:+ pad)). rewrite EncodeFacts.url_form_app.
  destruct (EncodeFacts.url_form_body body Hok) as [Hsafe Hl].
  assert (Hp : url_form pad = pad).
  { destruct Hpad as [-> | [-> | ->]]; reflexivity. }
  rewrite Hp, EncodeFacts.strip_padding_body by assumption.
  split; [exact Hsafe | now rewrite Hl].
Qed.

(** * Concrete runs

    The handler run on [RefLuxon], with executable stand-ins for the host
    built-ins, on 10 September 2025 at noon. *)

Module Scenario.

#[local] Existing Instance RefLuxon.api.
Import Fixture.

(** C1 as stated fails.  The only send of the run throws; the state write
    that follows it succeeds, and the table, which had no record, now holds
    11 September as the last notified date.  The next run, whose send would
    succeed, reads that record and sends nothing. *)
Lemma C1_counterexample :
  let failing := world_of (inr general_waste_tomorrow) [resident] None
                          (fun _ => Some boom) None None in
  let working := world_of (inr general_waste_tomorrow) [resident] None
                          (fun _ => None) None None in
  let run := daily failing None fresh in
  let retry := daily working None run.2 in
  run.1 = Returned ok_response
  /\ send_results (trace run.2) = [(resident, false)]
  /\ write_results (trace run.2) = [(house_key, tomorrow, true)]
  /\ last_notified (store fresh) house_key = None
  /\ last_notified (store run.2) house_key = Some tomorrow
  /\ send_results (trace retry.2) = send_results (trace run.2).
Proof. vm_compute. repeat split. Qed.

Lemma C1_state_write_follows_send_attempts_witness :
  let env := world_of (inr general_waste_tomorrow) [resident] None
                      (fun _ => Some boom) None None in
  let result := extractCollections (Some "Europe/London") general_waste_tomorrow in
  hasTomorrowOf (collections result) tomorrow = true
  /\ notified_flag env 0 (sha256 house) tomorrow fresh = false
  /\ exists w',
       decide_and_notify env (config_of [resident]) (noon "Europe/London") tomorrow false 0
                         (JsString house) [JsString resident] result fresh
       = (Returned tt, w')
       /\ store w' = <[sha256 house := notified_item env tomorrow result]> (store fresh).
Proof.
  intros env result.
  assert (H1 : hasTomorrowOf (collections result) tomorrow = true)
    by (vm_compute; reflexivity).
  assert (H2 : notified_flag env 0 (sha256 house) tomorrow fresh = false)
    by (vm_compute; reflexivity).
  split; [exact H1 | split; [exact H2 |]].
  pose proof (C1_state_write_follows_send_attempts env (config_of [resident])
                (noon "Europe/London") tomorrow 0 house [JsString resident] result fresh
                H1 H2) as H.
  cbv zeta in H.
  change (suffix_text env (config_of [resident])) with (@inr Error string tonight) in H.
  destruct H as [w' [Hrun [_ [_ Hstore]]]].
  exists w'. split; [exact Hrun | exact Hstore].
Defined.

Lemma C2_already_notified_no_action_witness :
  let env := world_of (inr general_waste_tomorrow) [resident] None
                      (fun _ => None) None None in
  let result := extractCollections (Some "Europe/London") general_waste_tomorrow in
  hasTomorrowOf (collections result) tomorrow = true
  /\ decide_and_notify env (config_of [resident]) (noon "Europe/London") tomorrow false 0
                       (JsString house) [JsString resident] result notified_world
     = (Returned tt, log [FxGetItem (sha256 house)] notified_world).
Proof.
  intros env result.
  assert (H : hasTomorrowOf (collections result) tomorrow = true)
    by (vm_compute; reflexivity).
  split; [exact H |].
  apply (C2_already_notified_no_action env (config_of [resident])
           (noon "Europe/London") tomorrow 0 (house_address [resident]) house
           [JsString resident] notified_world
           {| lastNotifiedForLocalDate := Some tomorrow;
              lastSnapshot := None; updatedAt := None |}).
  - reflexivity.
  - reflexivity.
  - vm_compute. reflexivity.
  - reflexivity.
  - exact H.
Defined.

(** Scenarios A and B of the specification: one entry on the target date;
    without a stored record the message is sent and the date recorded, with
    the record of that date nothing is sent and nothing is written. *)
Example scenario_a_first_run :
  let env := world_of (inr general_waste_tomorrow) [resident] None
                      (fun _ => None) None None in
  let run := daily env None fresh in
  omap (fun fx => match fx with FxSendEmail _ s _ _ true => Some s | _ => None end)
       (trace run.2)
  = ["General Waste collection on 11th September 2025 - 10 Example Road, DA12 1AA"]
  /\ write_results (trace run.2) = [(house_key, tomorrow, true)].
Proof. vm_compute. repeat split. Qed.

Example scenario_b_already_notified :
  let env := world_of (inr general_waste_tomorrow) [resident] None
                      (fun _ => None) None None in
  let run := daily env None notified_world in
  run.1 = Returned ok_response
  /\ send_results (trace run.2) = []
  /\ write_results (trace run.2) = []
  /\ store run.2 = store notified_world.
Proof. vm_compute. repeat split. Qed.

(** C3 as stated fails.  In force mode, with a schedule whose only entry is
    on 1 September (before today, 10 September, and not on the target date),
    no entry is on or after the start of today, and the run does send: one
    message, announcing 11 September with no bins. *)
Lemma C3_counterexample :
  let env := world_of (inr past_only) [resident] None (fun _ => None) None None in
  let cs := collections (extractCollections (Some "Europe/London") past_only) in
  let run := daily env forced fresh in
  getForceNotify env forced = true
  /\ hasTomorrowOf cs tomorrow = false
  /\ upcoming (noon "Europe/London") cs = []
  /\ run.1 = Returned ok_response
  /\ send_results (trace run.2) = [(resident, true)]
  /\ omap (fun fx => match fx with FxSendEmail _ s _ _ _ => Some s | _ => None end)
          (trace run.2)
     = [" collection on 11th September 2025 - 10 Example Road, DA12 1AA"].
Proof. vm_compute. repeat split. Qed.

Lemma C3_force_mode_announce_date_witness :
  let cs := collections (extractCollections (Some "Europe/London") past_and_future) in
  exists first,
    In first cs /\ is_upcoming (noon "Europe/London") first = true
    /\ (forall c, In c cs -> is_upcoming (noon "Europe/London") c = true ->
          valueOf (entry_dt first) <= valueOf (entry_dt c))
    /\ announceDateOf true (noon "Europe/London") tomorrow cs = localDate first.
Proof.
  intros cs.
  assert (H1 : hasTomorrowOf cs tomorrow = false) by (vm_compute; reflexivity).
  pose proof (C3_force_mode_announce_date
                (world_of (inr past_and_future) [resident] None (fun _ => None) None None)
                (config_of [resident]) (noon "Europe/London") tomorrow 0
                house [JsString resident]
                (extractCollections (Some "Europe/London") past_and_future) fresh H1)
    as H.
  cbv zeta in H. destruct H as [H _]. subst cs. apply H.
  exists {| localDate := "2025-09-14"; bins := ["Food waste"] |}.
  split; [vm_compute; right; left; reflexivity | vm_compute; reflexivity].
Defined.

Example force_mode_picks_the_next_date :
  announceDateOf true (noon "Europe/London") tomorrow
    (collections (extractCollections (Some "Europe/London") past_and_future))
  = "2025-09-12".
Proof. vm_compute. reflexivity. Qed.

(** C4 as stated fails.  In the forced run on the schedule whose only entry
    is on 1 September, the announce date is 11 September and no entry is on
    it; the deduplicated union of the whole schedule is [Recycling], and the
    code gathers nothing: the bin list is empty and so is the bins text. *)
Lemma C4_counterexample :
  let cs := collections (extractCollections (Some "Europe/London") past_only) in
  let announceDate := announceDateOf true (noon "Europe/London") tomorrow cs in
  announceDate = tomorrow
  /\ entries_on cs announceDate = []
  /\ whole_schedule_bins cs = ["Recycling"]
  /\ uniqueBins cs announceDate = []
  /\ uniqueBins cs announceDate <> whole_schedule_bins cs
  /\ binsTextOf cs announceDate = EmptyString.
Proof. vm_compute. repeat split. discriminate. Qed.

Lemma C4_no_entry_no_bins_witness :
  let cs := collections (extractCollections (Some "Europe/London") past_only) in
  entries_on cs tomorrow = []
  /\ binsForAnnounce cs tomorrow = []
  /\ uniqueBins cs tomorrow = []
  /\ binsTextOf cs tomorrow = EmptyString.
Proof.
  intros cs.
  assert (H : entries_on cs tomorrow = []) by (vm_compute; reflexivity).
  split; [exact H |].
  exact (C4_no_entry_no_bins cs tomorrow H).
Defined.


(** The zone of the parse is the one of the environment. *)
Example parse_zone_of_the_environment :
  option_map RefLuxon.rl_zone (parseDateToLocal (Some "America/New_York") "11/09/2025")
  = Some "America/New_York"
  /\ option_map RefLuxon.rl_zone (parseDateToLocal (Some "") "11/09/2025")
     = Some "Europe/London"
  /\ option_map RefLuxon.rl_zone (parseDateToLocal None "11/09/2025")
     = Some "Europe/London".
Proof. vm_compute. repeat split. Qed.

(** The formats of one calendar date agree, and a text without a date gives
    [null]. *)
Example parse_formats_agree :
  map (parsed_date (Some "Europe/London"))
      ["11/9/2025"; " 11/09/25 "; "11 Sep 2025"; "2025-09-11"; "Thu 11/09/2025 (am)";
       "31/02/2025"; "no date here"]
  = [Some tomorrow; Some tomorrow; Some tomorrow; Some tomorrow; Some tomorrow;
     None; None].
Proof. vm_compute. reflexivity. Qed.

Lemma C6_rows_of_one_date_merge_witness :
  entries_on (collections (extractCollections (Some "Europe/London") merged_rows)) tomorrow
  = [ {| localDate := tomorrow;
         bins := first_seen (texts_on (Some "Europe/London") tomorrow
                                      (rows (tableData merged_rows))) |} ]
  /\ In "Food waste"
        (first_seen (texts_on (Some "Europe/London") tomorrow
                              (rows (tableData merged_rows)))).
Proof.
  apply (C6_rows_of_one_date_merge (Some "Europe/London") merged_rows tomorrow
           {| dateText := "11/9/2025"; binsText := "Food waste" |}).
  - vm_compute. right. right. left. reflexivity.
  - vm_compute. reflexivity.
  - reflexivity.
Defined.

Example merged_rows_collections :
  collections (extractCollections (Some "Europe/London") merged_rows)
  = [ {| localDate := "2025-09-11"; bins := ["General Waste"; "Food waste"] |};
      {| localDate := "2025-09-18"; bins := ["Recycling"] |} ].
Proof. vm_compute. reflexivity. Qed.



(** The first line has no line before it: its window has two lines. *)
Example window_of_the_first_line :
  let raw := "12/09/2025" +:+ lf +:+ "Recycling" +:+ lf +:+ "Thank you" in
  collections (extractCollections (Some "Europe/London") (text_frame raw))
  = [ {| localDate := "2025-09-12"; bins := ["12/09/2025 Recycling"] |} ].
Proof. vm_compute. reflexivity. Qed.

(** Scenario C of the specification: no table row, one dated line. *)
Example text_fallback_collections :
  collections (extractCollections (Some "Europe/London") (text_frame page_text))
  = [ {| localDate := "2025-09-12"; bins := ["Friday 12/09/2025 Recycling"] |} ].
Proof. vm_compute. reflexivity. Qed.

Lemma C7_store_errors_are_absorbed_witness :
  let env := world_of (inr general_waste_tomorrow) [resident] (Some boom)
                      (fun _ => None) (Some boom) None in
  let result := extractCollections (Some "Europe/London") general_waste_tomorrow in
  let run := decide_and_notify env (config_of [resident]) (noon "Europe/London")
                               tomorrow false 0 (JsString house) [JsString resident] result
                               notified_world in
  let run0 := decide_and_notify (with_read_ok env) (config_of [resident])
                                (noon "Europe/London") tomorrow false 0
                                (JsString house) [JsString resident] result
                                (forget (sha256 house) notified_world) in
  run.1 = run0.1 /\ trace run.2 = trace run0.2 /\ run.1 = Returned tt.
Proof.
  intros env result run run0.
  pose proof (C7_store_errors_are_absorbed env (config_of [resident])
                (noon "Europe/London") tomorrow 0 house [JsString resident] result
                notified_world None) as H.
  cbv zeta in H.
  change (suffix_text env (config_of [resident])) with (@inr Error string tonight) in H.
  destruct H as (Hread & _ & Hret & _).
  destruct (Hread boom eq_refl) as (H1 & H2 & _).
  split; [exact H1 | split; [exact H2 | exact Hret]].
Defined.

(** A read error on a table that does hold the record does not stop the
    notification: the message is sent. *)
Example read_error_still_notifies :
  let env := world_of (inr general_waste_tomorrow) [resident] (Some boom)
                      (fun _ => None) None None in
  send_results (trace (daily env None notified_world).2) = [(resident, true)].
Proof. vm_compute. reflexivity. Qed.


(** A configuration that [loadConfig] accepts and on which the address loop
    throws: the first address has no recipients.  The browser is launched
    and closed, no address is scraped, not even the second one, and the run
    throws the [TypeError] of [recipients.join]. *)
Example address_without_recipients :
  let env := world_with [no_recipients; house_address [resident]] (JsString tonight)
                        (inr general_waste_tomorrow) None (fun _ => None) None None in
  let run := daily env None fresh in
  (exists config, loaded_config env = inr config)
  /\ run.1 = Thrown (JsTypeError "recipients.join(', ')")
  /\ trace run.2 = [FxFetchJoke; FxLaunchBrowser; FxCloseBrowser].
Proof. vm_compute. split; [eexists; reflexivity | split; reflexivity]. Qed.

(** A message suffix that is not a text: the address is scraped and the
    state read, composing the message throws, nothing is sent or written. *)
Example suffix_that_is_a_number :
  let env := world_with [house_address [resident]] (JsNumber 7)
                        (inr general_waste_tomorrow) None (fun _ => None) None None in
  let run := daily env None fresh in
  run.1 = Thrown (JsTypeError "(messageSuffix || '').trim()")
  /\ trace run.2
     = [FxFetchJoke; FxLaunchBrowser; FxScrape (JsString house); FxGetItem house_key;
        FxCloseBrowser]
  /\ store run.2 = store fresh.
Proof. vm_compute. repeat split. Qed.


Lemma C10_invalid_recipients_dropped_witness :
  let env := world_of (inr general_waste_tomorrow) [phone] None
                      (fun _ => None) None None in
  let result := extractCollections (Some "Europe/London") general_waste_tomorrow in
  exists w' fxs,
    decide_and_notify env (config_of [phone]) (noon "Europe/London") tomorrow false 0
                      (JsString house) [JsString phone] result fresh
    = (Returned tt, w')
    /\ trace w' = trace fresh ++ fxs
    /\ sends_to fxs = []
    /\ last_notified (store w') (sha256 house) = Some tomorrow.
Proof.
  intros env result.
  pose proof (proj2 (proj2 (C10_invalid_recipients_dropped env (config_of [phone])
                (noon "Europe/London") tomorrow 0 house [JsString phone] result fresh)))
    as H.
  change (suffix_text env (config_of [phone])) with (@inr Error string tonight) in H.
  apply H.
  - vm_compute. reflexivity.
  - vm_compute. reflexivity.
  - reflexivity.
Defined.

(** The configuration of the README, whose recipient is a telephone number:
    nothing is sent and the address is recorded as notified. *)
Example phone_number_recipient :
  let env := world_of (inr general_waste_tomorrow) [phone] None
                      (fun _ => None) None None in
  let run := daily env None fresh in
  emailLike (JsString phone) = false
  /\ send_results (trace run.2) = []
  /\ last_notified (store run.2) house_key = Some tomorrow.
Proof. vm_compute. repeat split. Qed.

End Scenario.

(** * More concrete runs

    The properties of the second part, each applied to concrete data. *)

Module Coverage.

#[local] Existing Instance RefLuxon.api.
Import Fixture.


Lemma X2_forced_run_leaves_state_witness :
  let env := world_of (inr general_waste_tomorrow) [resident] None (fun _ => None) None None in
  getForceNotify env forced = true
  /\ store (daily env forced notified_world).2 = store notified_world.
Proof.
  intros env.
  assert (Hforce : getForceNotify env forced = true) by (vm_compute; reflexivity).
  split; [exact Hforce |].
  exact (proj1 (X2_forced_run_leaves_state env forced notified_world Hforce)).
Defined.


Lemma X6_mark_then_check_witness :
  let env := world_of (inr general_waste_tomorrow) [resident] None (fun _ => None) None None in
  let result := extractCollections (Some "Europe/London") general_waste_tomorrow in
  updateItem_error env 0 = None
  /\ getItem_error env 0 = None
  /\ (wasNotifiedForDate env 0 house_key tomorrow
        (markNotified env 0 house_key tomorrow result fresh).2).1
     = if String.eqb house_key house_key
       then Returned (String.eqb tomorrow tomorrow)
       else (wasNotifiedForDate env 0 house_key tomorrow fresh).1.
Proof.
  intros env result.
  assert (Hu : updateItem_error env 0 = None) by reflexivity.
  assert (Hg : getItem_error env 0 = None) by reflexivity.
  split; [exact Hu | split; [exact Hg |]].
  exact (X6_mark_then_check env 0 0 house_key tomorrow house_key tomorrow result fresh Hu Hg).
Defined.

Lemma X7_second_turn_is_silent_witness :
  let env := world_of (inr general_waste_tomorrow) [resident] None (fun _ => None) None None in
  let result := extractCollections (Some "Europe/London") general_waste_tomorrow in
  let first_turn :=
    (decide_and_notify env (config_of [resident]) (noon "Europe/London") tomorrow false 0
                       (JsString house) [JsString resident] result fresh).2 in
  hasTomorrowOf (collections result) tomorrow = true
  /\ updateItem_error env 0 = None
  /\ getItem_error env 0 = None
  /\ decide_and_notify env (config_of [resident]) (noon "Europe/London") tomorrow false 0
                       (JsString house) [JsString resident] result first_turn
     = (Returned tt,
        if hasTomorrowOf (collections result) tomorrow
        then log [FxGetItem (sha256 house)] first_turn
        else first_turn).
Proof.
  intros env result first_turn.
  assert (Hhas : hasTomorrowOf (collections result) tomorrow = true)
    by (vm_compute; reflexivity).
  assert (Hu : updateItem_error env 0 = None) by reflexivity.
  assert (Hg : getItem_error env 0 = None) by reflexivity.
  split; [exact Hhas | split; [exact Hu | split; [exact Hg |]]].
  pose proof (X7_second_turn_is_silent env (config_of [resident]) (config_of [resident])
                (noon "Europe/London") (noon "Europe/London") tomorrow 0 0
                house [JsString resident] [JsString resident] result result fresh
                Hhas Hu Hg) as H.
  cbv zeta in H.
  change (suffix_text env (config_of [resident])) with (@inr Error string tonight) in H.
  exact H.
Defined.

Lemma X10_ordinal_suffix_english_witness :
  1 <= 22 <= 31 /\ ordinal_suffix 22 = english_ordinal 22.
Proof. split; [lia | apply X10_ordinal_suffix_english; lia]. Defined.

Lemma X12_escapeHtml_output_is_inert_witness :
  In "&"%char (list_ascii_of_string (escapeHtml "<b>"))
  /\ "&"%char <> "<"%char /\ "&"%char <> ">"%char
  /\ "&"%char <> Str.double_quote /\ "&"%char <> "'"%char.
Proof.
  assert (H : In "&"%char (list_ascii_of_string (escapeHtml "<b>")))
    by (vm_compute; left; reflexivity).
  split; [exact H |].
  exact (X12_escapeHtml_output_is_inert "<b>" "&"%char H).
Defined.

Lemma X15_text_lines_are_clean_witness :
  In "12/09/2025" (text_lines page_text)
  /\ "12/09/2025" <> ""
  /\ starts_clean "12/09/2025"
  /\ ends_clean "12/09/2025"
  /\ Str.trim "12/09/2025" = "12/09/2025"
  /\ ~ In "010"%char (list_ascii_of_string "12/09/2025").
Proof.
  assert (H : In "12/09/2025" (text_lines page_text))
    by (vm_compute; right; right; left; reflexivity).
  split; [exact H |].
  exact (X15_text_lines_are_clean page_text "12/09/2025" H).
Defined.


Lemma X17_first_readable_table_witness :
  let layout :=
    {| Page.node_id := 1; Page.trs := [ ["Menu"] ]; Page.outerHTML := "<table></table>" |} in
  let results :=
    {| Page.node_id := 2; Page.trs := [ ["11/09/2025"; "General Waste"] ];
       Page.outerHTML := "<table id=table2></table>" |} in
  let doc := {| Page.table2 := Some results; Page.tables := [layout; results] |} in
  identified (Page.tableOrder doc)
  /\ Page.tableData_of doc = picked (first_readable (Page.tableOrder doc)).
Proof.
  intros layout results doc.
  assert (H : identified (Page.tableOrder doc)).
  { intros a b Ha Hb. simpl in Ha, Hb.
    destruct Ha as [<- | [<- | [<- | []]]]; destruct Hb as [<- | [<- | [<- | []]]];
      simpl; intros Hid; solve [reflexivity | discriminate Hid]. }
  split; [exact H |].
  exact (X17_first_readable_table doc H).
Defined.

Lemma X23_blank_label_clicks_first_witness :
  Str.trim "  " = ""
  /\ Click.clickByText ["Cookie settings"; "Start"] ["  "; "Start"] = Some 0%nat.
Proof.
  assert (H : Str.trim "  " = "") by reflexivity.
  split; [exact H |].
  exact (X23_blank_label_clicks_first "  " "Cookie settings" ["Start"] ["Start"] H).
Defined.

End Coverage.
